(** * The rate limiter of the code-helper bot (src/utils/rateLimiter.js)

    A shallow embedding of the [RateLimiter] class: the sliding-window
    ledger per caller and for the whole process, the standard and premium
    tiers, the violation counter with its fractional decay, temporary bans,
    the periodic cleanup and the administrative operations.

    Conventions of the embedding.
    - Instants are the integers [Date.now()] returns (milliseconds), in [Z];
      all of the code's arithmetic on them is integer arithmetic.
    - [violations] is a JavaScript number that takes fractional values
      ([- 0.1]): it is an IEEE 754 binary64 value, [PrimFloat.float], with the
      operations of the kernel ([+], [-], [<?], [<=?], [=?]).
    - A method that mutates [this] takes the limiter and returns the new one.
    - The [message] strings of the results are display text and are left out,
      as are the calls to [Logger]; the unused [guildId] argument of
      [checkRateLimit] is left out too.

    Beside the limiter the file embeds the two places that ask it before a
    command runs ([CommandHandler.handle] and the bot's
    [handleSlashCommand]), the text helpers [truncateText],
    [createCompactEmbed] (the description it sets) and [formatUptime], and
    the level filter of the logger. *)

From Stdlib Require Import ZArith QArith Qpower Qminmax Floats Lia Lqa.
From stdpp Require Import gmap strings list fin_maps pretty.

Local Set Warnings "-inexact-float".
Local Open Scope Z_scope.

(** ** Data *)

(** [this.config]. Every quota is read as [parseInt(process.env.X) || d]:
    an integer, never [0] and never [NaN]. *)
Record Config := {
  userRequestsPerMinute : Z;
  userRequestsPerHour : Z;
  globalRequestsPerMinute : Z;
  globalRequestsPerHour : Z;
  premiumUserRequestsPerMinute : Z;
  premiumUserRequestsPerHour : Z;
  cooldownPeriod : Z;
  tempBanDuration : Z
}.

(** The configuration of a process started with none of the variables set. *)
Definition defaultConfig : Config := {|
  userRequestsPerMinute := 10;
  userRequestsPerHour := 50;
  globalRequestsPerMinute := 100;
  globalRequestsPerHour := 1000;
  premiumUserRequestsPerMinute := 30;
  premiumUserRequestsPerHour := 200;
  cooldownPeriod := 60000;
  tempBanDuration := 300000
|}.

(** A value of [this.userLimits]: [{ requests: [...], violations: n }]. *)
Record UserData := {
  requests : list Z;
  violations : float
}.

(** The value of [this.globalLimits] under the key ['global']. *)
Record GlobalData := {
  global_requests : list Z
}.

Record RateLimiter := {
  userLimits : gmap string UserData;
  globalLimits : gmap string GlobalData;
  config : Config;
  tempBans : gmap string Z;
  premiumUsers : gset string
}.

(** The constructor, [premium] being the identifiers of [PREMIUM_USERS]. *)
Definition newRateLimiter (cfg : Config) (premium : gset string) : RateLimiter := {|
  userLimits := ∅;
  globalLimits := ∅;
  config := cfg;
  tempBans := ∅;
  premiumUsers := premium
|}.

Definition with_userLimits (m : gmap string UserData) (s : RateLimiter) : RateLimiter := {|
  userLimits := m;
  globalLimits := globalLimits s;
  config := config s;
  tempBans := tempBans s;
  premiumUsers := premiumUsers s
|}.

Definition with_globalLimits (m : gmap string GlobalData) (s : RateLimiter) : RateLimiter := {|
  userLimits := userLimits s;
  globalLimits := m;
  config := config s;
  tempBans := tempBans s;
  premiumUsers := premiumUsers s
|}.

Definition with_tempBans (m : gmap string Z) (s : RateLimiter) : RateLimiter := {|
  userLimits := userLimits s;
  globalLimits := globalLimits s;
  config := config s;
  tempBans := m;
  premiumUsers := premiumUsers s
|}.

Definition with_premiumUsers (p : gset string) (s : RateLimiter) : RateLimiter := {|
  userLimits := userLimits s;
  globalLimits := globalLimits s;
  config := config s;
  tempBans := tempBans s;
  premiumUsers := p
|}.

(** The [reason] codes of a denial. *)
Inductive Reason :=
| temp_ban
| temp_ban_applied
| minute_limit
| hour_limit
| global_minute_limit
| global_hour_limit.

(** A [retryAfter] value: a rational number of seconds (an integer but for
    [tempBanDuration / 1000], which JavaScript does not floor), or
    [Infinity]. *)
Inductive JsNum :=
| Num (q : Q)
| PosInfinity.

Definition IntNum (z : Z) : JsNum := Num (inject_Z z).

(** [remaining: { minute, hour }]. *)
Record Remaining := {
  minute : Z;
  hour : Z
}.

(** The object a check returns; an absent property is [None]. *)
Record CheckResult := {
  allowed : bool;
  reason : option Reason;
  retryAfter : option JsNum;
  remaining : option Remaining
}.

Definition denied (r : Reason) (after : JsNum) (rem : option Remaining) : CheckResult := {|
  allowed := false;
  reason := Some r;
  retryAfter := Some after;
  remaining := rem
|}.

(** ** JavaScript primitives the class uses *)

(** [x || 0] on a number: [0], [-0] and [NaN] are falsy. *)
Definition or_zero (x : float) : float :=
  if (x =? 0)%float || is_nan x then 0%float else x.

(** [Math.max(a, b)] on two numbers: [NaN] when either is, and [+0] above
    [-0]. *)
Definition Math_max (a b : float) : float :=
  if is_nan a || is_nan b then nan
  else if (a <? b)%float then b
  else if (b <? a)%float then a
  else if is_zero a && negb (get_sign a) then a
  else b.

(** [Math.max(...l)] on instants; [None] is the [-Infinity] of an empty
    argument list. *)
Definition Math_max_list (l : list Z) : option Z :=
  match l with
  | [] => None
  | t :: l' => Some (foldr Z.max t l')
  end.

(** [Math.min(...l)]; [None] is the [Infinity] of an empty argument list. *)
Definition Math_min_list (l : list Z) : option Z :=
  match l with
  | [] => None
  | t :: l' => Some (foldr Z.min t l')
  end.

(** [Math.ceil(a / 1000)] on an integer [a]. *)
Definition ceil_div_1000 (a : Z) : Z := - ((- a) / 1000).

(** [l.filter(time => now - time < w)]. *)
Definition within (now w : Z) (l : list Z) : list Z :=
  List.filter (fun time => now - time <? w) l.

Definition HOUR : Z := 60 * 60 * 1000.
Definition MINUTE : Z := 60 * 1000.

(** ** The checks *)

Definition minuteLimitOf (s : RateLimiter) (userId : string) : Z :=
  if bool_decide (userId ∈ premiumUsers s)
  then premiumUserRequestsPerMinute (config s)
  else userRequestsPerMinute (config s).

Definition hourLimitOf (s : RateLimiter) (userId : string) : Z :=
  if bool_decide (userId ∈ premiumUsers s)
  then premiumUserRequestsPerHour (config s)
  else userRequestsPerHour (config s).

(** The record [checkUserLimit] works on: the stored one, or the fresh
    [{ requests: [], violations: 0 }] it stores first. *)
Definition userDataOf (s : RateLimiter) (userId : string) : UserData :=
  default {| requests := []; violations := 0 |} (userLimits s !! userId).

(** [retryAfter] of a minute-limit denial, lines 95 and 99:
    [Math.max(60 - Math.floor((now - Math.max(...recent)) / 1000), 1)].
    With no recent request [Math.max()] is [-Infinity], the difference
    [-Infinity], and the outer maximum [1]. *)
Definition minuteRetryAfter (now : Z) (recent : list Z) : JsNum :=
  match Math_max_list recent with
  | Some latest => IntNum (Z.max (60 - (now - latest) / 1000) 1)
  | None => IntNum 1
  end.

(** [retryAfter] of an hour-limit denial, lines 106, 107 and 111. With no
    request [Math.min()] is [Infinity] and so is the result. *)
Definition hourRetryAfter (now : Z) (reqs : list Z) : JsNum :=
  match Math_min_list reqs with
  | Some oldestRequest => IntNum (Z.max (60 * 60 - (now - oldestRequest) / 1000) 1)
  | None => PosInfinity
  end.

(** Lines 117 to 119. *)
Definition decay (v : float) : float :=
  if (0 <? v)%float then Math_max 0 (v - 0.1) else v.

Definition checkUserLimit (userId : string) (now : Z) (s : RateLimiter)
  : CheckResult * RateLimiter :=
  let minuteLimit := minuteLimitOf s userId in
  let hourLimit := hourLimitOf s userId in
  let userData := userDataOf s userId in
  let reqs := within now HOUR (requests userData) in
  let recentMinute := Z.of_nat (length (within now MINUTE reqs)) in
  let recentHour := Z.of_nat (length reqs) in
  let store v := with_userLimits (<[userId := {| requests := reqs; violations := v |}]> (userLimits s)) s in
  if recentMinute >=? minuteLimit then
    let v := (or_zero (violations userData) + 1)%float in
    if (3 <=? v)%float then
      (denied temp_ban_applied (Num (tempBanDuration (config s) # 1000)) None,
       with_tempBans (<[userId := now + tempBanDuration (config s)]> (tempBans s)) (store v))
    else
      (denied minute_limit (minuteRetryAfter now (within now MINUTE reqs))
         (Some {| minute := 0; hour := hourLimit - recentHour |}),
       store v)
  else if recentHour >=? hourLimit then
    (denied hour_limit (hourRetryAfter now reqs)
       (Some {| minute := minuteLimit - recentMinute; hour := 0 |}),
     store (violations userData))
  else
    ({| allowed := true; reason := None; retryAfter := None;
        remaining := Some {| minute := minuteLimit - recentMinute;
                             hour := hourLimit - recentHour |} |},
     store (decay (violations userData))).

Definition globalDataOf (s : RateLimiter) : GlobalData :=
  default {| global_requests := [] |} (globalLimits s !! "global"%string).

Definition checkGlobalLimit (now : Z) (s : RateLimiter) : CheckResult * RateLimiter :=
  let reqs := within now HOUR (global_requests (globalDataOf s)) in
  let recentMinute := Z.of_nat (length (within now MINUTE reqs)) in
  let recentHour := Z.of_nat (length reqs) in
  let s' := with_globalLimits (<["global"%string := {| global_requests := reqs |}]> (globalLimits s)) s in
  if recentMinute >=? globalRequestsPerMinute (config s) then
    (denied global_minute_limit (IntNum 60) None, s')
  else if recentHour >=? globalRequestsPerHour (config s) then
    (denied global_hour_limit (IntNum 3600) None, s')
  else
    ({| allowed := true; reason := None; retryAfter := None; remaining := None |}, s').

(** [recordRequest] reads a property of [this.userLimits.get(userId)]; on a
    caller without a record that is a [TypeError], here [None]. *)
Definition recordRequest (userId : string) (timestamp : Z) (s : RateLimiter)
  : option RateLimiter :=
  match userLimits s !! userId with
  | Some userData =>
      Some (with_userLimits
              (<[userId := {| requests := requests userData ++ [timestamp];
                              violations := violations userData |}]> (userLimits s)) s)
  | None => None
  end.

Definition recordGlobalRequest (timestamp : Z) (s : RateLimiter) : option RateLimiter :=
  match globalLimits s !! "global"%string with
  | Some globalData =>
      Some (with_globalLimits
              (<["global"%string := {| global_requests := global_requests globalData ++ [timestamp] |}]>
                 (globalLimits s)) s)
  | None => None
  end.

(** Lines 45 to 58: what [checkRateLimit] does once the ban check is over. *)
Definition checkQuotas (userId : string) (now : Z) (s : RateLimiter)
  : option (CheckResult * RateLimiter) :=
  let '(userCheck, s1) := checkUserLimit userId now s in
  if negb (allowed userCheck) then Some (userCheck, s1) else
  let '(globalCheck, s2) := checkGlobalLimit now s1 in
  if negb (allowed globalCheck) then Some (globalCheck, s2) else
  s3 ← recordRequest userId now s2;
  s4 ← recordGlobalRequest now s3;
  Some ({| allowed := true; reason := None; retryAfter := None; remaining := None |}, s4).

(** [checkRateLimit(userId)] at the instant [now = Date.now()]; [None] would
    be an exception. *)
Definition checkRateLimit (userId : string) (now : Z) (s : RateLimiter)
  : option (CheckResult * RateLimiter) :=
  match tempBans s !! userId with
  | Some banExpiry =>
      if now <? banExpiry then
        Some (denied temp_ban (IntNum (ceil_div_1000 (banExpiry - now))) None, s)
      else
        checkQuotas userId now (with_tempBans (delete userId (tempBans s)) s)
  | None => checkQuotas userId now s
  end.

(** ** Cleanup, statistics, administration *)

(** What the loop of lines 177 to 182 makes of one entry: the pruned record,
    or [None] when it deletes the entry. *)
Definition cleanupUser (oneHourAgo : Z) (userData : UserData) : option UserData :=
  let reqs := List.filter (fun time => oneHourAgo <? time) (requests userData) in
  if (length reqs =? 0)%nat && (or_zero (violations userData) =? 0)%float
  then None
  else Some {| requests := reqs; violations := violations userData |}.

(** [cleanup()] at the instant [now = Date.now()]. *)
Definition cleanup (now : Z) (s : RateLimiter) : RateLimiter :=
  let oneHourAgo := now - 60 * 60 * 1000 in
  let users := omap (cleanupUser oneHourAgo) (userLimits s) in
  let globals :=
    match globalLimits s !! "global"%string with
    | Some globalData =>
        <["global"%string :=
            {| global_requests :=
                 List.filter (fun time => oneHourAgo <? time) (global_requests globalData) |}]>
          (globalLimits s)
    | None => globalLimits s
    end in
  let bans := omap (fun expiry => if expiry <? now then None else Some expiry) (tempBans s) in
  {| userLimits := users;
     globalLimits := globals;
     config := config s;
     tempBans := bans;
     premiumUsers := premiumUsers s |}.

Record Usage := {
  used : Z;
  limit : Z
}.

Record UserStats := {
  isPremium : bool;
  usage_minute : Usage;
  usage_hour : Usage;
  stat_violations : float;
  tempBanned : bool
}.

(** [getUserStats(userId)] at the instant [now]; the limiter is returned with
    the statistics, as every method here returns it. *)
Definition getUserStats (userId : string) (now : Z) (s : RateLimiter)
  : UserStats * RateLimiter :=
  let userData := default {| requests := []; violations := 0 |} (userLimits s !! userId) in
  let recentMinute := Z.of_nat (length (within now MINUTE (requests userData))) in
  let recentHour := Z.of_nat (length (within now HOUR (requests userData))) in
  ({| isPremium := bool_decide (userId ∈ premiumUsers s);
      usage_minute := {| used := recentMinute; limit := minuteLimitOf s userId |};
      usage_hour := {| used := recentHour; limit := hourLimitOf s userId |};
      stat_violations := or_zero (violations userData);
      tempBanned := bool_decide (is_Some (tempBans s !! userId)) |},
   s).

Record GlobalStats := {
  global_minute : Usage;
  global_hour : Usage;
  activeUsers : nat;
  tempBannedUsers : nat
}.

Definition getGlobalStats (now : Z) (s : RateLimiter) : GlobalStats * RateLimiter :=
  let globalData := globalDataOf s in
  let recentMinute := Z.of_nat (length (within now MINUTE (global_requests globalData))) in
  let recentHour := Z.of_nat (length (within now HOUR (global_requests globalData))) in
  ({| global_minute := {| used := recentMinute; limit := globalRequestsPerMinute (config s) |};
      global_hour := {| used := recentHour; limit := globalRequestsPerHour (config s) |};
      activeUsers := size (userLimits s);
      tempBannedUsers := size (tempBans s) |},
   s).

Definition addPremiumUser (userId : string) (s : RateLimiter) : RateLimiter :=
  with_premiumUsers ({[userId]} ∪ premiumUsers s) s.

Definition removePremiumUser (userId : string) (s : RateLimiter) : RateLimiter :=
  with_premiumUsers (premiumUsers s ∖ {[userId]}) s.

Definition clearUserLimits (userId : string) (s : RateLimiter) : RateLimiter :=
  with_tempBans (delete userId (tempBans s))
    (with_userLimits (delete userId (userLimits s)) s).

(** ** Runs of the limiter *)

(** One call of a method by the rest of the bot, with the instant
    [Date.now()] gives during the call where the method reads the clock. *)
Inductive Op :=
| CheckRateLimit (userId : string) (now : Z)
| Cleanup (now : Z)
| GetUserStats (userId : string) (now : Z)
| GetGlobalStats (now : Z)
| AddPremiumUser (userId : string)
| RemovePremiumUser (userId : string)
| ClearUserLimits (userId : string).

Inductive Output :=
| Checked (r : CheckResult)
| UserStatsOf (st : UserStats)
| GlobalStatsOf (st : GlobalStats)
| Done.

Definition step (o : Op) (s : RateLimiter) : option (Output * RateLimiter) :=
  match o with
  | CheckRateLimit userId now =>
      '(r, s') ← checkRateLimit userId now s; Some (Checked r, s')
  | Cleanup now => Some (Done, cleanup now s)
  | GetUserStats userId now =>
      let '(st, s') := getUserStats userId now s in Some (UserStatsOf st, s')
  | GetGlobalStats now =>
      let '(st, s') := getGlobalStats now s in Some (GlobalStatsOf st, s')
  | AddPremiumUser userId => Some (Done, addPremiumUser userId s)
  | RemovePremiumUser userId => Some (Done, removePremiumUser userId s)
  | ClearUserLimits userId => Some (Done, clearUserLimits userId s)
  end.

(** The calls [ops], oldest first, from the state [s]: what each returned and
    the state they leave. *)
Fixpoint run (ops : list Op) (s : RateLimiter) : option (list Output * RateLimiter) :=
  match ops with
  | [] => Some ([], s)
  | o :: ops' =>
      '(out, s1) ← step o s;
      '(outs, s2) ← run ops' s1;
      Some (out :: outs, s2)
  end.

(** The instant of a call, when it reads the clock. *)
Definition op_time (o : Op) : option Z :=
  match o with
  | CheckRateLimit _ now | Cleanup now | GetUserStats _ now | GetGlobalStats now => Some now
  | _ => None
  end.

Fixpoint nondecreasing (l : list Z) : Prop :=
  match l with
  | a :: (b :: _) as tl => a <= b /\ nondecreasing tl
  | _ => True
  end.

(** The clock does not run backwards during the calls [ops]. *)
Definition clock_monotone (ops : list Op) : Prop :=
  nondecreasing (omap op_time ops).

(** The instants of the admitted [checkRateLimit] calls of [userId], oldest
    first, in a log of calls and what they returned. *)
Fixpoint admitted (userId : string) (log : list (Op * Output)) : list Z :=
  match log with
  | [] => []
  | (CheckRateLimit u now, Checked r) :: log' =>
      if bool_decide (u = userId) && allowed r
      then now :: admitted userId log'
      else admitted userId log'
  | _ :: log' => admitted userId log'
  end.

(** The instants of all admitted calls, whoever the caller. *)
Fixpoint admitted_all (log : list (Op * Output)) : list Z :=
  match log with
  | [] => []
  | (CheckRateLimit _ now, Checked r) :: log' =>
      if allowed r then now :: admitted_all log' else admitted_all log'
  | _ :: log' => admitted_all log'
  end.

(** How many of the instants [l] lie in the window of length [w] that ends
    at [T]: not after [T], and less than [w] before it. *)
Definition in_trailing (T w : Z) (l : list Z) : Z :=
  Z.of_nat (length (List.filter (fun t => (t <=? T) && (T - t <? w)) l)).

(** The call [o] is none of the administrative calls on [userId]. *)
Definition leaves_alone (userId : string) (o : Op) : Prop :=
  o <> ClearUserLimits userId /\ o <> AddPremiumUser userId
  /\ o <> RemovePremiumUser userId.

(** No administrative call touches [userId] in [ops]. *)
Definition undisturbed (userId : string) (ops : list Op) : Prop :=
  forall o, In o ops -> leaves_alone userId o.

(** ** Predicates of the statements *)

(** [v >= 0] as JavaScript evaluates it on the number [v]. *)
Definition nonneg (v : float) : Prop := (0 <=? v)%float = true.

(** A binary64 value that is not [NaN] and has the sign bit [s]. *)
Inductive signed (s : bool) : spec_float -> Prop :=
| signed_zero : signed s (S754_zero s)
| signed_infinity : signed s (S754_infinity s)
| signed_finite m e : signed s (S754_finite s m e).

(** The history and the counter of a caller, and the global history, as the
    checks read them: empty and [0] for a caller or a process not yet seen. *)
Definition requests_of (s : RateLimiter) (userId : string) : list Z :=
  requests (userDataOf s userId).

Definition violations_of (s : RateLimiter) (userId : string) : float :=
  violations (userDataOf s userId).

Definition global_of (s : RateLimiter) : list Z :=
  global_requests (globalDataOf s).

(** The six ways through lines 45 to 58, each with the result and the state
    it leaves ([checkQuotas_outcome] proves that [checkQuotas] takes one). *)
Inductive quota_outcome (userId : string) (now : Z) (s : RateLimiter)
  : CheckResult -> RateLimiter -> Prop :=
| out_ban_applied :
    let reqs := within now HOUR (requests_of s userId) in
    let v := (or_zero (violations_of s userId) + 1)%float in
    minuteLimitOf s userId <= Z.of_nat (length (within now MINUTE reqs)) ->
    (3 <=? v)%float = true ->
    quota_outcome userId now s
      (denied temp_ban_applied (Num (tempBanDuration (config s) # 1000)) None)
      {| userLimits := <[userId := {| requests := reqs; violations := v |}]> (userLimits s);
         globalLimits := globalLimits s;
         config := config s;
         tempBans := <[userId := now + tempBanDuration (config s)]> (tempBans s);
         premiumUsers := premiumUsers s |}
| out_minute_limit :
    let reqs := within now HOUR (requests_of s userId) in
    let v := (or_zero (violations_of s userId) + 1)%float in
    minuteLimitOf s userId <= Z.of_nat (length (within now MINUTE reqs)) ->
    (3 <=? v)%float = false ->
    quota_outcome userId now s
      (denied minute_limit (minuteRetryAfter now (within now MINUTE reqs))
         (Some {| minute := 0; hour := hourLimitOf s userId - Z.of_nat (length reqs) |}))
      {| userLimits := <[userId := {| requests := reqs; violations := v |}]> (userLimits s);
         globalLimits := globalLimits s;
         config := config s;
         tempBans := tempBans s;
         premiumUsers := premiumUsers s |}
| out_hour_limit :
    let reqs := within now HOUR (requests_of s userId) in
    Z.of_nat (length (within now MINUTE reqs)) < minuteLimitOf s userId ->
    hourLimitOf s userId <= Z.of_nat (length reqs) ->
    quota_outcome userId now s
      (denied hour_limit (hourRetryAfter now reqs)
         (Some {| minute := minuteLimitOf s userId - Z.of_nat (length (within now MINUTE reqs));
                  hour := 0 |}))
      {| userLimits := <[userId := {| requests := reqs; violations := violations_of s userId |}]>
                         (userLimits s);
         globalLimits := globalLimits s;
         config := config s;
         tempBans := tempBans s;
         premiumUsers := premiumUsers s |}
| out_global_minute_limit :
    let reqs := within now HOUR (requests_of s userId) in
    let greqs := within now HOUR (global_of s) in
    Z.of_nat (length (within now MINUTE reqs)) < minuteLimitOf s userId ->
    Z.of_nat (length reqs) < hourLimitOf s userId ->
    globalRequestsPerMinute (config s) <= Z.of_nat (length (within now MINUTE greqs)) ->
    quota_outcome userId now s
      (denied global_minute_limit (IntNum 60) None)
      {| userLimits := <[userId := {| requests := reqs;
                                      violations := decay (violations_of s userId) |}]>
                         (userLimits s);
         globalLimits := <["global"%string := {| global_requests := greqs |}]> (globalLimits s);
         config := config s;
         tempBans := tempBans s;
         premiumUsers := premiumUsers s |}
| out_global_hour_limit :
    let reqs := within now HOUR (requests_of s userId) in
    let greqs := within now HOUR (global_of s) in
    Z.of_nat (length (within now MINUTE reqs)) < minuteLimitOf s userId ->
    Z.of_nat (length reqs) < hourLimitOf s userId ->
    Z.of_nat (length (within now MINUTE greqs)) < globalRequestsPerMinute (config s) ->
    globalRequestsPerHour (config s) <= Z.of_nat (length greqs) ->
    quota_outcome userId now s
      (denied global_hour_limit (IntNum 3600) None)
      {| userLimits := <[userId := {| requests := reqs;
                                      violations := decay (violations_of s userId) |}]>
                         (userLimits s);
         globalLimits := <["global"%string := {| global_requests := greqs |}]> (globalLimits s);
         config := config s;
         tempBans := tempBans s;
         premiumUsers := premiumUsers s |}
| out_allowed :
    let reqs := within now HOUR (requests_of s userId) in
    let greqs := within now HOUR (global_of s) in
    Z.of_nat (length (within now MINUTE reqs)) < minuteLimitOf s userId ->
    Z.of_nat (length reqs) < hourLimitOf s userId ->
    Z.of_nat (length (within now MINUTE greqs)) < globalRequestsPerMinute (config s) ->
    Z.of_nat (length greqs) < globalRequestsPerHour (config s) ->
    quota_outcome userId now s
      {| allowed := true; reason := None; retryAfter := None; remaining := None |}
      {| userLimits := <[userId := {| requests := reqs ++ [now];
                                      violations := decay (violations_of s userId) |}]>
                         (userLimits s);
         globalLimits := <["global"%string := {| global_requests := greqs ++ [now] |}]>
                           (globalLimits s);
         config := config s;
         tempBans := tempBans s;
         premiumUsers := premiumUsers s |}.

(** The ways through [checkRateLimit]: an active ban, or the quota checks
    after an expired ban is deleted or when there is none. *)
Inductive check_outcome (userId : string) (now : Z) (s : RateLimiter)
  : CheckResult -> RateLimiter -> Prop :=
| out_temp_ban banExpiry :
    tempBans s !! userId = Some banExpiry ->
    now < banExpiry ->
    check_outcome userId now s
      (denied temp_ban (IntNum (ceil_div_1000 (banExpiry - now))) None) s
| out_expired banExpiry r s' :
    tempBans s !! userId = Some banExpiry ->
    banExpiry <= now ->
    quota_outcome userId now (with_tempBans (delete userId (tempBans s)) s) r s' ->
    check_outcome userId now s r s'
| out_no_ban r s' :
    tempBans s !! userId = None ->
    quota_outcome userId now s r s' ->
    check_outcome userId now s r s'.

(** [t] is the most recent, or the oldest, of the instants [l]. *)
Definition most_recent (l : list Z) (t : Z) : Prop :=
  In t l /\ forall x, In x l -> x <= t.

Definition oldest (l : list Z) (t : Z) : Prop :=
  In t l /\ forall x, In x l -> t <= x.

(** A [retryAfter] that is not less than [1]. *)
Definition at_least_one (n : JsNum) : Prop :=
  match n with
  | Num q => (1 <= q)%Q
  | PosInfinity => True
  end.

(** No ban of [userId] is in force at [now]: the per-caller check is run. *)
Definition no_active_ban (s : RateLimiter) (userId : string) (now : Z) : Prop :=
  forall banExpiry, tempBans s !! userId = Some banExpiry -> banExpiry <= now.

(** Every quota of the configuration is a count. *)
Definition quotas_nonneg (cfg : Config) : Prop :=
  0 <= userRequestsPerMinute cfg /\ 0 <= userRequestsPerHour cfg
  /\ 0 <= premiumUserRequestsPerMinute cfg /\ 0 <= premiumUserRequestsPerHour cfg
  /\ 0 <= globalRequestsPerMinute cfg /\ 0 <= globalRequestsPerHour cfg.

(** A stored history [stored] agrees with the admitted instants [adm] from
    the instant [b] on: no admitted instant is after [b], and pruned to the
    trailing hour of any instant from [b] on the two are the same. *)
Definition agrees (b : Z) (stored adm : list Z) : Prop :=
  (forall T, b <= T -> within T HOUR stored = within T HOUR adm)
  /\ (forall t, In t adm -> t <= b).

(** No window of length [w] holds more than [q] of the instants [adm]. *)
Definition bounded (q w : Z) (adm : list Z) : Prop :=
  forall T, in_trailing T w adm <= q.

(** Every record holds a counter that is not negative. *)
Definition violations_nonneg (s : RateLimiter) : Prop :=
  forall userId d, userLimits s !! userId = Some d -> nonneg (violations d).

(** A ban record goes with a caller record at or over the ban threshold. *)
Definition bans_have_records (s : RateLimiter) : Prop :=
  forall userId banExpiry,
    tempBans s !! userId = Some banExpiry ->
    exists d, userLimits s !! userId = Some d /\ (3 <=? violations d)%float = true.

(** The clock after the call [o], [b] being the clock before it. *)
Definition op_clock (b : Z) (o : Op) : Z := default b (op_time o).

(** The calls [ops] happen at instants that do not decrease, from [b] on. *)
Fixpoint clock_from (b : Z) (ops : list Op) : Prop :=
  match ops with
  | [] => True
  | o :: ops' => b <= op_clock b o /\ clock_from (op_clock b o) ops'
  end.

(** What ties the record of [userId] to the instants [adm] at which the
    caller was admitted so far, [b] being the clock: the tier is the one of
    the quotas [ml] and [hl], the stored history agrees with [adm], and no
    window of [adm] is over quota. *)
Definition user_ledger (userId : string) (ml hl : Z)
    (s : RateLimiter) (adm : list Z) (b : Z) : Prop :=
  minuteLimitOf s userId = ml /\ hourLimitOf s userId = hl
  /\ agrees b (requests_of s userId) adm
  /\ bounded ml MINUTE adm /\ bounded hl HOUR adm.

(** The same for the global record and the instants of all admissions. *)
Definition global_ledger (cfg : Config)
    (s : RateLimiter) (adm : list Z) (b : Z) : Prop :=
  config s = cfg
  /\ agrees b (global_of s) adm
  /\ bounded (globalRequestsPerMinute cfg) MINUTE adm
  /\ bounded (globalRequestsPerHour cfg) HOUR adm.

(** The output of an admitted [checkRateLimit]. *)
Definition admitted_output (out : Output) : Prop :=
  exists r, out = Checked r /\ allowed r = true.

(** The rational number a finite binary64 value is: [(-1)^s * m * 2^e]. *)
Definition float_value (x : float) : option Q :=
  match Prim2SF x with
  | S754_zero _ => Some 0%Q
  | S754_finite s m e => Some (inject_Z (cond_Zopp s (Z.pos m)) * Qpower 2 e)%Q
  | _ => None
  end.

(** The four counts a check compares with the quotas: the caller's and the
    process's requests in the trailing minute and hour at [now]. *)
Definition recentMinuteOf (s : RateLimiter) (userId : string) (now : Z) : Z :=
  Z.of_nat (length (within now MINUTE (requests_of s userId))).

Definition recentHourOf (s : RateLimiter) (userId : string) (now : Z) : Z :=
  Z.of_nat (length (within now HOUR (requests_of s userId))).

Definition globalMinuteOf (s : RateLimiter) (now : Z) : Z :=
  Z.of_nat (length (within now MINUTE (global_of s))).

Definition globalHourOf (s : RateLimiter) (now : Z) : Z :=
  Z.of_nat (length (within now HOUR (global_of s))).

(** Which quota check decides a call that no ban stops, in the order the
    code runs them, with the result's [reason] and [allowed]. *)
Definition quota_case (s : RateLimiter) (userId : string) (now : Z)
    (r : CheckResult) : Prop :=
  (minuteLimitOf s userId <= recentMinuteOf s userId now
   /\ (reason r = Some temp_ban_applied \/ reason r = Some minute_limit)
   /\ allowed r = false)
  \/ (recentMinuteOf s userId now < minuteLimitOf s userId
      /\ hourLimitOf s userId <= recentHourOf s userId now
      /\ reason r = Some hour_limit /\ allowed r = false)
  \/ (recentMinuteOf s userId now < minuteLimitOf s userId
      /\ recentHourOf s userId now < hourLimitOf s userId
      /\ globalRequestsPerMinute (config s) <= globalMinuteOf s now
      /\ reason r = Some global_minute_limit /\ allowed r = false)
  \/ (recentMinuteOf s userId now < minuteLimitOf s userId
      /\ recentHourOf s userId now < hourLimitOf s userId
      /\ globalMinuteOf s now < globalRequestsPerMinute (config s)
      /\ globalRequestsPerHour (config s) <= globalHourOf s now
      /\ reason r = Some global_hour_limit /\ allowed r = false)
  \/ (recentMinuteOf s userId now < minuteLimitOf s userId
      /\ recentHourOf s userId now < hourLimitOf s userId
      /\ globalMinuteOf s now < globalRequestsPerMinute (config s)
      /\ globalHourOf s now < globalRequestsPerHour (config s)
      /\ reason r = None /\ allowed r = true).

(** The milliseconds in a [retryAfter] number of seconds, rounded up. *)
Definition retry_millis (n : JsNum) : option Z :=
  match n with
  | Num q => Some (- ((- (1000 * Qnum q)) / Z.pos (Qden q)))
  | PosInfinity => None
  end.

(** The clock after the calls [ops], [b] being the clock before them. *)
Definition clock_after (b : Z) (ops : list Op) : Z := fold_left op_clock ops b.

(** The answer of [checkRateLimit] at [t] under a ban until [banExpiry]. *)
Definition temp_ban_answer (banExpiry t : Z) : Output :=
  Checked (denied temp_ban (IntNum (ceil_div_1000 (banExpiry - t))) None).

(** Every ban record is the work of a call in the log that answered
    [temp_ban_applied] to that caller, and expires [tempBanDuration] after
    it. *)
Definition bans_logged (cfg : Config) (log : list (Op * Output)) (s : RateLimiter) : Prop :=
  config s = cfg
  /\ forall userId banExpiry,
       tempBans s !! userId = Some banExpiry ->
       exists now r,
         In (CheckRateLimit userId now, Checked r) log
         /\ reason r = Some temp_ban_applied
         /\ banExpiry = now + tempBanDuration cfg.




(** The result of the quota checks as a function of what they read: the
    tier's quotas, the configuration, the caller's history pruned to the
    trailing hour, the caller's counter as [violations || 0], and the global
    history pruned to the trailing hour ([checkQuotas_verdict] proves that
    [checkQuotas] returns it). *)
Definition quota_verdict (ml hl : Z) (cfg : Config) (now : Z)
    (reqs : list Z) (v : float) (greqs : list Z) : CheckResult :=
  if Z.of_nat (length (within now MINUTE reqs)) >=? ml then
    if (3 <=? v + 1)%float
    then denied temp_ban_applied (Num (tempBanDuration cfg # 1000)) None
    else denied minute_limit (minuteRetryAfter now (within now MINUTE reqs))
           (Some {| minute := 0; hour := hl - Z.of_nat (length reqs) |})
  else if Z.of_nat (length reqs) >=? hl then
    denied hour_limit (hourRetryAfter now reqs)
      (Some {| minute := ml - Z.of_nat (length (within now MINUTE reqs)); hour := 0 |})
  else if Z.of_nat (length (within now MINUTE greqs)) >=? globalRequestsPerMinute cfg then
    denied global_minute_limit (IntNum 60) None
  else if Z.of_nat (length greqs) >=? globalRequestsPerHour cfg then
    denied global_hour_limit (IntNum 3600) None
  else {| allowed := true; reason := None; retryAfter := None; remaining := None |}.

(** The result of a [checkRateLimit] among the outputs of a run. *)
Definition decision_of (out : Output) : option CheckResult :=
  match out with
  | Checked r => Some r
  | _ => None
  end.

(** Two limiters that no call from the instant [b] on can tell apart by the
    results of [checkRateLimit]: same configuration and premium set; for
    every caller the same history and the same global history once pruned
    at any instant from [b] on, the same counter as [violations || 0], and
    the same ban records among those that expire after [b]. *)
Definition same_future (b : Z) (s1 s2 : RateLimiter) : Prop :=
  config s1 = config s2
  /\ premiumUsers s1 = premiumUsers s2
  /\ (forall userId T, b <= T ->
        within T HOUR (requests_of s1 userId) = within T HOUR (requests_of s2 userId))
  /\ (forall userId,
        or_zero (violations_of s1 userId) = or_zero (violations_of s2 userId))
  /\ (forall userId banExpiry, b < banExpiry ->
        (tempBans s1 !! userId = Some banExpiry <-> tempBans s2 !! userId = Some banExpiry))
  /\ (forall T, b <= T -> within T HOUR (global_of s1) = within T HOUR (global_of s2)).

(** ** The callers of the limiter

    [CommandHandler.handle] (src/unnamed/part_000) and
    [AICodeHelperBot.handleSlashCommand] (src/bot.js) ask the limiter before
    they run a command. A command's own work (the model call, the replies)
    is outside the embedding; none of the commands calls a method of the
    limiter that writes. *)

(** What handling a command ends in: the reply for an unknown name, the
    rate-limit reply with the limiter's result, or the call of the command
    registered under the name. *)
Inductive Handled :=
| UnknownCommand
| RateLimited (rateLimitResult : CheckResult)
| Invoked (commandName : string).

(** The keys [setupCommands] registers in [this.commands]. *)
Definition commands : list string :=
  ["help"; "debug"; "optimize"; "explain"; "review"; "generate";
   "models"; "stats"; "limits"]%string.

(** [CommandHandler.handle(interaction)], with [interaction.commandName],
    [interaction.user.id] and the instant of the limiter call if one is
    made. [checkRateLimit] does not raise, so the [catch] clause is reached
    from the command only. *)
Definition CommandHandler_handle (commandName userId : string) (now : Z) (s : RateLimiter)
  : option (Handled * RateLimiter) :=
  if negb (bool_decide (commandName ∈ commands)) then Some (UnknownCommand, s)
  else if negb (bool_decide (commandName ∈ ["help"; "models"; "stats"; "limits"]%string)) then
    '(rateLimitResult, s') ← checkRateLimit userId now s;
    if negb (allowed rateLimitResult)
    then Some (RateLimited rateLimitResult, s')
    else Some (Invoked commandName, s')
  else Some (Invoked commandName, s).

(** [handleSlashCommand(interaction)] of the bot, once [deferReply] has
    returned: the limiter is asked first, then the [switch] on the name. *)
Definition handleSlashCommand (commandName userId : string) (now : Z) (s : RateLimiter)
  : option (Handled * RateLimiter) :=
  '(rateLimitResult, s') ← checkRateLimit userId now s;
  if negb (allowed rateLimitResult)
  then Some (RateLimited rateLimitResult, s')
  else if bool_decide (commandName ∈ ["help"; "debug"; "optimize"; "explain"; "review";
                                      "generate"; "stats"]%string)
       then Some (Invoked commandName, s')
       else Some (UnknownCommand, s').

(** One command arriving at one of the two handlers. *)
Inductive Event :=
| Interaction (commandName userId : string) (now : Z)
| SlashCommand (commandName userId : string) (now : Z).

Definition handle_event (e : Event) (s : RateLimiter) : option (Handled * RateLimiter) :=
  match e with
  | Interaction commandName userId now => CommandHandler_handle commandName userId now s
  | SlashCommand commandName userId now => handleSlashCommand commandName userId now s
  end.

(** The commands [events], oldest first, on one limiter. *)
Fixpoint serve (events : list Event) (s : RateLimiter)
  : option (list Handled * RateLimiter) :=
  match events with
  | [] => Some ([], s)
  | e :: events' =>
      '(h, s1) ← handle_event e s;
      '(hs, s2) ← serve events' s1;
      Some (h :: hs, s2)
  end.

(** ** Text helpers

    A JavaScript string is its sequence of UTF-16 code units; [length],
    [substring] and [lastIndexOf] count in code units. *)
Definition units (s : string) : list N :=
  map Ascii.N_of_ascii (String.list_ascii_of_string s).

(** [s.substring(indexStart, indexEnd)] for integer arguments: both are
    clamped to [0 .. s.length] and swapped when out of order. *)
Definition substring (s : list N) (indexStart indexEnd : Z) : list N :=
  let len := Z.of_nat (length s) in
  let intStart := Z.min (Z.max indexStart 0) len in
  let intEnd := Z.min (Z.max indexEnd 0) len in
  let from := Z.min intStart intEnd in
  let to := Z.max intStart intEnd in
  take (Z.to_nat (to - from)) (drop (Z.to_nat from) s).

(** [s.lastIndexOf(c)] for a one-unit search string: the last index that
    holds [c], or [-1]. *)
Fixpoint lastIndexOf (s : list N) (c : N) : Z :=
  match s with
  | [] => -1
  | x :: s' =>
      let later := lastIndexOf s' c in
      if 0 <=? later then later + 1
      else if (x =? c)%N then 0 else -1
  end.

(** [truncateText(text, maxLength)] of the command handler, for an integer
    [maxLength]. *)
Definition truncateText (text : list N) (maxLength : Z) : list N :=
  if Z.of_nat (length text) <=? maxLength then text
  else substring text 0 (maxLength - 3) ++ units "...".

(** The text [createCompactEmbed(title, description, color)] of the message
    handler passes to [setDescription], lines 313 to 322. *)
Definition createCompactEmbed_description (description : list N) : list N :=
  if 2000 <? Z.of_nat (length description) then
    let truncated := substring description 0 1950 in
    let lastNewline := lastIndexOf truncated 10%N in
    (if 1800 <? lastNewline then substring truncated 0 lastNewline else truncated)
    ++ [10%N; 10%N] ++ units "*...truncated for brevity*"
  else description.

(** A JavaScript number that is a safe integer: a whole number of absolute
    value below [2^53]. On these the embedding of arithmetic in [Z] is
    exact: sums, differences and remainders of safe integers that stay
    below [2^53] are computed without rounding, and the quotient by one of
    [60000], [3600000], [86400000], which the division rounds, has the
    floor of the exact quotient, since a quotient that is not whole is at
    least [1/86400000] away from the whole numbers and half the spacing of
    the doubles near it is less. *)
Record SafeInteger := {
  integer : Z;
  integer_safe : (Z.abs integer <? 9007199254740992) = true
}.

(** [formatUptime(uptime)] of the bot for an uptime that is a safe integer,
    as [Date.now() - readyTimestamp] is: [Math.floor(a / b)] is the floor of
    the quotient, [%] the remainder of the truncated division, and a whole
    number is printed in decimal digits. *)
Definition formatUptime (uptime : SafeInteger) : string :=
  let days := integer uptime / 86400000 in
  let hours := Z.rem (integer uptime / 3600000) 24 in
  let minutes := Z.rem (integer uptime / 60000) 60 in
  if 0 <? days then pretty days +:+ "d " +:+ pretty hours +:+ "h " +:+ pretty minutes +:+ "m"
  else if 0 <? hours then pretty hours +:+ "h " +:+ pretty minutes +:+ "m"
  else pretty minutes +:+ "m".

(** ** The logger's level filter (src/utils/logger.js) *)

(** What reading a key of [this.levels] gives: the number of one of the
    four own keys; for a key of [Object.prototype], which the object
    inherits, a function or the prototype itself, given here by the string
    [ToPrimitive] turns it into; [undefined] for any other key. *)
Inductive Member :=
| Own (n : Z)
| Inherited (text : string)
| Absent.

(** The string of a member of [Object.prototype]: the source text of a
    built-in function, and [[object Object]] for the prototype that the
    accessor [__proto__] returns. *)
Definition Object_prototype (key : string) : option string :=
  if bool_decide (key = "constructor"%string)
  then Some "function Object() { [native code] }"%string
  else if bool_decide (key = "__proto__"%string)
  then Some "[object Object]"%string
  else if bool_decide (key ∈ ["__defineGetter__"; "__defineSetter__"; "hasOwnProperty";
                              "__lookupGetter__"; "__lookupSetter__"; "isPrototypeOf";
                              "propertyIsEnumerable"; "toString"; "valueOf";
                              "toLocaleString"]%string)
  then Some ("function " +:+ key +:+ "() { [native code] }")%string
  else None.

(** [this.levels[key]]. *)
Definition levels (key : string) : Member :=
  if bool_decide (key = "error"%string) then Own 0
  else if bool_decide (key = "warn"%string) then Own 1
  else if bool_decide (key = "info"%string) then Own 2
  else if bool_decide (key = "debug"%string) then Own 3
  else match Object_prototype key with
       | Some text => Inherited text
       | None => Absent
       end.

(** [a <= b] on two members: two numbers are compared as numbers; two
    strings by code units, [a <= b] being that [b < a] is not the case;
    [undefined] and a string beside a number convert to [NaN], and a
    comparison with [NaN] is [false]. *)
Definition js_le (a b : Member) : bool :=
  match a, b with
  | Own x, Own y => x <=? y
  | Inherited p, Inherited q => negb (String.ltb q p)
  | _, _ => false
  end.

(** [this.logLevel = process.env.LOG_LEVEL || 'info']. *)
Definition logLevelOf (LOG_LEVEL : option string) : string :=
  match LOG_LEVEL with
  | None | Some ""%string => "info"
  | Some l => l
  end.

(** [shouldLog(level)] of a logger whose [this.logLevel] is [logLevel]:
    [this.levels[level] <= this.levels[this.logLevel]]. *)
Definition shouldLog (logLevel level : string) : bool :=
  js_le (levels level) (levels logLevel).

(** ** Predicates of the further statements *)

(** The limiter calls the commands [events] make, in order. *)
Definition check_of (e : Event) : option Op :=
  match e with
  | Interaction commandName userId now =>
      if bool_decide (commandName ∈ commands)
         && negb (bool_decide (commandName ∈ ["help"; "models"; "stats"; "limits"]%string))
      then Some (CheckRateLimit userId now) else None
  | SlashCommand _ userId now => Some (CheckRateLimit userId now)
  end.

(** The instants at which the limiter let a command of [userId] through, in
    a log of commands and what handling them ended in. *)
Fixpoint granted (userId : string) (log : list (Event * Handled)) : list Z :=
  match log with
  | [] => []
  | (e, h) :: log' =>
      match check_of e, h with
      | Some (CheckRateLimit u now), (Invoked _ | UnknownCommand) =>
          if bool_decide (u = userId) then now :: granted userId log'
          else granted userId log'
      | _, _ => granted userId log'
      end
  end.

(** The same for all callers. *)
Fixpoint granted_all (log : list (Event * Handled)) : list Z :=
  match log with
  | [] => []
  | (e, h) :: log' =>
      match check_of e, h with
      | Some (CheckRateLimit _ now), (Invoked _ | UnknownCommand) => now :: granted_all log'
      | _, _ => granted_all log'
      end
  end.

(** ** Predicates of the rounding bound *)

(** What [shr_1] keeps while it shifts the integer [N] right, [k] bits so
    far: the mantissa is the quotient, the round bit the last bit shifted
    out, and the sticky bit is clear only when nothing else was. *)
Definition shr_inv (N k : Z) (mrs : shr_record) : Prop :=
  0 <= shr_m mrs
  /\ exists t,
       2 * N = shr_m mrs * 2 ^ (k + 1) + (if shr_r mrs then 2 ^ k else 0) + t
       /\ 0 <= t < 2 ^ k
       /\ (shr_s mrs = false -> t = 0).

(** The rational number of a positive finite binary64 value. *)
Definition finite_value (m : positive) (e : Z) : Q :=
  (inject_Z (Z.pos m) * Qpower 2 e)%Q.

(** The double the literal [0.1] denotes: [7205759403792794 * 2^-56], which
    is [1/10 + 1/(5 * 2^55)]. *)
Definition tenth : Q := 7205759403792794 # 72057594037927936.

(** What one decay step may differ by from [1/10] on a counter that is at
    most [V]: the rounding of the subtraction, at most [V * 2^-53], and the
    distance of the double [0.1] from [1/10]. *)
Definition rounding_allowance (V : Q) : Q :=
  (V * (1 # 9007199254740992) + (1 # 180143985094819840))%Q.



(** ** Predicates of the retry hints *)

(** The call [o] is neither a request of [userId] nor an administrative
    call on [userId]. *)
Definition keeps_away (userId : string) (o : Op) : Prop :=
  leaves_alone userId o /\ forall now, o <> CheckRateLimit userId now.

(** From the instant [b] on, the checks of [userId] read the same from the
    two limiters: the same tier quotas, the same history in every trailing
    hour, and the same bans among those not over at [b]. *)
Definition same_caller_view (userId : string) (b : Z) (s1 s2 : RateLimiter) : Prop :=
  minuteLimitOf s1 userId = minuteLimitOf s2 userId
  /\ hourLimitOf s1 userId = hourLimitOf s2 userId
  /\ (forall T, b <= T ->
        within T HOUR (requests_of s1 userId) = within T HOUR (requests_of s2 userId))
  /\ (forall banExpiry, b < banExpiry ->
        (tempBans s1 !! userId = Some banExpiry <-> tempBans s2 !! userId = Some banExpiry)).

(** * Properties *)

(** ** Binary64 arithmetic on the violation counter

    The facts below are read off the specification of the kernel's floats
    ([SpecFloat]): rounding keeps the sign of what it rounds and never
    produces [NaN]. *)

Module F.

Local Open Scope float_scope.

Lemma shr_1_nonneg mrs : (0 <= shr_m mrs)%Z -> (0 <= shr_m (shr_1 mrs))%Z.
Proof.
  destruct mrs as [m r s]; simpl.
  destruct m as [|p|p]; [| destruct p | lia]; simpl; lia.
Qed.

Lemma iter_shr_1_nonneg p : forall mrs,
  (0 <= shr_m mrs)%Z -> (0 <= shr_m (SpecFloat.iter_pos shr_1 p mrs))%Z.
Proof.
  induction p as [p IH|p IH|]; intros mrs H; simpl.
  - apply IH, IH, shr_1_nonneg, H.
  - apply IH, IH, H.
  - apply shr_1_nonneg, H.
Qed.

Lemma shr_fexp_nonneg prec emax m e l :
  (0 <= m)%Z -> (0 <= shr_m (fst (shr_fexp prec emax m e l)))%Z.
Proof.
  intros H. unfold shr_fexp, shr.
  assert (H0 : (0 <= shr_m (shr_record_of_loc m l))%Z).
  { destruct l as [|[]]; simpl; exact H. }
  destruct (fexp prec emax (Zdigits2 m + e) - e)%Z; simpl; try exact H0.
  apply iter_shr_1_nonneg, H0.
Qed.

Lemma round_nearest_even_nonneg m l :
  (0 <= m)%Z -> (0 <= round_nearest_even m l)%Z.
Proof.
  intros H. destruct l as [|[]]; simpl; try lia.
  destruct (IntDef.Z.even m); lia.
Qed.

Lemma binary_round_aux_signed prec emax sx mx ex lx :
  (0 <= mx)%Z -> signed sx (binary_round_aux prec emax sx mx ex lx).
Proof.
  intros H. unfold binary_round_aux.
  pose proof (shr_fexp_nonneg prec emax mx ex lx H) as H1.
  destruct (shr_fexp prec emax mx ex lx) as [mrs' e']; simpl in H1.
  pose proof (shr_fexp_nonneg prec emax _ e' loc_Exact
                (round_nearest_even_nonneg _ (loc_of_shr_record mrs') H1)) as H2.
  destruct (shr_fexp prec emax (round_nearest_even (shr_m mrs') (loc_of_shr_record mrs')) e' loc_Exact)
    as [mrs'' e'']; simpl in H2.
  destruct (shr_m mrs'') as [|m|m]; [constructor | | lia].
  destruct (e'' <=? emax - prec)%Z; constructor.
Qed.

Lemma binary_round_signed prec emax sx mx ex :
  signed sx (binary_round prec emax sx mx ex).
Proof.
  unfold binary_round.
  destruct (shl_align mx ex (fexp prec emax (Z.pos (digits2_pos mx) + ex))) as [mz ez].
  apply binary_round_aux_signed. lia.
Qed.

Lemma binary_normalize_not_nan prec emax m e szero :
  binary_normalize prec emax m e szero <> S754_nan.
Proof.
  destruct m as [|p|p]; simpl; [discriminate | |].
  - destruct (binary_round_signed prec emax false p e); discriminate.
  - destruct (binary_round_signed prec emax true p e); discriminate.
Qed.

Lemma SFleb_zero_signed x : signed false x -> SFleb (S754_zero false) x = true.
Proof. destruct 1; reflexivity. Qed.

(** Adding a positive number to a non-negative one. *)
Lemma SFadd_nonneg prec emax x my ey :
  SFleb (S754_zero false) x = true ->
  SFleb (S754_zero false) (SFadd prec emax x (S754_finite false my ey)) = true.
Proof.
  destruct x as [s|s| |s m e]; simpl; try reflexivity; try discriminate.
  - destruct s; [discriminate | reflexivity].
  - destruct s; [discriminate | intros _].
    apply SFleb_zero_signed. simpl.
    apply binary_round_signed.
Qed.

(** Subtracting a finite number from a number that is not [NaN]. *)
Lemma SFsub_not_nan prec emax x sy my ey :
  x <> S754_nan -> SFsub prec emax x (S754_finite sy my ey) <> S754_nan.
Proof.
  destruct x as [s|s| |s m e]; simpl; try discriminate; try congruence.
  intros _. apply binary_normalize_not_nan.
Qed.

Lemma SFcompare_refl x : x <> S754_nan -> SFcompare x x = Some Eq.
Proof.
  destruct x as [s|s| |s m e]; simpl; try congruence.
  - destruct s; reflexivity.
  - intros _. rewrite Z.compare_refl, Pos.compare_cont_refl. destruct s; reflexivity.
Qed.

Lemma is_nan_false x : Prim2SF x <> S754_nan -> is_nan x = false.
Proof.
  intros H. unfold is_nan. rewrite FloatAxioms.eqb_spec. unfold SFeqb.
  rewrite SFcompare_refl by exact H. reflexivity.
Qed.

Lemma nonneg_not_nan v : nonneg v -> Prim2SF v <> S754_nan.
Proof.
  unfold nonneg. rewrite leb_spec. intros H E. rewrite E in H.
  destruct (Prim2SF 0); discriminate.
Qed.

Lemma ltb_leb x y : (x <? y) = true -> (x <=? y) = true.
Proof.
  rewrite ltb_spec, leb_spec. unfold SFltb, SFleb.
  destruct (SFcompare (Prim2SF x) (Prim2SF y)) as [[]|]; congruence.
Qed.

Lemma Prim2SF_zero : Prim2SF 0 = S754_zero false.
Proof. reflexivity. Qed.

Lemma Prim2SF_one : Prim2SF 1 = S754_finite false 4503599627370496 (-52).
Proof. reflexivity. Qed.

Lemma Prim2SF_tenth : Prim2SF 0.1 = S754_finite false 7205759403792794 (-56).
Proof. reflexivity. Qed.

Lemma nonneg_zero : nonneg 0.
Proof. reflexivity. Qed.

Lemma nonneg_succ v : nonneg v -> nonneg (v + 1).
Proof.
  unfold nonneg. rewrite !leb_spec, add_spec, Prim2SF_zero, Prim2SF_one.
  apply SFadd_nonneg.
Qed.

Lemma or_zero_nonneg v : nonneg v -> nonneg (or_zero v).
Proof.
  intros H. unfold or_zero. destruct ((v =? 0) || is_nan v); [reflexivity | exact H].
Qed.

Lemma Math_max_zero_nonneg x : Prim2SF x <> S754_nan -> nonneg (Math_max 0 x).
Proof.
  intros H. unfold Math_max.
  rewrite (is_nan_false x H).
  change (is_nan 0) with false. simpl orb. cbv iota.
  destruct (0 <? x) eqn:E1; [apply ltb_leb, E1 |].
  destruct (x <? 0); [reflexivity |].
  change (is_zero 0 && negb (get_sign 0))%bool with true. reflexivity.
Qed.

Lemma nonneg_decay v : nonneg v -> nonneg (decay v).
Proof.
  intros H. unfold decay. destruct (0 <? v); [| exact H].
  apply Math_max_zero_nonneg. rewrite sub_spec, Prim2SF_tenth.
  apply SFsub_not_nan, nonneg_not_nan, H.
Qed.

Lemma Prim2SF_inj x y : Prim2SF x = Prim2SF y -> x = y.
Proof.
  intros H. rewrite <- (SF2Prim_Prim2SF x), <- (SF2Prim_Prim2SF y), H. reflexivity.
Qed.

Lemma eqb_zero_inv v : (v =? 0) = true -> exists s, Prim2SF v = S754_zero s.
Proof.
  rewrite FloatAxioms.eqb_spec, Prim2SF_zero. unfold SFeqb.
  destruct (Prim2SF v) as [s|s| |s m e]; simpl; try discriminate; eauto;
    destruct s; discriminate.
Qed.

(** [(v || 0) + 1] is [v + 1] on a counter that is not negative. *)
Lemma or_zero_succ v : nonneg v -> or_zero v + 1 = v + 1.
Proof.
  intros H. unfold or_zero.
  rewrite (is_nan_false v (nonneg_not_nan v H)), orb_false_r.
  destruct (v =? 0) eqn:E; [| reflexivity].
  destruct (eqb_zero_inv v E) as [s Hs].
  apply Prim2SF_inj. rewrite !add_spec, Hs, Prim2SF_zero, Prim2SF_one. reflexivity.
Qed.

(** A counter at or over the ban threshold is not [0], [-0] or [NaN]. *)
Lemma leb_three_not_zero v : (3 <=? v) = true -> (or_zero v =? 0) = false.
Proof.
  intros H.
  assert (Hs : exists m e, Prim2SF v = S754_finite false m e \/ Prim2SF v = S754_infinity false).
  { rewrite leb_spec in H. change (Prim2SF 3) with (S754_finite false 6755399441055744 (-51)) in H.
    unfold SFleb in H.
    destruct (Prim2SF v) as [s|s| |s m e]; simpl in H; try discriminate.
    - destruct s; [discriminate | exists 1%positive, 0%Z; auto].
    - destruct s; [discriminate | eauto]. }
  assert (E : (v =? 0) = false).
  { rewrite FloatAxioms.eqb_spec, Prim2SF_zero.
    destruct Hs as (m & e & [-> | ->]); reflexivity. }
  unfold or_zero. rewrite E, is_nan_false; [exact E |].
  destruct Hs as (m & e & [-> | ->]); discriminate.
Qed.

(** On a counter that is not [NaN], [(v || 0) === 0] is [v === 0]. *)
Lemma or_zero_eqb_zero v : nonneg v -> (or_zero v =? 0) = (v =? 0).
Proof.
  intros H. unfold or_zero.
  rewrite (is_nan_false v (nonneg_not_nan v H)), orb_false_r.
  destruct (v =? 0) eqn:E; [reflexivity | exact E].
Qed.

Lemma is_nan_inv v : is_nan v = true -> Prim2SF v = S754_nan.
Proof.
  unfold is_nan. rewrite FloatAxioms.eqb_spec. unfold SFeqb. intros H.
  destruct (Prim2SF v) as [s|s| |s m e] eqn:E; [| | reflexivity |];
    rewrite SFcompare_refl in H by discriminate; discriminate.
Qed.

(** A counter that is [0], [-0] or [NaN] is not [> 0]. *)
Lemma falsy_not_positive v : (v =? 0) || is_nan v = true -> (0 <? v) = false.
Proof.
  intros H. rewrite ltb_spec, Prim2SF_zero.
  apply orb_true_iff in H. destruct H as [H | H].
  - destruct (eqb_zero_inv v H) as [s ->]. reflexivity.
  - rewrite (is_nan_inv v H). reflexivity.
Qed.

Lemma or_zero_falsy v : (v =? 0) || is_nan v = true -> or_zero v = 0.
Proof. intros H. unfold or_zero. rewrite H. reflexivity. Qed.

Lemma or_zero_truthy v : (v =? 0) || is_nan v = false -> or_zero v = v.
Proof. intros H. unfold or_zero. rewrite H. reflexivity. Qed.

(** The decay reads the counter only as [violations || 0] does. *)
Lemma or_zero_decay v1 v2 :
  or_zero v1 = or_zero v2 -> or_zero (decay v1) = or_zero (decay v2).
Proof.
  intros H.
  destruct ((v1 =? 0) || is_nan v1) eqn:F1; destruct ((v2 =? 0) || is_nan v2) eqn:F2.
  - unfold decay. rewrite (falsy_not_positive _ F1), (falsy_not_positive _ F2).
    exact H.
  - rewrite (or_zero_falsy _ F1), (or_zero_truthy _ F2) in H. subst v2.
    discriminate F2.
  - rewrite (or_zero_truthy _ F1), (or_zero_falsy _ F2) in H. subst v1.
    discriminate F1.
  - rewrite (or_zero_truthy _ F1), (or_zero_truthy _ F2) in H. subst v2. reflexivity.
Qed.

Lemma or_zero_of_zero v : (or_zero v =? 0) = true -> or_zero v = 0.
Proof.
  intros H. destruct ((v =? 0) || is_nan v) eqn:F.
  - apply or_zero_falsy, F.
  - rewrite (or_zero_truthy _ F) in H. rewrite H in F. discriminate F.
Qed.

Lemma or_zero_idem v : or_zero (or_zero v) = or_zero v.
Proof.
  destruct ((v =? 0) || is_nan v) eqn:F.
  - rewrite (or_zero_falsy _ F). reflexivity.
  - rewrite (or_zero_truthy _ F). apply or_zero_truthy, F.
Qed.

End F.

(** ** Rounding to nearest in binary64 *)

Module Rounding.

Lemma digits2_pos_size p : digits2_pos p = Pos.size p.
Proof. induction p as [p IH | p IH |]; simpl; congruence. Qed.

Lemma digits2_pos_bounds p :
  2 ^ (Z.pos (digits2_pos p) - 1) <= Z.pos p < 2 ^ Z.pos (digits2_pos p).
Proof.
  rewrite digits2_pos_size. split.
  - pose proof (Pos.size_le p) as H.
    apply Pos2Z.pos_le_pos in H. rewrite Pos2Z.inj_pow in H.
    assert (E : 2 ^ Z.pos (Pos.size p) = 2 * 2 ^ (Z.pos (Pos.size p) - 1)).
    { rewrite <- Z.pow_succ_r by lia. f_equal. lia. }
    lia.
  - pose proof (Pos.size_gt p) as H.
    apply Pos2Z.pos_lt_pos in H. rewrite Pos2Z.inj_pow in H. exact H.
Qed.

Lemma digits2_pos_unique p d :
  2 ^ (d - 1) <= Z.pos p < 2 ^ d -> Z.pos (digits2_pos p) = d.
Proof.
  intros [Hl Hu]. pose proof (digits2_pos_bounds p) as [Hl' Hu'].
  set (d0 := Z.pos (digits2_pos p)) in *.
  assert (0 < d).
  { destruct (Z.lt_trichotomy d 0) as [H | [H | H]]; [| | exact H].
    - rewrite Z.pow_neg_r in Hu by exact H. lia.
    - subst d. simpl in Hu. lia. }
  destruct (Z.lt_trichotomy d0 d) as [H1 | [H1 | H1]]; [| exact H1 |].
  - assert (2 ^ d0 <= 2 ^ (d - 1)) by (apply Z.pow_le_mono_r; lia). lia.
  - assert (2 ^ d <= 2 ^ (d0 - 1)) by (apply Z.pow_le_mono_r; lia). lia.
Qed.

Lemma shr_1_inv N k mrs : 0 <= k -> shr_inv N k mrs -> shr_inv N (k + 1) (shr_1 mrs).
Proof.
  intros Hk (Hm & t & E & Ht & Hs).
  destruct mrs as [m r s]. simpl in Hm, E, Hs.
  assert (E1 : 2 ^ (k + 1) = 2 * 2 ^ k) by (rewrite Z.pow_add_r by lia; lia).
  assert (E2 : 2 ^ (k + 1 + 1) = 4 * 2 ^ k) by (rewrite !Z.pow_add_r by lia; lia).
  assert (HP : 0 < 2 ^ k) by (apply Z.pow_pos_nonneg; lia).
  rewrite E1 in E. unfold shr_inv. rewrite E2, E1.
  set (P := 2 ^ k) in *.
  assert (Hs' : r || s = false -> (if r then P else 0) + t = 0).
  { destruct r; simpl; [discriminate |]. intros H. rewrite (Hs H). reflexivity. }
  assert (Hb : 0 <= (if r then P else 0) + t < 2 * P) by (destruct r; lia).
  destruct m as [|[p|p|]|]; simpl; try lia;
    (split; [lia |]); exists ((if r then P else 0) + t);
    (split; [lia |]); (split; [lia | exact Hs']).
Qed.

Lemma iter_shr_1_inv N p : forall k mrs,
  0 <= k -> shr_inv N k mrs -> shr_inv N (k + Z.pos p) (SpecFloat.iter_pos shr_1 p mrs).
Proof.
  induction p as [p IH | p IH |]; intros k mrs Hk H; simpl.
  - replace (k + Z.pos p~1) with (k + 1 + Z.pos p + Z.pos p) by lia.
    apply IH; [lia |]. apply IH; [lia |]. apply shr_1_inv; assumption.
  - replace (k + Z.pos p~0) with (k + Z.pos p + Z.pos p) by lia.
    apply IH; [lia |]. apply IH; assumption.
  - apply shr_1_inv; assumption.
Qed.

Lemma round_nearest_even_inv N k mrs :
  0 < k -> shr_inv N k mrs ->
  let m := round_nearest_even (shr_m mrs) (loc_of_shr_record mrs) in
  shr_m mrs <= m <= shr_m mrs + 1
  /\ 2 * Z.abs (m * 2 ^ k - N) <= 2 ^ k
  /\ shr_m mrs * 2 ^ k <= N < (shr_m mrs + 1) * 2 ^ k.
Proof.
  intros Hk (Hm & t & E & Ht & Hs).
  destruct mrs as [m r s]. simpl in *.
  replace (k + 1) with (Z.succ k) in E by lia. rewrite Z.pow_succ_r in E by lia.
  assert (HP : 0 < 2 ^ k) by (apply Z.pow_pos_nonneg; lia).
  set (P := 2 ^ k) in *.
  assert (Hev : exists h, P = 2 * h).
  { exists (2 ^ (k - 1)). unfold P. replace k with (Z.succ (k - 1)) at 1 by lia.
    rewrite Z.pow_succ_r by lia. reflexivity. }
  destruct Hev as [h Hh].
  destruct r, s; simpl.
  - split; [lia |]. split; nia.
  - rewrite (Hs eq_refl) in *. destruct (Z.even m); (split; [lia |]); split; nia.
  - split; [lia |]. split; nia.
  - rewrite (Hs eq_refl) in *. split; [lia |]. split; nia.
Qed.

Lemma shr_fexp_noshift m e :
  Z.pos (digits2_pos m) <= 53 -> -1074 <= e ->
  shr_fexp 53 1024 (Z.pos m) e loc_Exact
  = ({| shr_m := Z.pos m; shr_r := false; shr_s := false |}, e).
Proof.
  intros Hd He. unfold shr_fexp, fexp, SpecFloat.emin. simpl Zdigits2.
  simpl shr_record_of_loc.
  destruct (Z.max (Z.pos (digits2_pos m) + e - 53) (3 - 1024 - 53) - e) eqn:E;
    [reflexivity | lia | reflexivity].
Qed.

Lemma shr_fexp_shift m e :
  53 < Z.pos (digits2_pos m) -> -1074 <= e ->
  shr_fexp 53 1024 (Z.pos m) e loc_Exact
  = (SpecFloat.iter_pos shr_1 (Z.to_pos (Z.pos (digits2_pos m) - 53))
       {| shr_m := Z.pos m; shr_r := false; shr_s := false |},
     e + (Z.pos (digits2_pos m) - 53)).
Proof.
  intros Hd He. unfold shr_fexp, fexp, SpecFloat.emin. simpl Zdigits2.
  simpl shr_record_of_loc.
  replace (Z.max (Z.pos (digits2_pos m) + e - 53) (3 - 1024 - 53) - e)
    with (Z.pos (digits2_pos m) - 53) by lia.
  destruct (Z.pos (digits2_pos m) - 53) eqn:E; [lia | reflexivity | lia].
Qed.

Lemma binary_round_aux_exact mz ez :
  -1074 <= ez ->
  exists m e,
    binary_round_aux 53 1024 false (Z.pos mz) ez loc_Exact
    = (if e <=? 971 then S754_finite false m e else S754_infinity false)
    /\ ez <= e
    /\ Z.pos m < 2 ^ 53
    /\ (ez < e -> 2 ^ 52 <= Z.pos m)
    /\ 2 * Z.abs (Z.pos m * 2 ^ (e - ez) - Z.pos mz) <= 2 ^ (e - ez)
    /\ (e = ez -> m = mz).
Proof.
  intros He. pose proof (digits2_pos_bounds mz) as [Hl Hu].
  unfold binary_round_aux.
  destruct (Z_le_gt_dec (Z.pos (digits2_pos mz)) 53) as [Hd | Hd].
  - rewrite (shr_fexp_noshift mz ez Hd He). cbn [shr_m loc_of_shr_record round_nearest_even].
    rewrite (shr_fexp_noshift mz ez Hd He). cbn [shr_m].
    exists mz, ez. split; [reflexivity |]. split; [lia |].
    split; [| split; [lia |]].
    + assert (2 ^ Z.pos (digits2_pos mz) <= 2 ^ 53) by (apply Z.pow_le_mono_r; lia). lia.
    + rewrite Z.sub_diag. simpl. split; [lia | reflexivity].
  - rewrite (shr_fexp_shift mz ez ltac:(lia) He).
    set (n := Z.pos (digits2_pos mz) - 53) in *.
    assert (Hn : 0 < n) by (unfold n; lia).
    set (mrs := SpecFloat.iter_pos shr_1 (Z.to_pos n)
                  {| shr_m := Z.pos mz; shr_r := false; shr_s := false |}).
    assert (Hinv : shr_inv (Z.pos mz) n mrs).
    { replace n with (0 + Z.pos (Z.to_pos n)) at 1 by lia.
      apply iter_shr_1_inv; [lia |].
      split; [simpl; lia |]. exists 0. simpl. split; [lia |]. split; [lia | reflexivity]. }
    destruct (round_nearest_even_inv _ _ _ Hn Hinv) as (Hm2 & Herr & Hfloor).
    cbv zeta in Hm2, Herr.
    set (m2 := round_nearest_even (shr_m mrs) (loc_of_shr_record mrs)) in *.
    assert (HP : 0 < 2 ^ n) by (apply Z.pow_pos_nonneg; lia).
    assert (E1 : 2 ^ (Z.pos (digits2_pos mz) - 1) = 2 ^ 52 * 2 ^ n).
    { rewrite <- Z.pow_add_r by lia. f_equal. unfold n. lia. }
    assert (E2 : 2 ^ Z.pos (digits2_pos mz) = 2 ^ 53 * 2 ^ n).
    { rewrite <- Z.pow_add_r by lia. f_equal. unfold n. lia. }
    rewrite E1 in Hl. rewrite E2 in Hu.
    assert (Hm1 : 2 ^ 52 <= shr_m mrs < 2 ^ 53) by (split; nia).
    assert (Hm2' : 2 ^ 52 <= m2 <= 2 ^ 53) by lia.
    destruct m2 as [|p2|p2] eqn:Em2; [lia | | lia].
    destruct (Z_lt_le_dec (Z.pos p2) (2 ^ 53)) as [Hlt | Hge].
    + assert (Hd2 : Z.pos (digits2_pos p2) = 53).
      { apply digits2_pos_unique. simpl Z.sub. lia. }
      rewrite (shr_fexp_noshift p2 (ez + n) ltac:(lia) ltac:(lia)). cbn [shr_m].
      exists p2, (ez + n). split; [reflexivity |]. split; [lia |]. split; [exact Hlt |].
      split; [lia |]. replace (ez + n - ez) with n by lia.
      split; [exact Herr | lia].
    + assert (Ep : p2 = 9007199254740992%positive) by lia. subst p2.
      rewrite (shr_fexp_shift 9007199254740992 (ez + n) ltac:(vm_compute; reflexivity) ltac:(lia)).
      change (shr_m (SpecFloat.iter_pos shr_1 (Z.to_pos (Z.pos (digits2_pos 9007199254740992) - 53))
                {| shr_m := 9007199254740992; shr_r := false; shr_s := false |}))
        with 4503599627370496.
      change (Z.pos (digits2_pos 9007199254740992) - 53) with 1.
      exists 4503599627370496%positive, (ez + n + 1).
      split; [reflexivity |]. split; [lia |]. split; [reflexivity |].
      split; [intros _; reflexivity |].
      replace (ez + n + 1 - ez) with (n + 1) by lia.
      rewrite Z.pow_add_r by lia. change (2 ^ 1) with 2.
      split; [| lia].
      change (Z.pos 4503599627370496 * (2 ^ n * 2)) with (4503599627370496 * (2 ^ n * 2)).
      change (Z.pos 9007199254740992) with 9007199254740992 in Herr.
      lia.
Qed.

Lemma iter_xO m d : Z.pos (Pos.iter xO m d) = Z.pos m * 2 ^ Z.pos d.
Proof.
  induction d as [|d IH] using Pos.peano_ind.
  - simpl. lia.
  - rewrite Pos.iter_succ, Pos2Z.inj_xO, IH, Pos2Z.inj_succ, Z.pow_succ_r by lia. lia.
Qed.

Lemma shl_align_spec mx ex ex' :
  snd (shl_align mx ex ex') = Z.min ex ex'
  /\ Z.pos (fst (shl_align mx ex ex')) = Z.pos mx * 2 ^ (ex - Z.min ex ex').
Proof.
  unfold shl_align. destruct (ex' - ex) as [|d|d] eqn:E; simpl.
  - replace (Z.min ex ex') with ex by lia. rewrite Z.sub_diag. simpl. lia.
  - replace (Z.min ex ex') with ex by lia. rewrite Z.sub_diag. simpl. lia.
  - replace (Z.min ex ex') with ex' by lia. replace (ex - ex') with (Z.pos d) by lia.
    split; [reflexivity | apply iter_xO].
Qed.

(** Rounding a positive integer [mx * 2^ex] to binary64: the result is
    [m * 2^e], within half a unit of its last place, exact when no bit is
    dropped, and with a full mantissa when one is. [ez] is the exponent the
    integer is aligned to first. *)
Lemma binary_round_exact mx ex :
  -1074 <= ex ->
  exists m e ez,
    binary_round 53 1024 false mx ex
    = (if e <=? 971 then S754_finite false m e else S754_infinity false)
    /\ -1074 <= ez <= ex
    /\ ez <= e
    /\ Z.pos m < 2 ^ 53
    /\ (ez < e -> 2 ^ 52 <= Z.pos m)
    /\ 2 * Z.abs (Z.pos m * 2 ^ (e - ez) - Z.pos mx * 2 ^ (ex - ez)) <= 2 ^ (e - ez).
Proof.
  intros He. unfold binary_round.
  destruct (shl_align_spec mx ex (fexp 53 1024 (Z.pos (digits2_pos mx) + ex))) as [E1 E2].
  destruct (shl_align mx ex (fexp 53 1024 (Z.pos (digits2_pos mx) + ex))) as [mz ez].
  simpl in E1, E2.
  assert (Hez : -1074 <= ez <= ex).
  { rewrite E1. unfold fexp, SpecFloat.emin. lia. }
  destruct (binary_round_aux_exact mz ez (proj1 Hez)) as (m & e & Er & H1 & H2 & H3 & H4 & _).
  exists m, e, ez. rewrite Er. rewrite <- E1 in E2. rewrite <- E2. auto 10.
Qed.

Lemma bounded_inv m e :
  SpecFloat.bounded 53 1024 m e = true -> -1074 <= e <= 971 /\ Z.pos m < 2 ^ 53.
Proof.
  unfold SpecFloat.bounded, canonical_mantissa, fexp, SpecFloat.emin.
  rewrite andb_true_iff, Z.eqb_eq, Z.leb_le. intros [Hc He].
  pose proof (digits2_pos_bounds m) as [_ Hu].
  assert (2 ^ Z.pos (digits2_pos m) <= 2 ^ 53) by (apply Z.pow_le_mono_r; lia).
  lia.
Qed.

(** The difference of two positive doubles, in integers scaled to a common
    exponent [b]: it is not positive, and so is the result; or it is
    positive and the result [m * 2^e] is a double not above the minuend and
    within [2^-53] of itself from the exact difference. *)
Lemma SFsub_positive mq eq mc ec :
  SpecFloat.bounded 53 1024 mq eq = true -> SpecFloat.bounded 53 1024 mc ec = true ->
  let r := SFsub 53 1024 (S754_finite false mq eq) (S754_finite false mc ec) in
  exists b,
    b <= eq /\ b <= ec
    /\ ((Z.pos mq * 2 ^ (eq - b) <= Z.pos mc * 2 ^ (ec - b)
         /\ (r = S754_zero false \/ signed true r))
        \/ exists m e,
             r = S754_finite false m e
             /\ b <= e
             /\ Z.pos mc * 2 ^ (ec - b) < Z.pos mq * 2 ^ (eq - b)
             /\ Z.pos m * 2 ^ (e - b) <= Z.pos mq * 2 ^ (eq - b)
             /\ 2 ^ 53 * Z.abs (Z.pos m * 2 ^ (e - b)
                                - (Z.pos mq * 2 ^ (eq - b) - Z.pos mc * 2 ^ (ec - b)))
                <= Z.pos m * 2 ^ (e - b)).
Proof.
  intros Hq Hc. apply bounded_inv in Hq, Hc. destruct Hq as [Heq Hmq], Hc as [Hec Hmc].
  cbv zeta. unfold SFsub. cbn [cond_Zopp].
  destruct (shl_align_spec mq eq (Z.min eq ec)) as [_ Eq].
  destruct (shl_align_spec mc ec (Z.min eq ec)) as [_ Ec].
  set (ez := Z.min eq ec) in *.
  replace (Z.min eq ez) with ez in Eq by (unfold ez; lia).
  replace (Z.min ec ez) with ez in Ec by (unfold ez; lia).
  rewrite Eq, Ec.
  set (Mq := Z.pos mq * 2 ^ (eq - ez)). set (Mc := Z.pos mc * 2 ^ (ec - ez)).
  destruct (Mq - Mc) as [|dz|dz] eqn:Ed; cbn [binary_normalize].
  - exists ez. split; [unfold ez; lia |]. split; [unfold ez; lia |].
    left. split; [fold Mq Mc; lia | left; reflexivity].
  - destruct (binary_round_exact dz ez ltac:(unfold ez; lia))
      as (m & e & b & Er & Hb & Hbe & Hm & Hfull & Herr).
    exists b. split; [unfold ez in Hb; lia |]. split; [unfold ez in Hb; lia |].
    right.
    assert (Aq : Z.pos mq * 2 ^ (eq - b) = Mq * 2 ^ (ez - b)).
    { unfold Mq. rewrite <- Z.mul_assoc, <- Z.pow_add_r by (unfold ez; lia).
      do 2 f_equal. lia. }
    assert (Ac : Z.pos mc * 2 ^ (ec - b) = Mc * 2 ^ (ez - b)).
    { unfold Mc. rewrite <- Z.mul_assoc, <- Z.pow_add_r by (unfold ez; lia).
      do 2 f_equal. lia. }
    assert (HJ : 0 < 2 ^ (ez - b)) by (apply Z.pow_pos_nonneg; lia).
    assert (HK : 0 < 2 ^ (e - b)) by (apply Z.pow_pos_nonneg; lia).
    assert (HA : 0 < 2 ^ (eq - b)) by (apply Z.pow_pos_nonneg; lia).
    assert (HC : 0 < Z.pos mc * 2 ^ (ec - b)).
    { apply Z.mul_pos_pos; [lia | apply Z.pow_pos_nonneg; lia]. }
    assert (Hd : Z.pos dz * 2 ^ (ez - b)
                 = Z.pos mq * 2 ^ (eq - b) - Z.pos mc * 2 ^ (ec - b)).
    { rewrite Aq, Ac, <- Ed. ring. }
    rewrite Hd in Herr. clear Aq Ac Hd.
    set (Qs := Z.pos mq * 2 ^ (eq - b)) in *.
    set (Cs := Z.pos mc * 2 ^ (ec - b)) in *.
    assert (Hpos : Cs < Qs).
    { unfold Qs, Cs. assert (0 < Mq - Mc) by lia.
      assert (Mc * 2 ^ (ez - b) < Mq * 2 ^ (ez - b)) by nia.
      unfold Mq, Mc in H0.
      rewrite <- !Z.mul_assoc, <- !Z.pow_add_r in H0 by (unfold ez; lia).
      replace (eq - ez + (ez - b)) with (eq - b) in H0 by lia.
      replace (ec - ez + (ez - b)) with (ec - b) in H0 by lia. exact H0. }
    assert (Hle : e <= eq).
    { destruct (Z_le_gt_dec e eq) as [H | H]; [exact H | exfalso].
      assert (E : 2 ^ (e - b) = 2 ^ (e - eq) * 2 ^ (eq - b)).
      { rewrite <- Z.pow_add_r by lia. f_equal. lia. }
      assert (2 <= 2 ^ (e - eq)).
      { change 2 with (2 ^ 1) at 1. apply Z.pow_le_mono_r; lia. }
      specialize (Hfull ltac:(lia)).
      unfold Qs in *. nia. }
    assert (E : 2 ^ (eq - b) = 2 ^ (eq - e) * 2 ^ (e - b)).
    { rewrite <- Z.pow_add_r by lia. f_equal. lia. }
    assert (HJ' : 0 < 2 ^ (eq - e)) by (apply Z.pow_pos_nonneg; lia).
    assert (Hrq : Z.pos m * 2 ^ (e - b) <= Qs).
    { unfold Qs in *. rewrite E in *.
      destruct (Z_le_gt_dec (Z.pos m) (Z.pos mq * 2 ^ (eq - e))) as [H | H].
      - apply (Z.mul_le_mono_nonneg_r _ _ (2 ^ (e - b))) in H; lia.
      - exfalso.
        assert (H' : (Z.pos mq * 2 ^ (eq - e) + 1) * 2 ^ (e - b) <= Z.pos m * 2 ^ (e - b))
          by (apply Z.mul_le_mono_nonneg_r; lia).
        lia. }
    assert (Hrel : 2 ^ 53 * Z.abs (Z.pos m * 2 ^ (e - b) - (Qs - Cs)) <= Z.pos m * 2 ^ (e - b)).
    { destruct (Z.eq_dec e b) as [-> | Hne].
      - rewrite Z.sub_diag in *. simpl (2 ^ 0) in *. lia.
      - specialize (Hfull ltac:(lia)).
        assert (Ek : 2 ^ (e - b) = 2 * 2 ^ (e - b - 1)).
        { rewrite <- Z.pow_succ_r by lia. f_equal. lia. }
        assert (0 < 2 ^ (e - b - 1)) by (apply Z.pow_pos_nonneg; lia).
        rewrite Ek in *. nia. }
    exists m, e.
    assert (Hfin : (e <=? 971) = true) by (apply Z.leb_le; lia).
    rewrite Hfin in Er. auto 10.
  - exists ez. split; [unfold ez; lia |]. split; [unfold ez; lia |].
    left. split; [fold Mq Mc; lia | right; apply F.binary_round_signed].
Qed.

Lemma scaled_value M k b :
  0 <= k -> (inject_Z (M * 2 ^ k) * Qpower 2 b == inject_Z M * Qpower 2 (k + b))%Q.
Proof.
  intros Hk. rewrite inject_Z_mult, Zpower_Qpower by exact Hk.
  rewrite Qpower_plus by discriminate. change (inject_Z 2) with 2%Q. ring.
Qed.

Lemma scaled_finite_value m e b :
  b <= e -> (finite_value m e == inject_Z (Z.pos m * 2 ^ (e - b)) * Qpower 2 b)%Q.
Proof.
  intros H. unfold finite_value. rewrite scaled_value by lia.
  replace (e - b + b) with e by lia. reflexivity.
Qed.

Lemma finite_value_pos m e : (0 < finite_value m e)%Q.
Proof.
  unfold finite_value. apply Qmult_lt_0_compat.
  - change 0%Q with (inject_Z 0). rewrite <- Zlt_Qlt. lia.
  - apply Qpower_0_lt. reflexivity.
Qed.

Lemma tenth_value : (finite_value 7205759403792794 (-56) == tenth)%Q.
Proof. reflexivity. Qed.

Lemma Math_max_zero_of_nonpositive x :
  Prim2SF x = S754_zero false \/ signed true (Prim2SF x) -> Math_max 0 x = 0%float.
Proof.
  intros H. unfold Math_max.
  assert (Hn : Prim2SF x <> S754_nan).
  { destruct H as [-> | H]; [discriminate |]. destruct H; discriminate. }
  rewrite (F.is_nan_false x Hn). change (is_nan 0) with false. cbn [orb].
  assert (E : (0 <? x)%float = false).
  { rewrite ltb_spec, F.Prim2SF_zero. destruct H as [-> | H]; [reflexivity |].
    destruct H; reflexivity. }
  rewrite E. destruct (x <? 0)%float; [reflexivity |].
  change (is_zero 0 && negb (get_sign 0))%bool with true. reflexivity.
Qed.

Lemma Math_max_zero_of_positive x m e :
  Prim2SF x = S754_finite false m e -> Math_max 0 x = x.
Proof.
  intros H. unfold Math_max.
  rewrite (F.is_nan_false x) by (rewrite H; discriminate).
  change (is_nan 0) with false. cbn [orb].
  assert (E : (0 <? x)%float = true) by (rewrite ltb_spec, F.Prim2SF_zero, H; reflexivity).
  rewrite E. reflexivity.
Qed.

(** One decay of a positive counter [q]: what is left is not negative and
    not above [q]; it is within [q * 2^-53] of [q - tenth], or it is [0],
    and then [q - tenth] is not positive. *)
Lemma decay_positive v mq eq :
  Prim2SF v = S754_finite false mq eq ->
  let q := finite_value mq eq in
  exists q',
    float_value (decay v) = Some q'
    /\ (0 <= q')%Q /\ (q' <= q)%Q
    /\ (q - tenth - q * (1 # 9007199254740992) <= q')%Q
    /\ ((q' == 0)%Q \/ (q' <= q - tenth + q * (1 # 9007199254740992))%Q).
Proof.
  intros Hv q.
  assert (Hpos : (0 <? v)%float = true) by (rewrite ltb_spec, F.Prim2SF_zero, Hv; reflexivity).
  unfold decay. rewrite Hpos.
  pose proof (Prim2SF_valid v) as Hvalid. rewrite Hv in Hvalid. simpl in Hvalid.
  assert (Hq0 : (0 < q)%Q) by apply finite_value_pos.
  pose proof (sub_spec v 0.1) as Hsub.
  rewrite Hv, F.Prim2SF_tenth in Hsub. unfold SF64sub, FloatOps.prec, FloatOps.emax in Hsub.
  destruct (SFsub_positive mq eq 7205759403792794 (-56) Hvalid eq_refl)
    as (b & Hbq & Hbc & [[Hle Hr] | (m & e & Hr & Hbe & Hlt & Hrq & Herr)]).
  - rewrite <- Hsub in Hr. rewrite (Math_max_zero_of_nonpositive _ Hr).
    exists 0%Q. split; [reflexivity |].
    assert (Hqc : (q <= tenth)%Q).
    { unfold q. rewrite <- tenth_value.
      rewrite (scaled_finite_value mq eq b Hbq), (scaled_finite_value _ (-56) b Hbc).
      apply Qmult_le_compat_r; [rewrite <- Zle_Qle; exact Hle |].
      apply Qlt_le_weak, Qpower_0_lt. reflexivity. }
    split; [lra |]. split; [lra |]. split; [lra | left; reflexivity].
  - rewrite <- Hsub in Hr. rewrite (Math_max_zero_of_positive _ m e Hr).
    exists (finite_value m e). split.
    { unfold float_value. rewrite Hr. reflexivity. }
    pose proof (finite_value_pos m e) as Hr0.
    assert (HS : (0 < Qpower 2 b)%Q) by (apply Qpower_0_lt; reflexivity).
    pose proof (scaled_finite_value mq eq b Hbq) as Eq.
    pose proof (scaled_finite_value 7205759403792794 (-56) b Hbc) as Ec.
    pose proof (scaled_finite_value m e b Hbe) as Er.
    rewrite tenth_value in Ec. fold q in Eq.
    set (Qs := Z.pos mq * 2 ^ (eq - b)) in *.
    set (Cs := Z.pos 7205759403792794 * 2 ^ (-56 - b)) in *.
    set (Rs := Z.pos m * 2 ^ (e - b)) in *.
    assert (H1 : (inject_Z Rs <= inject_Z Qs)%Q) by (rewrite <- Zle_Qle; exact Hrq).
    assert (H2 : (9007199254740992 * (inject_Z Rs - (inject_Z Qs - inject_Z Cs))
                  <= inject_Z Rs)%Q).
    { assert (Hz : 2 ^ 53 * (Rs + - (Qs + - Cs)) <= Rs) by lia.
      rewrite Zle_Qle, inject_Z_mult, !inject_Z_plus, !inject_Z_opp, inject_Z_plus,
        inject_Z_opp in Hz.
      change (inject_Z (2 ^ 53)) with 9007199254740992%Q in Hz. lra. }
    assert (H3 : (9007199254740992 * ((inject_Z Qs - inject_Z Cs) - inject_Z Rs)
                  <= inject_Z Rs)%Q).
    { assert (Hz : 2 ^ 53 * ((Qs + - Cs) + - Rs) <= Rs) by lia.
      rewrite Zle_Qle, inject_Z_mult, !inject_Z_plus, !inject_Z_opp in Hz.
      change (inject_Z (2 ^ 53)) with 9007199254740992%Q in Hz. lra. }
    set (r := finite_value m e) in *.
    set (S := Qpower 2 b) in *.
    set (x := inject_Z Qs) in *. set (y := inject_Z Cs) in *. set (z := inject_Z Rs) in *.
    assert (Hrq' : (r <= q)%Q) by (rewrite Er, Eq; nra).
    split; [lra |]. split; [exact Hrq' |].
    assert (H4 : (9007199254740992 * (r - (q - tenth)) <= r)%Q) by (rewrite Er, Eq, Ec; nra).
    assert (H5 : (9007199254740992 * ((q - tenth) - r) <= r)%Q) by (rewrite Er, Eq, Ec; nra).
    split; [lra | right; lra].
Qed.

Lemma decay_zero v s : Prim2SF v = S754_zero s -> decay v = v.
Proof.
  intros H. unfold decay.
  assert (E : (0 <? v)%float = false) by (rewrite ltb_spec, F.Prim2SF_zero, H; reflexivity).
  rewrite E. reflexivity.
Qed.

Lemma nonneg_iter_decay N v : nonneg v -> nonneg (Nat.iter N decay v).
Proof. intros H. induction N as [|N IH]; [exact H | apply F.nonneg_decay, IH]. Qed.

(** [N] decays of a counter [V]: what is left is between [0] and [V], not
    less than [V - N * (tenth + V * 2^-53)], and it is [0] or not more than
    [V - N * (tenth - V * 2^-53)]. *)
Lemma iter_decay_value N v V :
  nonneg v -> float_value v = Some V ->
  exists V',
    float_value (Nat.iter N decay v) = Some V'
    /\ (0 <= V')%Q /\ (V' <= V)%Q
    /\ (V - inject_Z (Z.of_nat N) * (tenth + V * (1 # 9007199254740992)) <= V')%Q
    /\ ((V' == 0)%Q
        \/ (V' <= V - inject_Z (Z.of_nat N) * (tenth - V * (1 # 9007199254740992)))%Q).
Proof.
  intros Hn Hv.
  assert (HV : (0 <= V)%Q).
  { unfold float_value in Hv. unfold nonneg in Hn. rewrite leb_spec, F.Prim2SF_zero in Hn.
    destruct (Prim2SF v) as [s | s | | s m e]; try discriminate.
    - injection Hv as <-. lra.
    - destruct s; [discriminate |]. injection Hv as <-.
      apply Qlt_le_weak, (finite_value_pos m e). }
  assert (Ht : (0 < tenth)%Q) by reflexivity.
  induction N as [|N IH].
  - exists V. split; [exact Hv |]. change (inject_Z (Z.of_nat 0)) with 0%Q.
    split; [exact HV |]. split; [lra |]. split; [lra | right; lra].
  - destruct IH as (V1 & Hv1 & H0 & H1 & Hlo & Hhi).
    assert (EN : (inject_Z (Z.of_nat (S N)) == inject_Z (Z.of_nat N) + 1)%Q).
    { rewrite Nat2Z.inj_succ. unfold Z.succ. rewrite inject_Z_plus. reflexivity. }
    assert (HN : (0 <= inject_Z (Z.of_nat N))%Q).
    { change 0%Q with (inject_Z 0). rewrite <- Zle_Qle. lia. }
    set (n := inject_Z (Z.of_nat N)) in *.
    pose proof (nonneg_iter_decay N v Hn) as Hn1.
    change (Nat.iter (S N) decay v) with (decay (Nat.iter N decay v)).
    set (v1 := Nat.iter N decay v) in *.
    unfold float_value in Hv1. unfold nonneg in Hn1.
    rewrite leb_spec, F.Prim2SF_zero in Hn1.
    destruct (Prim2SF v1) as [s | s | | s m e] eqn:E1; try discriminate.
    + injection Hv1 as <-. rewrite (decay_zero v1 s E1).
      exists 0%Q. split; [unfold float_value; rewrite E1; reflexivity |].
      split; [lra |]. split; [lra |]. split; [| left; reflexivity].
      rewrite EN. nra.
    + destruct s; [discriminate |]. injection Hv1 as <-.
      destruct (decay_positive v1 m e E1) as (V2 & Hv2 & G0 & G1 & Glo & Ghi).
      cbv zeta in G1, Glo, Ghi. cbn [cond_Zopp] in *.
      change (inject_Z (Z.pos m) * Qpower 2 e)%Q with (finite_value m e) in *.
      set (q := finite_value m e) in *.
      exists V2. split; [exact Hv2 |]. split; [exact G0 |]. split; [lra |].
      rewrite EN. split; [nra |].
      destruct Ghi as [Gz | Ghi]; [left; exact Gz |].
      destruct Hhi as [Hz | Hhi]; [left; lra | right; nra].
Qed.

End Rounding.

(** ** One call of [checkRateLimit] *)

Lemma within_within now w1 w2 l :
  w1 <= w2 -> within now w1 (within now w2 l) = within now w1 l.
Proof.
  intros Hw. unfold within. induction l as [|t l IH]; simpl; [reflexivity |].
  destruct (now - t <? w2) eqn:E2; simpl.
  - rewrite IH. reflexivity.
  - rewrite IH. destruct (now - t <? w1) eqn:E1; [lia | reflexivity].
Qed.

Lemma within_minute_hour now l :
  within now MINUTE (within now HOUR l) = within now MINUTE l.
Proof. apply within_within. unfold MINUTE, HOUR. lia. Qed.

Lemma ceil_div_1000_spec a :
  1000 * (ceil_div_1000 a - 1) < a <= 1000 * ceil_div_1000 a.
Proof.
  unfold ceil_div_1000.
  pose proof (Z.div_mod (- a) 1000 ltac:(lia)) as H.
  pose proof (Z.mod_pos_bound (- a) 1000 ltac:(lia)) as H'.
  lia.
Qed.

Lemma checkUserLimit_userLimits userId now s :
  exists v,
    userLimits (snd (checkUserLimit userId now s))
    = <[userId := {| requests := within now HOUR (requests (userDataOf s userId));
                     violations := v |}]> (userLimits s).
Proof.
  unfold checkUserLimit.
  repeat match goal with |- context [if ?b then _ else _] => destruct b end;
    simpl; eexists; reflexivity.
Qed.

Lemma checkQuotas_total userId now s :
  exists r s', checkQuotas userId now s = Some (r, s').
Proof.
  unfold checkQuotas.
  destruct (checkUserLimit_userLimits userId now s) as [v Hv].
  destruct (checkUserLimit userId now s) as [userCheck s1]; simpl in Hv.
  destruct (allowed userCheck); simpl; [| eauto].
  assert (Hu : userLimits (snd (checkGlobalLimit now s1)) = userLimits s1
               /\ is_Some (globalLimits (snd (checkGlobalLimit now s1)) !! "global"%string)).
  { unfold checkGlobalLimit.
    repeat match goal with |- context [if ?b then _ else _] => destruct b end;
      simpl; (split; [reflexivity | rewrite lookup_insert_eq; eauto]). }
  destruct (checkGlobalLimit now s1) as [globalCheck s2]; simpl in Hu.
  destruct Hu as [Hu [g Hg]].
  destruct (allowed globalCheck); simpl; [| eauto].
  unfold recordRequest. rewrite Hu, Hv, lookup_insert_eq. simpl.
  unfold recordGlobalRequest. simpl. rewrite Hg. simpl. eauto.
Qed.

(** [checkRateLimit] throws on no input. *)
Lemma checkRateLimit_total userId now s :
  exists r s', checkRateLimit userId now s = Some (r, s').
Proof.
  unfold checkRateLimit.
  destruct (tempBans s !! userId) as [banExpiry|]; [| apply checkQuotas_total].
  destruct (now <? banExpiry); [eauto | apply checkQuotas_total].
Qed.

Lemma checkQuotas_outcome userId now s r s' :
  checkQuotas userId now s = Some (r, s') -> quota_outcome userId now s r s'.
Proof.
  unfold checkQuotas, checkUserLimit.
  fold (requests_of s userId). fold (violations_of s userId).
  destruct (Z.geb_spec (Z.of_nat (length (within now MINUTE (within now HOUR (requests_of s userId)))))
              (minuteLimitOf s userId)) as [Hm|Hm].
  { destruct (3 <=? or_zero (violations_of s userId) + 1)%float eqn:Hv; simpl;
      intros [= <- <-]; [apply out_ban_applied | apply out_minute_limit]; assumption. }
  destruct (Z.geb_spec (Z.of_nat (length (within now HOUR (requests_of s userId))))
              (hourLimitOf s userId)) as [Hh|Hh].
  { simpl. intros [= <- <-]. apply out_hour_limit; assumption. }
  simpl. unfold checkGlobalLimit. simpl. fold (global_of s).
  change (global_requests (globalDataOf (with_userLimits ?m s))) with (global_of s).
  destruct (Z.geb_spec (Z.of_nat (length (within now MINUTE (within now HOUR (global_of s)))))
              (globalRequestsPerMinute (config s))) as [Hgm|Hgm].
  { simpl. intros [= <- <-]. apply out_global_minute_limit; assumption. }
  destruct (Z.geb_spec (Z.of_nat (length (within now HOUR (global_of s))))
              (globalRequestsPerHour (config s))) as [Hgh|Hgh].
  { simpl. intros [= <- <-]. apply out_global_hour_limit; assumption. }
  simpl. unfold recordRequest. simpl. rewrite lookup_insert_eq. simpl.
  unfold recordGlobalRequest. simpl. rewrite lookup_insert_eq. simpl.
  intros [= <- <-]. unfold with_globalLimits, with_userLimits. simpl.
  rewrite !insert_insert_eq.
  apply out_allowed; assumption.
Qed.

Lemma checkRateLimit_outcome userId now s r s' :
  checkRateLimit userId now s = Some (r, s') -> check_outcome userId now s r s'.
Proof.
  unfold checkRateLimit.
  destruct (tempBans s !! userId) as [banExpiry|] eqn:Hb.
  - destruct (Z.ltb_spec now banExpiry) as [Hlt|Hge].
    + intros [= <- <-]. eapply out_temp_ban; eassumption.
    + intros H. eapply out_expired; [eassumption | assumption |].
      apply checkQuotas_outcome, H.
  - intros H. apply out_no_ban; [assumption |]. apply checkQuotas_outcome, H.
Qed.

Lemma quota_outcome_not_temp_ban userId now s r s' :
  quota_outcome userId now s r s' -> reason r <> Some temp_ban.
Proof. destruct 1; discriminate. Qed.

Lemma quota_outcome_ban_record userId now s r s' :
  quota_outcome userId now s r s' ->
  tempBans s' !! userId = tempBans s !! userId
  \/ reason r = Some temp_ban_applied
     /\ tempBans s' !! userId = Some (now + tempBanDuration (config s)).
Proof.
  destruct 1; simpl; auto.
  right. split; [reflexivity | apply lookup_insert_eq].
Qed.

(** C3. A caller with a ban record whose expiry is after [now] is denied
    with reason [temp_ban] and [retryAfter] the least number of whole seconds
    that covers [expiry - now], whatever the quota state, and nothing is
    changed. When [now >= expiry] the call is the quota checks on the limiter
    with the record deleted, which is also what [checkRateLimit] does on
    that limiter; it is never answered [temp_ban], and afterwards the caller
    has no ban record unless this very call applied a new ban. *)
Theorem temp_ban_check userId now s banExpiry :
  tempBans s !! userId = Some banExpiry ->
  (now < banExpiry ->
   exists k,
     checkRateLimit userId now s = Some (denied temp_ban (IntNum k) None, s)
     /\ 1000 * (k - 1) < banExpiry - now <= 1000 * k)
  /\ (banExpiry <= now ->
      let cleared := with_tempBans (delete userId (tempBans s)) s in
      checkRateLimit userId now s = checkQuotas userId now cleared
      /\ checkRateLimit userId now s = checkRateLimit userId now cleared
      /\ exists r s',
           checkRateLimit userId now s = Some (r, s')
           /\ reason r <> Some temp_ban
           /\ (tempBans s' !! userId = None
               \/ reason r = Some temp_ban_applied
                  /\ tempBans s' !! userId = Some (now + tempBanDuration (config s)))).
Proof.
  intros Hb. split.
  - intros Hlt. exists (ceil_div_1000 (banExpiry - now)). split.
    + unfold checkRateLimit. rewrite Hb.
      destruct (Z.ltb_spec now banExpiry); [reflexivity | lia].
    + apply ceil_div_1000_spec.
  - intros Hge cleared.
    assert (E : checkRateLimit userId now s = checkQuotas userId now cleared).
    { unfold checkRateLimit. rewrite Hb.
      destruct (Z.ltb_spec now banExpiry); [lia | reflexivity]. }
    split; [exact E |]. split.
    + rewrite E. unfold checkRateLimit at 1. subst cleared. simpl.
      rewrite lookup_delete_eq. reflexivity.
    + destruct (checkQuotas_total userId now cleared) as (r & s' & Hq).
      exists r, s'. rewrite E. split; [exact Hq |].
      apply checkQuotas_outcome in Hq. split.
      * eapply quota_outcome_not_temp_ban, Hq.
      * destruct (quota_outcome_ban_record _ _ _ _ _ Hq) as [H|H]; [left | right; exact H].
        rewrite H. subst cleared. simpl. apply lookup_delete_eq.
Qed.

Lemma temp_ban_check_witness :
  let s := with_tempBans {[ "u"%string := 7500 ]} (newRateLimiter defaultConfig ∅) in
  tempBans s !! "u"%string = Some 7500
  /\ checkRateLimit "u" 5000 s = Some (denied temp_ban (IntNum 3) None, s)
  /\ checkRateLimit "u" 7500 s
     = checkQuotas "u" 7500 (with_tempBans (delete "u"%string (tempBans s)) s).
Proof.
  intros s.
  assert (Hb : tempBans s !! "u"%string = Some 7500) by reflexivity.
  destruct (temp_ban_check "u" 5000 s 7500 Hb) as [H1 _].
  destruct (temp_ban_check "u" 7500 s 7500 Hb) as [_ H2].
  split; [exact Hb |]. split.
  - destruct (H1 ltac:(lia)) as (k & Hk & Hr).
    assert (k = 3) by lia. subst k. exact Hk.
  - exact (proj1 (H2 ltac:(lia))).
Defined.

(** C2, as the code has it. An [Allowed] result of [checkRateLimit] carries
    no [remaining] figures: the object returned is a bare [{ allowed: true }].
    The figures, tier quotas minus the counts of the trailing minute and hour
    before the request is recorded, are in the result of the per-caller check
    [checkUserLimit], which [checkRateLimit] drops. *)
Theorem allowed_result_is_bare userId now s r s' :
  checkRateLimit userId now s = Some (r, s') ->
  allowed r = true ->
  r = {| allowed := true; reason := None; retryAfter := None; remaining := None |}
  /\ fst (checkUserLimit userId now s)
     = {| allowed := true; reason := None; retryAfter := None;
          remaining :=
            Some {| minute := minuteLimitOf s userId
                              - Z.of_nat (length (within now MINUTE (requests_of s userId)));
                    hour := hourLimitOf s userId
                            - Z.of_nat (length (within now HOUR (requests_of s userId))) |} |}.
Proof.
  intros H Ha. apply checkRateLimit_outcome in H.
  assert (Hq : exists s0, quota_outcome userId now s0 r s'
                 /\ userLimits s0 = userLimits s /\ config s0 = config s
                 /\ premiumUsers s0 = premiumUsers s).
  { destruct H as [e He Hlt | e r s' He Hge Hq | r s' Hn Hq]; [discriminate | |];
      eexists; (split; [exact Hq |]); repeat split. }
  destruct Hq as (s0 & Hq & Hu & Hc & Hp).
  assert (Hreq : requests_of s0 userId = requests_of s userId).
  { unfold requests_of, userDataOf. rewrite Hu. reflexivity. }
  assert (Hml : minuteLimitOf s0 userId = minuteLimitOf s userId).
  { unfold minuteLimitOf. rewrite Hc, Hp. reflexivity. }
  assert (Hhl : hourLimitOf s0 userId = hourLimitOf s userId).
  { unfold hourLimitOf. rewrite Hc, Hp. reflexivity. }
  destruct Hq as [? ? Hm Hv | ? ? Hm Hv | ? Hm Hh | ? ? Hm Hh Hg | ? ? Hm Hh Hg Hg' | reqs greqs Hm Hh Hg Hg'];
    try discriminate.
  split; [reflexivity |].
  subst reqs. rewrite Hreq, within_minute_hour, Hml in Hm. rewrite Hreq, Hhl in Hh.
  unfold checkUserLimit. fold (requests_of s userId). rewrite within_minute_hour.
  destruct (Z.geb_spec (Z.of_nat (length (within now MINUTE (requests_of s userId))))
              (minuteLimitOf s userId)); [lia |].
  destruct (Z.geb_spec (Z.of_nat (length (within now HOUR (requests_of s userId))))
              (hourLimitOf s userId)); [lia |].
  reflexivity.
Qed.

Lemma allowed_result_is_bare_witness :
  exists r s',
    checkRateLimit "u" 1000 (newRateLimiter defaultConfig ∅) = Some (r, s')
    /\ allowed r = true
    /\ remaining r = None
    /\ remaining (fst (checkUserLimit "u" 1000 (newRateLimiter defaultConfig ∅)))
       = Some {| minute := 10; hour := 50 |}.
Proof.
  destruct (checkRateLimit "u" 1000 (newRateLimiter defaultConfig ∅)) as [[r s']|] eqn:E;
    [| vm_compute in E; discriminate E].
  assert (Ha : allowed r = true) by (injection E as <- _; reflexivity).
  destruct (allowed_result_is_bare "u" 1000 _ r s' E Ha) as [Hr Hu].
  exists r, s'. split; [reflexivity |]. split; [exact Ha |]. split.
  - rewrite Hr. reflexivity.
  - rewrite Hu. reflexivity.
Defined.

(** C2 as the specification states it fails: the first request of a caller
    is admitted, and the result has no [remaining] property where the claim
    has [{ minute: 10 - 0, hour: 50 - 0 }]. *)
Lemma allowed_result_lacks_remaining :
  exists r s',
    checkRateLimit "u" 1000 (newRateLimiter defaultConfig ∅) = Some (r, s')
    /\ allowed r = true
    /\ remaining r = None
    /\ remaining r <> Some {| minute := 10 - 0; hour := 50 - 0 |}.
Proof.
  eexists _, _. split; [reflexivity |]. simpl.
  split; [reflexivity |]. split; [reflexivity | discriminate].
Qed.

Lemma no_active_ban_outcome userId now s r s' :
  no_active_ban s userId now ->
  checkRateLimit userId now s = Some (r, s') ->
  exists s0,
    quota_outcome userId now s0 r s'
    /\ userLimits s0 = userLimits s /\ globalLimits s0 = globalLimits s
    /\ config s0 = config s /\ premiumUsers s0 = premiumUsers s
    /\ tempBans s0 = delete userId (tempBans s).
Proof.
  intros Hn H. apply checkRateLimit_outcome in H.
  destruct H as [e He Hlt | e r s' He Hge Hq | r s' He Hq].
  - specialize (Hn e He). lia.
  - eexists. split; [exact Hq |]. simpl. auto.
  - exists s. split; [exact Hq |]. rewrite delete_id by exact He. auto.
Qed.

Lemma state_views_eq s0 s userId :
  userLimits s0 = userLimits s -> globalLimits s0 = globalLimits s ->
  config s0 = config s -> premiumUsers s0 = premiumUsers s ->
  requests_of s0 userId = requests_of s userId
  /\ violations_of s0 userId = violations_of s userId
  /\ global_of s0 = global_of s
  /\ minuteLimitOf s0 userId = minuteLimitOf s userId
  /\ hourLimitOf s0 userId = hourLimitOf s userId.
Proof.
  intros Hu Hg Hc Hp.
  unfold requests_of, violations_of, global_of, userDataOf, globalDataOf,
    minuteLimitOf, hourLimitOf.
  rewrite Hu, Hg, Hc, Hp. auto.
Qed.

Lemma requests_of_insert userId d m s :
  userLimits s = <[userId := d]> m -> requests_of s userId = requests d.
Proof. intros H. unfold requests_of, userDataOf. rewrite H, lookup_insert_eq. reflexivity. Qed.

Lemma violations_of_insert userId d m s :
  userLimits s = <[userId := d]> m -> violations_of s userId = violations d.
Proof. intros H. unfold violations_of, userDataOf. rewrite H, lookup_insert_eq. reflexivity. Qed.

(** C4. When the per-caller check is run (no ban is in force) on a caller
    whose count for the trailing minute is at or over the tier's minute
    quota, the violation counter becomes the old one plus [1]; if that is
    [>= 3], a ban record with expiry [now + tempBanDuration] is stored and
    the result is a denial [temp_ban_applied] whose [retryAfter] is
    [tempBanDuration / 1000]; if not, the denial is [minute_limit] and no ban
    is stored. *)
Theorem minute_breach_counts_and_bans userId now s :
  no_active_ban s userId now ->
  minuteLimitOf s userId <= Z.of_nat (length (within now MINUTE (requests_of s userId))) ->
  nonneg (violations_of s userId) ->
  exists r s',
    checkRateLimit userId now s = Some (r, s')
    /\ violations_of s' userId = (violations_of s userId + 1)%float
    /\ if (3 <=? violations_of s userId + 1)%float
       then r = denied temp_ban_applied (Num (tempBanDuration (config s) # 1000)) None
            /\ tempBans s' !! userId = Some (now + tempBanDuration (config s))
       else reason r = Some minute_limit
            /\ tempBans s' !! userId = None.
Proof.
  intros Hn Hm Hv.
  destruct (checkRateLimit_total userId now s) as (r & s' & H).
  exists r, s'. split; [exact H |].
  destruct (no_active_ban_outcome _ _ _ _ _ Hn H) as (s0 & Hq & Hu & Hg & Hc & Hp & Hb).
  destruct (state_views_eq s0 s userId Hu Hg Hc Hp) as (Er & Ev & _ & Eml & _).
  rewrite <- (F.or_zero_succ _ Hv).
  destruct Hq as [reqs v Hm' Hv' | reqs v Hm' Hv' | reqs Hm' Hh | reqs ? Hm' Hh Hg'
                 | reqs ? Hm' Hh Hg' Hg'' | reqs greqs Hm' Hh Hg' Hg''];
    subst reqs; rewrite ?within_minute_hour, ?Er, ?Eml in Hm'; try lia; subst v;
    rewrite Ev in Hv'; rewrite Hv'; simpl.
  - rewrite Hc. split; [| split; [reflexivity | apply lookup_insert_eq]].
    erewrite violations_of_insert by reflexivity. simpl. rewrite Ev. reflexivity.
  - split; [| split; [reflexivity | rewrite Hb; apply lookup_delete_eq]].
    erewrite violations_of_insert by reflexivity. simpl. rewrite Ev. reflexivity.
Qed.

Lemma minute_breach_counts_and_bans_witness :
  let s := with_userLimits
             {[ "u"%string := {| requests := [0; 0; 0; 0; 0; 0; 0; 0; 0; 0];
                                 violations := 2 |} ]}
             (newRateLimiter defaultConfig ∅) in
  exists r s',
    checkRateLimit "u" 1000 s = Some (r, s')
    /\ violations_of s' "u" = 3%float
    /\ r = denied temp_ban_applied (Num (300000 # 1000)) None
    /\ tempBans s' !! "u"%string = Some 301000.
Proof.
  intros s.
  assert (H1 : no_active_ban s "u" 1000).
  { intros e He. vm_compute in He. discriminate He. }
  assert (H2 : minuteLimitOf s "u"
               <= Z.of_nat (length (within 1000 MINUTE (requests_of s "u")))).
  { vm_compute. discriminate. }
  assert (H3 : nonneg (violations_of s "u")) by reflexivity.
  destruct (minute_breach_counts_and_bans "u" 1000 s H1 H2 H3) as (r & s' & H & Hv & Hb).
  exists r, s'. split; [exact H |]. split; [exact Hv |]. exact Hb.
Defined.

Lemma check_outcome_cases userId now s r s' :
  checkRateLimit userId now s = Some (r, s') ->
  (reason r = Some temp_ban /\ allowed r = false /\ s' = s)
  \/ exists s0,
       quota_outcome userId now s0 r s'
       /\ userLimits s0 = userLimits s /\ globalLimits s0 = globalLimits s
       /\ config s0 = config s /\ premiumUsers s0 = premiumUsers s.
Proof.
  intros H. apply checkRateLimit_outcome in H.
  destruct H as [e He Hlt | e r s' He Hge Hq | r s' He Hq].
  - left. auto.
  - right. eexists. split; [exact Hq |]. simpl. auto.
  - right. exists s. auto.
Qed.

Lemma foldr_max_spec a l :
  In (foldr Z.max a l) (a :: l) /\ forall x, In x (a :: l) -> x <= foldr Z.max a l.
Proof.
  induction l as [|b l [IH1 IH2]]; simpl.
  - split; [auto | intros x [<- | []]; lia].
  - split.
    + destruct (Z.max_spec b (foldr Z.max a l)) as [[_ ->] | [_ ->]]; [| auto].
      destruct IH1 as [<- | H]; auto.
    + intros x [<- | [<- | H]].
      * specialize (IH2 a (or_introl eq_refl)). lia.
      * lia.
      * specialize (IH2 x (or_intror H)). lia.
Qed.

Lemma foldr_min_spec a l :
  In (foldr Z.min a l) (a :: l) /\ forall x, In x (a :: l) -> foldr Z.min a l <= x.
Proof.
  induction l as [|b l [IH1 IH2]]; simpl.
  - split; [auto | intros x [<- | []]; lia].
  - split.
    + destruct (Z.min_spec b (foldr Z.min a l)) as [[_ ->] | [_ ->]]; [auto |].
      destruct IH1 as [<- | H]; auto.
    + intros x [<- | [<- | H]].
      * specialize (IH2 a (or_introl eq_refl)). lia.
      * lia.
      * specialize (IH2 x (or_intror H)). lia.
Qed.

Lemma Math_max_list_most_recent l t :
  most_recent l t <-> Math_max_list l = Some t.
Proof.
  destruct l as [|a l]; simpl.
  - split; [intros [[] _] | discriminate].
  - destruct (foldr_max_spec a l) as [H1 H2]. split.
    + intros [Ht Hle]. f_equal. specialize (H2 t Ht). specialize (Hle _ H1). lia.
    + intros [= <-]. split; assumption.
Qed.

Lemma Math_min_list_oldest l t :
  oldest l t <-> Math_min_list l = Some t.
Proof.
  destruct l as [|a l]; simpl.
  - split; [intros [[] _] | discriminate].
  - destruct (foldr_min_spec a l) as [H1 H2]. split.
    + intros [Ht Hle]. f_equal. specialize (H2 t Ht). specialize (Hle _ H1). lia.
    + intros [= <-]. split; assumption.
Qed.

Lemma at_least_one_IntNum z : 1 <= z -> at_least_one (IntNum z).
Proof. intros H. unfold at_least_one, IntNum, inject_Z, Qle. simpl. lia. Qed.

Lemma minuteRetryAfter_spec now recent :
  at_least_one (minuteRetryAfter now recent)
  /\ forall t, most_recent recent t ->
       minuteRetryAfter now recent = IntNum (Z.max 1 (60 - (now - t) / 1000)).
Proof.
  unfold minuteRetryAfter. split.
  - destruct (Math_max_list recent); apply at_least_one_IntNum; lia.
  - intros t Ht. apply Math_max_list_most_recent in Ht. rewrite Ht, Z.max_comm. reflexivity.
Qed.

Lemma hourRetryAfter_spec now reqs :
  at_least_one (hourRetryAfter now reqs)
  /\ forall t, oldest reqs t ->
       hourRetryAfter now reqs = IntNum (Z.max 1 (3600 - (now - t) / 1000)).
Proof.
  unfold hourRetryAfter. split.
  - destruct (Math_min_list reqs); [apply at_least_one_IntNum; lia | exact I].
  - intros t Ht. apply Math_min_list_oldest in Ht. rewrite Ht, Z.max_comm. reflexivity.
Qed.

Lemma nonempty_has_most_recent l : (0 < length l)%nat -> exists t, most_recent l t.
Proof.
  destruct l as [|a l]; simpl; [lia | intros _].
  exists (foldr Z.max a l). apply Math_max_list_most_recent. reflexivity.
Qed.

Lemma nonempty_has_oldest l : (0 < length l)%nat -> exists t, oldest l t.
Proof.
  destruct l as [|a l]; simpl; [lia | intros _].
  exists (foldr Z.min a l). apply Math_min_list_oldest. reflexivity.
Qed.

(** C5. A denial [minute_limit] has [retryAfter = max(1, 60 - floor((now -
    t) / 1000))] for [t] the most recent instant of the caller's trailing
    minute, and a denial [hour_limit] has [retryAfter = max(1, 3600 -
    floor((now - t) / 1000))] for [t] the oldest instant of the trailing
    hour; with a positive quota there is such an instant; in both cases
    [retryAfter] is at least [1]. *)
Theorem limit_denial_retry_after userId now s r s' :
  checkRateLimit userId now s = Some (r, s') ->
  (reason r = Some minute_limit ->
   let recent := within now MINUTE (requests_of s userId) in
   (exists n, retryAfter r = Some n /\ at_least_one n)
   /\ (0 < minuteLimitOf s userId -> exists t, most_recent recent t)
   /\ forall t, most_recent recent t ->
        retryAfter r = Some (IntNum (Z.max 1 (60 - (now - t) / 1000))))
  /\ (reason r = Some hour_limit ->
      let reqs := within now HOUR (requests_of s userId) in
      (exists n, retryAfter r = Some n /\ at_least_one n)
      /\ (0 < hourLimitOf s userId -> exists t, oldest reqs t)
      /\ forall t, oldest reqs t ->
           retryAfter r = Some (IntNum (Z.max 1 (3600 - (now - t) / 1000)))).
Proof.
  intros H.
  destruct (check_outcome_cases _ _ _ _ _ H) as [(Hr & _) | (s0 & Hq & Hu & Hg & Hc & Hp)].
  { rewrite Hr. split; discriminate. }
  destruct (state_views_eq s0 s userId Hu Hg Hc Hp) as (Er & _ & _ & Eml & Ehl).
  destruct Hq as [reqs v Hm Hv | reqs v Hm Hv | reqs Hm Hh | reqs ? Hm Hh Hg'
                 | reqs ? Hm Hh Hg' Hg'' | reqs greqs Hm Hh Hg' Hg''];
    subst reqs; rewrite ?within_minute_hour, ?Er, ?Eml, ?Ehl in *; simpl;
    (split; [try discriminate | try discriminate]); intros _.
  - destruct (minuteRetryAfter_spec now (within now MINUTE (requests_of s userId))) as [H1 H2].
    split; [eauto |]. split.
    + intros Hpos. apply nonempty_has_most_recent. lia.
    + intros t Ht. rewrite (H2 t Ht). reflexivity.
  - destruct (hourRetryAfter_spec now (within now HOUR (requests_of s userId))) as [H1 H2].
    split; [eauto |]. split.
    + intros Hpos. apply nonempty_has_oldest. lia.
    + intros t Ht. rewrite (H2 t Ht). reflexivity.
Qed.

Lemma limit_denial_retry_after_witness :
  let s := with_userLimits
             {[ "u"%string := {| requests := [0; 0; 0; 0; 0; 0; 0; 0; 0; 2000];
                                 violations := 0 |} ]}
             (newRateLimiter defaultConfig ∅) in
  exists r s',
    checkRateLimit "u" 5000 s = Some (r, s')
    /\ reason r = Some minute_limit
    /\ most_recent (within 5000 MINUTE (requests_of s "u")) 2000
    /\ retryAfter r = Some (IntNum 57).
Proof.
  intros s.
  destruct (checkRateLimit "u" 5000 s) as [[r s']|] eqn:E; [| vm_compute in E; discriminate E].
  assert (Hr : reason r = Some minute_limit) by (injection E as <- _; reflexivity).
  assert (Ht : most_recent (within 5000 MINUTE (requests_of s "u")) 2000).
  { split; [vm_compute; tauto |].
    intros x Hx. vm_compute in Hx.
    repeat (destruct Hx as [<- | Hx]; [vm_compute; discriminate |]). destruct Hx. }
  destruct (limit_denial_retry_after "u" 5000 s r s' E) as [Hmin _].
  destruct (Hmin Hr) as (_ & _ & Hf).
  exists r, s'. split; [reflexivity |]. split; [exact Hr |]. split; [exact Ht |].
  exact (Hf 2000 Ht).
Defined.

(** C6. After a denial, whatever the reason, the caller's history is the
    one before the call or that one pruned to the trailing hour, and so is
    the global history: no instant is appended. After an admission both
    histories are the pruned ones with [now] appended. No other caller's
    record changes. *)
Theorem histories_grow_only_on_admission userId now s r s' :
  checkRateLimit userId now s = Some (r, s') ->
  (forall other, other <> userId -> userLimits s' !! other = userLimits s !! other)
  /\ if allowed r
     then requests_of s' userId = within now HOUR (requests_of s userId) ++ [now]
          /\ global_of s' = within now HOUR (global_of s) ++ [now]
     else (requests_of s' userId = requests_of s userId
           \/ requests_of s' userId = within now HOUR (requests_of s userId))
          /\ (global_of s' = global_of s
              \/ global_of s' = within now HOUR (global_of s)).
Proof.
  intros H.
  destruct (check_outcome_cases _ _ _ _ _ H) as [(_ & Ha & ->) | (s0 & Hq & Hu & Hg & Hc & Hp)].
  { rewrite Ha. auto. }
  destruct (state_views_eq s0 s userId Hu Hg Hc Hp) as (Er & _ & Eg & _ & _).
  assert (Hgl : forall m t, globalLimits t = <["global"%string := m]> (globalLimits s0) ->
                            global_of t = global_requests m).
  { intros m t Ht. unfold global_of, globalDataOf. rewrite Ht, lookup_insert_eq. reflexivity. }
  assert (Hgs : forall t, globalLimits t = globalLimits s0 -> global_of t = global_of s).
  { intros t Ht. unfold global_of, globalDataOf. rewrite Ht, Hg. reflexivity. }
  destruct Hq; repeat match goal with x := _ |- _ => subst x end; simpl;
    (split; [intros other Hne; simpl; rewrite lookup_insert_ne, Hu by congruence;
             reflexivity |]);
    erewrite requests_of_insert by reflexivity; simpl; rewrite Er;
    first [ erewrite Hgl by reflexivity; simpl; rewrite Eg
          | erewrite Hgs by reflexivity ]; auto.
Qed.

Lemma histories_grow_only_on_admission_witness :
  let s := with_userLimits
             {[ "u"%string := {| requests := [0; 0; 0; 0; 0; 0; 0; 0; 0; 2000];
                                 violations := 0 |} ]}
             (newRateLimiter defaultConfig ∅) in
  (exists r s',
     checkRateLimit "u" 5000 s = Some (r, s') /\ allowed r = false
     /\ requests_of s' "u" = [0; 0; 0; 0; 0; 0; 0; 0; 0; 2000]
     /\ global_of s' = [])
  /\ (exists r s',
        checkRateLimit "u" 70000 s = Some (r, s') /\ allowed r = true
        /\ requests_of s' "u" = [0; 0; 0; 0; 0; 0; 0; 0; 0; 2000; 70000]
        /\ global_of s' = [70000]).
Proof.
  intros s. split.
  - destruct (checkRateLimit "u" 5000 s) as [[r s']|] eqn:E; [| vm_compute in E; discriminate E].
    assert (Ha : allowed r = false) by (injection E as <- _; reflexivity).
    destruct (histories_grow_only_on_admission "u" 5000 s r s' E) as [_ Hh].
    rewrite Ha in Hh. destruct Hh as [Hu Hg].
    exists r, s'. split; [reflexivity |]. split; [exact Ha |]. split.
    + destruct Hu as [-> | ->]; reflexivity.
    + destruct Hg as [-> | ->]; reflexivity.
  - destruct (checkRateLimit "u" 70000 s) as [[r s']|] eqn:E; [| vm_compute in E; discriminate E].
    assert (Ha : allowed r = true) by (injection E as <- _; reflexivity).
    destruct (histories_grow_only_on_admission "u" 70000 s r s' E) as [_ Hh].
    rewrite Ha in Hh. destruct Hh as [Hu Hg].
    exists r, s'. split; [reflexivity |]. split; [exact Ha |]. split.
    + rewrite Hu. reflexivity.
    + rewrite Hg. reflexivity.
Defined.

(** C9. A denied request can still change the caller's violation state. When
    the per-caller check is run on a caller with a positive violation counter
    and passes, and the global minute or hour quota is exhausted, the request
    is denied with a global reason, no instant is recorded, and the caller's
    record is stored with its history pruned and its counter decayed to
    [Math.max(0, violations - 0.1)]. *)
Theorem global_denial_still_decays userId now s :
  no_active_ban s userId now ->
  (0 <? violations_of s userId)%float = true ->
  Z.of_nat (length (within now MINUTE (requests_of s userId))) < minuteLimitOf s userId ->
  Z.of_nat (length (within now HOUR (requests_of s userId))) < hourLimitOf s userId ->
  globalRequestsPerMinute (config s) <= Z.of_nat (length (within now MINUTE (global_of s)))
  \/ globalRequestsPerHour (config s) <= Z.of_nat (length (within now HOUR (global_of s))) ->
  exists r s',
    checkRateLimit userId now s = Some (r, s')
    /\ allowed r = false
    /\ (reason r = Some global_minute_limit \/ reason r = Some global_hour_limit)
    /\ userLimits s' !! userId
       = Some {| requests := within now HOUR (requests_of s userId);
                 violations := Math_max 0 (violations_of s userId - 0.1) |}.
Proof.
  intros Hn Hv Hm Hh Hglobal.
  destruct (checkRateLimit_total userId now s) as (r & s' & H).
  exists r, s'. split; [exact H |].
  destruct (no_active_ban_outcome _ _ _ _ _ Hn H) as (s0 & Hq & Hu & Hg & Hc & Hp & Hb).
  destruct (state_views_eq s0 s userId Hu Hg Hc Hp) as (Er & Ev & Eg & Eml & Ehl).
  assert (Hd : decay (violations_of s userId) = Math_max 0 (violations_of s userId - 0.1)).
  { unfold decay. rewrite Hv. reflexivity. }
  destruct Hq; repeat match goal with x := _ |- _ => subst x end;
    rewrite ?within_minute_hour, ?Er, ?Ev, ?Eg, ?Eml, ?Ehl, ?Hc in *; try lia; simpl;
    rewrite lookup_insert_eq, Hd; auto.
Qed.

Lemma global_denial_still_decays_witness :
  let cfg := {| userRequestsPerMinute := 1; userRequestsPerHour := 50;
                globalRequestsPerMinute := 1; globalRequestsPerHour := 1000;
                premiumUserRequestsPerMinute := 30; premiumUserRequestsPerHour := 200;
                cooldownPeriod := 60000; tempBanDuration := 300000 |} in
  exists outs s,
    run [CheckRateLimit "b" 0; CheckRateLimit "b" 1; CheckRateLimit "a" 70000]
        (newRateLimiter cfg ∅) = Some (outs, s)
    /\ violations_of s "b" = 1%float
    /\ exists r s',
         checkRateLimit "b" 70001 s = Some (r, s')
         /\ allowed r = false
         /\ reason r = Some global_minute_limit
         /\ userLimits s' !! "b"%string = Some {| requests := [0]; violations := 0.9 |}.
Proof.
  intros cfg.
  destruct (run [CheckRateLimit "b" 0; CheckRateLimit "b" 1; CheckRateLimit "a" 70000]
                (newRateLimiter cfg ∅)) as [[outs s]|] eqn:E; [| vm_compute in E; discriminate E].
  exists outs, s. split; [reflexivity |].
  assert (Es : s = snd (outs, s)) by reflexivity.
  rewrite <- (f_equal (fun o => match o with Some p => p | None => (outs, s) end) E) in Es.
  vm_compute in Es.
  assert (H1 : no_active_ban s "b" 70001).
  { intros e He. rewrite Es in He. vm_compute in He. discriminate He. }
  assert (H2 : (0 <? violations_of s "b")%float = true) by (rewrite Es; reflexivity).
  assert (H3 : Z.of_nat (length (within 70001 MINUTE (requests_of s "b"))) < minuteLimitOf s "b")
    by (rewrite Es; reflexivity).
  assert (H4 : Z.of_nat (length (within 70001 HOUR (requests_of s "b"))) < hourLimitOf s "b")
    by (rewrite Es; reflexivity).
  assert (H5 : globalRequestsPerMinute (config s)
               <= Z.of_nat (length (within 70001 MINUTE (global_of s)))
               \/ globalRequestsPerHour (config s)
                  <= Z.of_nat (length (within 70001 HOUR (global_of s)))).
  { left. rewrite Es. vm_compute. discriminate. }
  destruct (global_denial_still_decays "b" 70001 s H1 H2 H3 H4 H5)
    as (r & s' & Hc & Ha & Hr & Hu).
  split; [rewrite Es; reflexivity |].
  exists r, s'. split; [exact Hc |]. split; [exact Ha |]. split.
  - destruct Hr as [Hr | Hr]; [exact Hr |].
    rewrite Es in Hc. vm_compute in Hc. injection Hc as <- _. discriminate Hr.
  - rewrite Hu, Es. reflexivity.
Defined.

(** ** The cleanup *)

Lemma cleanup_filter_within now l :
  List.filter (fun time => now - 60 * 60 * 1000 <? time) l = within now HOUR l.
Proof.
  unfold within, HOUR. apply List.filter_ext. intros t.
  destruct (Z.ltb_spec (now - 60 * 60 * 1000) t), (Z.ltb_spec (now - t) (60 * 60 * 1000));
    try reflexivity; lia.
Qed.

Lemma filter_after_mono h1 h2 l :
  h1 <= h2 ->
  List.filter (fun time => h2 <? time) (List.filter (fun time => h1 <? time) l)
  = List.filter (fun time => h2 <? time) l.
Proof.
  intros Hle. induction l as [|t l IH]; simpl; [reflexivity |].
  destruct (Z.ltb_spec h1 t); simpl; rewrite IH; [reflexivity |].
  destruct (Z.ltb_spec h2 t); [lia | reflexivity].
Qed.

Lemma cleanupUser_absorbs h1 h2 d :
  h1 <= h2 -> cleanupUser h1 d ≫= cleanupUser h2 = cleanupUser h2 d.
Proof.
  intros Hle. unfold cleanupUser.
  pose proof (filter_after_mono h1 h2 (requests d) Hle) as Hf.
  destruct (List.filter (fun time => h1 <? time) (requests d)) as [|a l'] eqn:E1.
  - simpl in Hf. rewrite <- Hf. simpl.
    destruct (or_zero (violations d) =? 0)%float eqn:Ev; simpl; rewrite ?Ev; reflexivity.
  - cbn [length Nat.eqb andb mbind option_bind requests violations].
    rewrite Hf. reflexivity.
Qed.

Lemma omap_absorbs {A} (f g : A -> option A) (m : gmap string A) :
  (forall x, f x ≫= g = g x) -> omap g (omap f m) = omap g m.
Proof.
  intros Hfg. apply map_eq. intros i. rewrite !lookup_omap.
  destruct (m !! i) as [x|]; simpl; [apply Hfg | reflexivity].
Qed.

(** A cleanup followed by a cleanup at the same or a later instant leaves
    what the second alone would leave. *)
Lemma cleanup_absorbs now later s :
  now <= later -> cleanup later (cleanup now s) = cleanup later s.
Proof.
  intros Hle. unfold cleanup. simpl. f_equal.
  - apply omap_absorbs. intros d. apply cleanupUser_absorbs. lia.
  - destruct (globalLimits s !! "global"%string) as [g|] eqn:E.
    + rewrite lookup_insert_eq. simpl. rewrite filter_after_mono by lia.
      apply insert_insert_eq.
    + rewrite E. reflexivity.
  - apply omap_absorbs. intros e.
    destruct (Z.ltb_spec e now); simpl; [| reflexivity].
    destruct (Z.ltb_spec e later); [reflexivity | lia].
Qed.

Lemma cleanup_idempotent now s : cleanup now (cleanup now s) = cleanup now s.
Proof. apply cleanup_absorbs. lia. Qed.

Lemma length_zero_nil {A} (l : list A) : (length l =? 0)%nat = true <-> l = [].
Proof.
  destruct l; simpl; split; try reflexivity; discriminate.
Qed.

(** C8. Running the cleanup a second time at the same instant changes
    nothing, and when the clock has moved on between the two the state is the
    one the second cleanup alone would leave. The cleanup deletes a caller's
    record exactly when its history pruned to the trailing hour is empty and
    its violation counter is [0], and keeps the pruned record otherwise; it
    creates no record; it prunes the global record; and it removes the bans
    whose expiry is before [now] and only those. *)
Theorem cleanup_is_idempotent_and_exact now s :
  cleanup now (cleanup now s) = cleanup now s
  /\ (forall later, now <= later -> cleanup later (cleanup now s) = cleanup later s)
  /\ (forall userId d,
        userLimits s !! userId = Some d ->
        nonneg (violations d) ->
        let pruned := within now HOUR (requests d) in
        (userLimits (cleanup now s) !! userId = None
         <-> pruned = [] /\ (violations d =? 0)%float = true)
        /\ (userLimits (cleanup now s) !! userId = None
            \/ userLimits (cleanup now s) !! userId
               = Some {| requests := pruned; violations := violations d |}))
  /\ (forall userId,
        userLimits s !! userId = None -> userLimits (cleanup now s) !! userId = None)
  /\ globalLimits (cleanup now s)
     = match globalLimits s !! "global"%string with
       | Some g => <["global"%string :=
                       {| global_requests := within now HOUR (global_requests g) |}]>
                     (globalLimits s)
       | None => globalLimits s
       end
  /\ (forall userId,
        tempBans (cleanup now s) !! userId
        = match tempBans s !! userId with
          | Some banExpiry => if banExpiry <? now then None else Some banExpiry
          | None => None
          end).
Proof.
  split; [apply cleanup_idempotent |].
  split; [intros later; apply cleanup_absorbs |]. split; [| split; [| split]].
  - intros userId d Hd Hv pruned. unfold cleanup. simpl.
    rewrite lookup_omap, Hd. simpl. unfold cleanupUser.
    rewrite cleanup_filter_within. fold pruned.
    rewrite (F.or_zero_eqb_zero _ Hv).
    destruct ((length pruned =? 0)%nat) eqn:El;
      destruct (violations d =? 0)%float eqn:Ev; simpl.
    + apply length_zero_nil in El. split; [tauto | auto].
    + split; [| auto]. split; [discriminate | intros [_ ?]; discriminate].
    + split; [| auto]. split; [discriminate |].
      intros [Hp _]. apply length_zero_nil in Hp. congruence.
    + split; [| auto]. split; [discriminate | intros [_ ?]; discriminate].
  - intros userId Hn. unfold cleanup. simpl. rewrite lookup_omap, Hn. reflexivity.
  - unfold cleanup. simpl.
    destruct (globalLimits s !! "global"%string); [| reflexivity].
    rewrite cleanup_filter_within. reflexivity.
  - intros userId. unfold cleanup. simpl. rewrite lookup_omap.
    destruct (tempBans s !! userId); reflexivity.
Qed.

Lemma cleanup_is_idempotent_and_exact_witness :
  let s := with_tempBans {[ "c"%string := 4000000 ]}
             (with_userLimits
                {[ "a"%string := {| requests := [10]; violations := 0 |};
                   "b"%string := {| requests := [10; 3000000]; violations := 0 |};
                   "c"%string := {| requests := [10]; violations := 3 |} ]}
                (newRateLimiter defaultConfig ∅)) in
  userLimits (cleanup 5000000 s) !! "a"%string = None
  /\ userLimits (cleanup 5000000 s) !! "b"%string
     = Some {| requests := [3000000]; violations := 0 |}
  /\ userLimits (cleanup 5000000 s) !! "c"%string
     = Some {| requests := []; violations := 3 |}.
Proof.
  intros s.
  destruct (cleanup_is_idempotent_and_exact 5000000 s) as (_ & _ & Hu & _).
  split; [| split].
  - apply (Hu "a"%string {| requests := [10]; violations := 0 |}); [reflexivity ..|].
    split; reflexivity.
  - destruct (Hu "b"%string {| requests := [10; 3000000]; violations := 0 |})
      as [Hiff [Hn | Hs]]; [reflexivity .. | | exact Hs].
    apply Hiff in Hn. destruct Hn as [Hn _]. discriminate Hn.
  - destruct (Hu "c"%string {| requests := [10]; violations := 3 |})
      as [Hiff [Hn | Hs]]; [reflexivity .. | | exact Hs].
    apply Hiff in Hn. destruct Hn as [_ Hn]. discriminate Hn.
Defined.

(** ** Windows over the admitted instants *)

Lemma within_app now w l1 l2 :
  within now w (l1 ++ l2) = within now w l1 ++ within now w l2.
Proof. unfold within. apply List.filter_app. Qed.

Lemma within_later now T w l :
  now <= T -> within T w (within now w l) = within T w l.
Proof.
  intros Hle. unfold within. induction l as [|t l IH]; simpl; [reflexivity |].
  destruct (Z.ltb_spec (now - t) w); simpl; rewrite IH; [reflexivity |].
  destruct (Z.ltb_spec (T - t) w); [lia | reflexivity].
Qed.

Lemma in_trailing_app T w l1 l2 :
  in_trailing T w (l1 ++ l2) = in_trailing T w l1 + in_trailing T w l2.
Proof. unfold in_trailing. rewrite List.filter_app, length_app. lia. Qed.

Lemma in_trailing_nonneg T w l : 0 <= in_trailing T w l.
Proof. unfold in_trailing. lia. Qed.

(** Of instants not after [now], a later window holds no more than the one
    that ends at [now], which holds what the code's filter keeps. *)
Lemma in_trailing_le_within now T w l :
  now <= T -> (forall t, In t l -> t <= now) ->
  in_trailing T w l <= Z.of_nat (length (within now w l)).
Proof.
  intros Hle Hl. unfold in_trailing, within.
  induction l as [|t l IH]; simpl; [lia |].
  assert (Ht : t <= now) by (apply Hl; left; reflexivity).
  assert (IH' := IH (fun x Hx => Hl x (or_intror Hx))).
  destruct (Z.leb_spec t T), (Z.ltb_spec (T - t) w), (Z.ltb_spec (now - t) w);
    simpl; lia.
Qed.

Lemma agrees_nil b : agrees b [] [].
Proof. split; [reflexivity | intros t []]. Qed.

Lemma agrees_later b b' stored adm :
  agrees b stored adm -> b <= b' -> agrees b' stored adm.
Proof.
  intros [H1 H2] Hle. split.
  - intros T HT. apply H1. lia.
  - intros t Ht. specialize (H2 t Ht). lia.
Qed.

Lemma agrees_prune b now stored adm :
  agrees b stored adm -> b <= now -> agrees now (within now HOUR stored) adm.
Proof.
  intros [H1 H2] Hle. split.
  - intros T HT. rewrite within_later by exact HT. apply H1. lia.
  - intros t Ht. specialize (H2 t Ht). lia.
Qed.

Lemma agrees_push b now stored adm :
  agrees b stored adm -> b <= now ->
  agrees now (within now HOUR stored ++ [now]) (adm ++ [now]).
Proof.
  intros H Hle. destruct (agrees_prune _ _ _ _ H Hle) as [H1 H2]. split.
  - intros T HT. rewrite !within_app, (H1 T HT). reflexivity.
  - intros t Ht. apply in_app_or in Ht. destruct Ht as [Ht | [<- | []]]; [auto | lia].
Qed.

Lemma agrees_empty b now stored adm :
  agrees b stored adm -> b <= now -> within now HOUR stored = [] -> agrees now [] adm.
Proof.
  intros H Hle He. pose proof (agrees_prune _ _ _ _ H Hle) as H'.
  rewrite He in H'. exact H'.
Qed.

Lemma bounded_nil q w : 0 <= q -> bounded q w [].
Proof. intros H T. unfold in_trailing. simpl. lia. Qed.

(** Admitting at [now] a request the code counted under the quota keeps
    every window of the admitted instants within the quota. *)
Lemma bounded_push b now q w stored adm :
  w <= HOUR ->
  agrees b stored adm -> b <= now ->
  bounded q w adm ->
  Z.of_nat (length (within now w (within now HOUR stored))) < q ->
  bounded q w (adm ++ [now]).
Proof.
  intros Hw [H1 H2] Hle Hb Hc T.
  rewrite in_trailing_app.
  destruct (Z.le_gt_cases now T) as [HT | HT].
  - assert (Hadm : in_trailing T w adm <= Z.of_nat (length (within now w adm))).
    { apply in_trailing_le_within; [exact HT |].
      intros t Ht. specialize (H2 t Ht). lia. }
    rewrite (H1 now Hle), within_within in Hc by exact Hw.
    assert (in_trailing T w [now] <= 1).
    { unfold in_trailing. simpl. destruct (_ && _); simpl; lia. }
    lia.
  - assert (in_trailing T w [now] = 0).
    { unfold in_trailing. simpl. destruct (Z.leb_spec now T); [lia | reflexivity]. }
    specialize (Hb T). lia.
Qed.

(** ** What one call does to the histories *)

Lemma checkRateLimit_effect userId now s r s1 :
  checkRateLimit userId now s = Some (r, s1) ->
  config s1 = config s /\ premiumUsers s1 = premiumUsers s
  /\ (forall other, other <> userId -> userLimits s1 !! other = userLimits s !! other)
  /\ if allowed r
     then requests_of s1 userId = within now HOUR (requests_of s userId) ++ [now]
          /\ global_of s1 = within now HOUR (global_of s) ++ [now]
          /\ Z.of_nat (length (within now MINUTE (within now HOUR (requests_of s userId))))
             < minuteLimitOf s userId
          /\ Z.of_nat (length (within now HOUR (requests_of s userId))) < hourLimitOf s userId
          /\ Z.of_nat (length (within now MINUTE (within now HOUR (global_of s))))
             < globalRequestsPerMinute (config s)
          /\ Z.of_nat (length (within now HOUR (global_of s))) < globalRequestsPerHour (config s)
     else (requests_of s1 userId = requests_of s userId
           \/ requests_of s1 userId = within now HOUR (requests_of s userId))
          /\ (global_of s1 = global_of s
              \/ global_of s1 = within now HOUR (global_of s)).
Proof.
  intros H.
  destruct (check_outcome_cases _ _ _ _ _ H) as [(_ & Ha & ->) | (s0 & Hq & Hu & Hg & Hc & Hp)].
  { rewrite Ha. auto 10. }
  destruct (state_views_eq s0 s userId Hu Hg Hc Hp) as (Er & _ & Eg & Eml & Ehl).
  assert (Hgl : forall m t, globalLimits t = <["global"%string := m]> (globalLimits s0) ->
                            global_of t = global_requests m).
  { intros m t Ht. unfold global_of, globalDataOf. rewrite Ht, lookup_insert_eq. reflexivity. }
  assert (Hgs : forall t, globalLimits t = globalLimits s0 -> global_of t = global_of s).
  { intros t Ht. unfold global_of, globalDataOf. rewrite Ht, Hg. reflexivity. }
  destruct Hq; repeat match goal with x := _ |- _ => subst x end; simpl;
    (split; [exact Hc |]); (split; [exact Hp |]);
    (split; [intros other Hne; simpl; rewrite lookup_insert_ne, Hu by congruence;
             reflexivity |]);
    erewrite requests_of_insert by reflexivity; simpl;
    first [ erewrite Hgl by reflexivity; simpl | erewrite Hgs by reflexivity ];
    rewrite ?Er, ?Eg, ?Eml, ?Ehl, ?Hc in *; auto 10.
Qed.

Lemma cleanup_effect now s :
  config (cleanup now s) = config s /\ premiumUsers (cleanup now s) = premiumUsers s
  /\ (forall userId,
        requests_of (cleanup now s) userId = within now HOUR (requests_of s userId))
  /\ global_of (cleanup now s) = within now HOUR (global_of s).
Proof.
  split; [reflexivity |]. split; [reflexivity |]. split.
  - intros userId. unfold requests_of, userDataOf, cleanup. simpl.
    rewrite lookup_omap.
    destruct (userLimits s !! userId) as [d|]; simpl; [| reflexivity].
    unfold cleanupUser. rewrite cleanup_filter_within.
    destruct (length (within now HOUR (requests d)) =? 0)%nat eqn:El; simpl.
    + apply length_zero_nil in El.
      destruct (or_zero (violations d) =? 0)%float; simpl; congruence.
    + reflexivity.
  - unfold global_of, globalDataOf, cleanup. simpl.
    destruct (globalLimits s !! "global"%string) as [g|] eqn:E; simpl.
    + rewrite lookup_insert_eq. simpl. apply cleanup_filter_within.
    + rewrite E. reflexivity.
Qed.

Lemma limits_of_eq s1 s userId :
  config s1 = config s ->
  (userId ∈ premiumUsers s1 <-> userId ∈ premiumUsers s) ->
  minuteLimitOf s1 userId = minuteLimitOf s userId
  /\ hourLimitOf s1 userId = hourLimitOf s userId.
Proof.
  intros Hc Hp. unfold minuteLimitOf, hourLimitOf. rewrite Hc.
  rewrite (bool_decide_ext _ _ Hp). auto.
Qed.

Lemma requests_of_eq s1 s userId :
  userLimits s1 !! userId = userLimits s !! userId ->
  requests_of s1 userId = requests_of s userId.
Proof. intros H. unfold requests_of, userDataOf. rewrite H. reflexivity. Qed.

(** One call that leaves [userId] alone: the tier stays; either nothing is
    admitted for [userId] and the stored history is kept or pruned at the
    instant of the call, or the call is an admitted request of [userId] at
    an instant [now], counted under both quotas and appended. *)
Lemma step_effect_user userId o s out s1 :
  leaves_alone userId o ->
  step o s = Some (out, s1) ->
  minuteLimitOf s1 userId = minuteLimitOf s userId
  /\ hourLimitOf s1 userId = hourLimitOf s userId
  /\ ((admitted userId [(o, out)] = []
       /\ (requests_of s1 userId = requests_of s userId
           \/ exists now, op_time o = Some now
                /\ requests_of s1 userId = within now HOUR (requests_of s userId)))
      \/ exists now,
           op_time o = Some now /\ admitted userId [(o, out)] = [now]
           /\ requests_of s1 userId = within now HOUR (requests_of s userId) ++ [now]
           /\ Z.of_nat (length (within now MINUTE (within now HOUR (requests_of s userId))))
              < minuteLimitOf s userId
           /\ Z.of_nat (length (within now HOUR (requests_of s userId)))
              < hourLimitOf s userId).
Proof.
  intros (Hclear & Hadd & Hrem) Hstep.
  destruct o as [u now | now | u now | now | u | u | u]; simpl in Hstep.
  - destruct (checkRateLimit u now s) as [[r s']|] eqn:E; simpl in Hstep; [| discriminate].
    injection Hstep as <- <-.
    destruct (checkRateLimit_effect _ _ _ _ _ E) as (Hc & Hp & Hother & Heff).
    destruct (limits_of_eq s' s userId Hc ltac:(rewrite Hp; tauto)) as [-> ->].
    split; [reflexivity |]. split; [reflexivity |].
    simpl. destruct (decide (u = userId)) as [-> | Hne].
    + rewrite bool_decide_eq_true_2 by reflexivity. simpl.
      destruct (allowed r).
      * right. exists now. destruct Heff as (? & _ & ? & ? & _). auto.
      * left. split; [reflexivity |]. destruct Heff as [[? | ?] _]; eauto.
    + rewrite bool_decide_eq_false_2 by exact Hne. simpl.
      left. split; [reflexivity |]. left. apply requests_of_eq, Hother. congruence.
  - injection Hstep as <- <-.
    destruct (cleanup_effect now s) as (Hc & Hp & Hr & _).
    destruct (limits_of_eq (cleanup now s) s userId Hc ltac:(rewrite Hp; tauto)) as [-> ->].
    split; [reflexivity |]. split; [reflexivity |].
    left. split; [reflexivity |]. right. exists now. auto.
  - injection Hstep as <- <-. auto 10.
  - injection Hstep as <- <-. auto 10.
  - injection Hstep as <- <-.
    destruct (limits_of_eq (addPremiumUser u s) s userId eq_refl) as [-> ->].
    { simpl. rewrite elem_of_union, elem_of_singleton.
      assert (userId <> u) by congruence. tauto. }
    auto 10.
  - injection Hstep as <- <-.
    destruct (limits_of_eq (removePremiumUser u s) s userId eq_refl) as [-> ->].
    { simpl. rewrite elem_of_difference, elem_of_singleton.
      assert (userId <> u) by congruence. tauto. }
    auto 10.
  - injection Hstep as <- <-.
    split; [reflexivity |]. split; [reflexivity |].
    left. split; [reflexivity |]. left. apply requests_of_eq. simpl.
    apply lookup_delete_ne. congruence.
Qed.

(** The same for the global record, which no call leaves out. *)
Lemma step_effect_global o s out s1 :
  step o s = Some (out, s1) ->
  config s1 = config s
  /\ ((admitted_all [(o, out)] = []
       /\ (global_of s1 = global_of s
           \/ exists now, op_time o = Some now
                /\ global_of s1 = within now HOUR (global_of s)))
      \/ exists now,
           op_time o = Some now /\ admitted_all [(o, out)] = [now]
           /\ global_of s1 = within now HOUR (global_of s) ++ [now]
           /\ Z.of_nat (length (within now MINUTE (within now HOUR (global_of s))))
              < globalRequestsPerMinute (config s)
           /\ Z.of_nat (length (within now HOUR (global_of s)))
              < globalRequestsPerHour (config s)).
Proof.
  intros Hstep.
  destruct o as [u now | now | u now | now | u | u | u]; simpl in Hstep.
  - destruct (checkRateLimit u now s) as [[r s']|] eqn:E; simpl in Hstep; [| discriminate].
    injection Hstep as <- <-.
    destruct (checkRateLimit_effect _ _ _ _ _ E) as (Hc & _ & _ & Heff).
    split; [exact Hc |]. simpl. destruct (allowed r).
    + right. exists now. destruct Heff as (_ & ? & _ & _ & ? & ?). auto.
    + left. split; [reflexivity |]. destruct Heff as [_ [? | ?]]; eauto.
  - injection Hstep as <- <-.
    destruct (cleanup_effect now s) as (Hc & _ & _ & Hg).
    split; [exact Hc |]. left. split; [reflexivity |]. right. exists now. auto.
  - injection Hstep as <- <-. auto 10.
  - injection Hstep as <- <-. auto 10.
  - injection Hstep as <- <-. auto 10.
  - injection Hstep as <- <-. auto 10.
  - injection Hstep as <- <-. auto 10.
Qed.

Lemma step_user_ledger userId ml hl o s out s1 adm b :
  user_ledger userId ml hl s adm b ->
  b <= op_clock b o ->
  leaves_alone userId o ->
  step o s = Some (out, s1) ->
  user_ledger userId ml hl s1 (adm ++ admitted userId [(o, out)]) (op_clock b o).
Proof.
  intros (Hml & Hhl & Hag & Hbm & Hbh) Hclock Halone Hstep.
  destruct (step_effect_user _ _ _ _ _ Halone Hstep) as (Eml & Ehl & Heff).
  unfold user_ledger. rewrite Eml, Ehl.
  split; [exact Hml |]. split; [exact Hhl |].
  destruct Heff as [(-> & Hr) | (now & Ht & -> & Hr & Hcm & Hch)].
  - rewrite app_nil_r. split; [| auto].
    destruct Hr as [-> | (now & Ht & ->)].
    + eapply agrees_later; eassumption.
    + unfold op_clock in *. rewrite Ht in *. simpl in *.
      eapply agrees_prune; eassumption.
  - unfold op_clock in *. rewrite Ht in *. simpl in *. rewrite Hr.
    split; [eapply agrees_push; eassumption |]. split.
    + eapply bounded_push; [unfold MINUTE, HOUR; lia | eassumption .. | lia].
    + eapply bounded_push; [lia | eassumption .. |].
      rewrite within_within by lia. lia.
Qed.

Lemma step_global_ledger cfg o s out s1 adm b :
  global_ledger cfg s adm b ->
  b <= op_clock b o ->
  step o s = Some (out, s1) ->
  global_ledger cfg s1 (adm ++ admitted_all [(o, out)]) (op_clock b o).
Proof.
  intros (Hcfg & Hag & Hbm & Hbh) Hclock Hstep.
  destruct (step_effect_global _ _ _ _ Hstep) as (Ec & Heff).
  unfold global_ledger. rewrite Ec.
  split; [exact Hcfg |].
  destruct Heff as [(-> & Hr) | (now & Ht & -> & Hr & Hcm & Hch)].
  - rewrite app_nil_r. split; [| auto].
    destruct Hr as [-> | (now & Ht & ->)].
    + eapply agrees_later; eassumption.
    + unfold op_clock in *. rewrite Ht in *. simpl in *.
      eapply agrees_prune; eassumption.
  - unfold op_clock in *. rewrite Ht in *. simpl in *. rewrite Hr. rewrite Hcfg in *.
    split; [eapply agrees_push; eassumption |]. split.
    + eapply bounded_push; [unfold MINUTE, HOUR; lia | eassumption .. | lia].
    + eapply bounded_push; [lia | eassumption .. |].
      rewrite within_within by lia. lia.
Qed.

(** ** Runs *)

Lemma clock_from_nondecreasing ops : forall b,
  nondecreasing (b :: omap op_time ops) -> clock_from b ops.
Proof.
  induction ops as [|o ops IH]; intros b H; simpl; [exact I |].
  unfold op_clock. simpl in H.
  destruct (op_time o) as [t|]; simpl in *.
  - destruct H as [Hle H]. split; [exact Hle | apply IH, H].
  - split; [lia | apply IH, H].
Qed.

Lemma clock_monotone_from ops : clock_monotone ops -> exists b, clock_from b ops.
Proof.
  unfold clock_monotone. intros H.
  destruct (omap op_time ops) as [|t l] eqn:E.
  - exists 0. apply clock_from_nondecreasing. rewrite E. exact I.
  - exists t. apply clock_from_nondecreasing. rewrite E. simpl. split; [lia | exact H].
Qed.

Lemma run_cons o ops s outs s' :
  run (o :: ops) s = Some (outs, s') ->
  exists out s1 outs',
    step o s = Some (out, s1) /\ run ops s1 = Some (outs', s') /\ outs = out :: outs'.
Proof.
  simpl. destruct (step o s) as [[out s1]|]; simpl; [| discriminate].
  destruct (run ops s1) as [[outs' s2]|] eqn:Er; simpl; [| discriminate].
  intros [= <- <-]. exists out, s1, outs'. auto.
Qed.

Lemma admitted_cons userId e log :
  admitted userId (e :: log) = admitted userId [e] ++ admitted userId log.
Proof.
  destruct e as [[u now | | | | | |] [r | | |]]; simpl; try reflexivity.
  destruct (bool_decide (u = userId) && allowed r); reflexivity.
Qed.

Lemma admitted_all_cons e log :
  admitted_all (e :: log) = admitted_all [e] ++ admitted_all log.
Proof.
  destruct e as [[u now | | | | | |] [r | | |]]; simpl; try reflexivity.
  destruct (allowed r); reflexivity.
Qed.

(** A property of the limiter that every call keeps holds after a run. *)
Lemma run_invariant (P : RateLimiter -> Prop) :
  (forall o s out s1, P s -> step o s = Some (out, s1) -> P s1) ->
  forall ops s outs s', P s -> run ops s = Some (outs, s') -> P s'.
Proof.
  intros Hstep. induction ops as [|o ops IH]; intros s outs s' HP Hrun.
  - injection Hrun as _ <-. exact HP.
  - destruct (run_cons _ _ _ _ _ Hrun) as (out & s1 & outs' & Ho & Hr & _).
    eapply IH; [eapply Hstep; eassumption | exact Hr].
Qed.

Lemma run_user_ledger userId ml hl ops : forall s outs s' adm b,
  user_ledger userId ml hl s adm b ->
  clock_from b ops ->
  undisturbed userId ops ->
  run ops s = Some (outs, s') ->
  exists b', user_ledger userId ml hl s' (adm ++ admitted userId (combine ops outs)) b'.
Proof.
  induction ops as [|o ops IH]; intros s outs s' adm b Hl Hclock Hund Hrun.
  - injection Hrun as <- <-. simpl. rewrite app_nil_r. eauto.
  - destruct (run_cons _ _ _ _ _ Hrun) as (out & s1 & outs' & Ho & Hr & ->).
    destruct Hclock as [Hb Hclock].
    assert (Halone : leaves_alone userId o) by (apply Hund; left; reflexivity).
    pose proof (step_user_ledger _ _ _ _ _ _ _ _ _ Hl Hb Halone Ho) as Hl1.
    destruct (IH _ _ _ _ _ Hl1 Hclock (fun o' Ho' => Hund o' (or_intror Ho')) Hr) as [b' Hl'].
    exists b'. simpl combine. rewrite admitted_cons, app_assoc. exact Hl'.
Qed.

Lemma run_global_ledger cfg ops : forall s outs s' adm b,
  global_ledger cfg s adm b ->
  clock_from b ops ->
  run ops s = Some (outs, s') ->
  exists b', global_ledger cfg s' (adm ++ admitted_all (combine ops outs)) b'.
Proof.
  induction ops as [|o ops IH]; intros s outs s' adm b Hl Hclock Hrun.
  - injection Hrun as <- <-. simpl. rewrite app_nil_r. eauto.
  - destruct (run_cons _ _ _ _ _ Hrun) as (out & s1 & outs' & Ho & Hr & ->).
    destruct Hclock as [Hb Hclock].
    pose proof (step_global_ledger _ _ _ _ _ _ _ Hl Hb Ho) as Hl1.
    destruct (IH _ _ _ _ _ Hl1 Hclock Hr) as [b' Hl'].
    exists b'. simpl combine. rewrite admitted_all_cons, app_assoc. exact Hl'.
Qed.

Lemma new_user_ledger cfg premium userId b :
  quotas_nonneg cfg ->
  let s := newRateLimiter cfg premium in
  user_ledger userId (minuteLimitOf s userId) (hourLimitOf s userId) s [] b.
Proof.
  intros (H1 & H2 & H3 & H4 & _) s.
  split; [reflexivity |]. split; [reflexivity |]. split; [apply agrees_nil |].
  split; apply bounded_nil; unfold minuteLimitOf, hourLimitOf; simpl;
    destruct (bool_decide (userId ∈ premium)); assumption.
Qed.

Lemma new_global_ledger cfg premium b :
  quotas_nonneg cfg -> global_ledger cfg (newRateLimiter cfg premium) [] b.
Proof.
  intros (_ & _ & _ & _ & H5 & H6).
  split; [reflexivity |]. split; [apply agrees_nil |].
  split; apply bounded_nil; assumption.
Qed.

(** C1, as the code has it. In a run of calls from a new limiter, with
    quotas that are counts and a clock that does not run backwards: for a
    caller that no administrative call touches ([clearUserLimits],
    [addPremiumUser], [removePremiumUser]), the admitted calls in the 60
    seconds before any instant are no more than the minute quota of the
    caller's tier, and those in the 3600 seconds before it no more than the
    hour quota; and, whatever the administrative calls, the admitted calls
    of all callers in such windows are no more than the global minute and
    hour quotas. *)
Theorem admitted_within_quotas cfg premium ops outs s userId T :
  quotas_nonneg cfg ->
  clock_monotone ops ->
  run ops (newRateLimiter cfg premium) = Some (outs, s) ->
  (undisturbed userId ops ->
   in_trailing T MINUTE (admitted userId (combine ops outs)) <= minuteLimitOf s userId
   /\ in_trailing T HOUR (admitted userId (combine ops outs)) <= hourLimitOf s userId)
  /\ in_trailing T MINUTE (admitted_all (combine ops outs)) <= globalRequestsPerMinute cfg
  /\ in_trailing T HOUR (admitted_all (combine ops outs)) <= globalRequestsPerHour cfg.
Proof.
  intros Hq Hclock Hrun.
  destruct (clock_monotone_from ops Hclock) as [b Hb].
  split.
  - intros Hund.
    destruct (run_user_ledger _ _ _ _ _ _ _ _ _ (new_user_ledger cfg premium userId b Hq)
                Hb Hund Hrun) as (b' & Hml & Hhl & _ & Hbm & Hbh).
    simpl in Hbm, Hbh. rewrite Hml, Hhl. split; [apply Hbm | apply Hbh].
  - destruct (run_global_ledger _ _ _ _ _ _ _ (new_global_ledger cfg premium b Hq)
                Hb Hrun) as (b' & _ & _ & Hbm & Hbh).
    simpl in Hbm, Hbh. split; [apply Hbm | apply Hbh].
Qed.

Lemma admitted_within_quotas_witness :
  let ops := repeat (CheckRateLimit "u" 0) 12 ++ [Cleanup 1000; CheckRateLimit "v" 2000] in
  exists outs s,
    run ops (newRateLimiter defaultConfig ∅) = Some (outs, s)
    /\ in_trailing 2000 MINUTE (admitted "u" (combine ops outs)) = 10
    /\ in_trailing 2000 MINUTE (admitted "u" (combine ops outs)) <= minuteLimitOf s "u"
    /\ in_trailing 2000 MINUTE (admitted_all (combine ops outs)) <= 100.
Proof.
  intros ops.
  destruct (run ops (newRateLimiter defaultConfig ∅)) as [[outs s]|] eqn:E; [| vm_compute in E; discriminate E].
  assert (Hq : quotas_nonneg defaultConfig).
  { unfold quotas_nonneg. simpl. lia. }
  assert (Hc : clock_monotone ops).
  { unfold clock_monotone. simpl. lia. }
  assert (Hu : undisturbed "u" ops).
  { intros o Ho. simpl in Ho.
    repeat (destruct Ho as [<- | Ho]; [repeat split; discriminate |]). destruct Ho. }
  destruct (admitted_within_quotas defaultConfig ∅ ops outs s "u" 2000 Hq Hc E)
    as (Huser & Hgm & _).
  exists outs, s. split; [reflexivity |]. split; [| split; [apply Huser, Hu | exact Hgm]].
  vm_compute in E. injection E as <- _. reflexivity.
Defined.

(** C1 as the specification states it fails once an operator clears the
    caller's state: ten requests of ["u"] at the instant [0] are admitted,
    [clearUserLimits("u")] forgets them, and an eleventh at the same instant
    is admitted too, over the standard minute quota of [10]. A caller taken
    out of the premium tier after thirty admissions is over its quota in the
    same way, and so is one put into a premium tier configured with the
    smaller quota. *)
Lemma administrative_calls_break_caller_quota :
  (let ops := repeat (CheckRateLimit "u" 0) 10
              ++ [ClearUserLimits "u"; CheckRateLimit "u" 0] in
   exists outs s,
     run ops (newRateLimiter defaultConfig ∅) = Some (outs, s)
     /\ quotas_nonneg defaultConfig /\ clock_monotone ops
     /\ minuteLimitOf s "u" = 10
     /\ in_trailing 0 MINUTE (admitted "u" (combine ops outs)) = 11)
  /\ (let ops := repeat (CheckRateLimit "p" 0) 30 ++ [RemovePremiumUser "p"] in
      exists outs s,
        run ops (newRateLimiter defaultConfig {[ "p"%string ]}) = Some (outs, s)
        /\ quotas_nonneg defaultConfig /\ clock_monotone ops
        /\ minuteLimitOf s "p" = 10
        /\ in_trailing 0 MINUTE (admitted "p" (combine ops outs)) = 30)
  /\ (let cfg := {| userRequestsPerMinute := 10; userRequestsPerHour := 50;
                    globalRequestsPerMinute := 100; globalRequestsPerHour := 1000;
                    premiumUserRequestsPerMinute := 5; premiumUserRequestsPerHour := 200;
                    cooldownPeriod := 60000; tempBanDuration := 300000 |} in
      let ops := repeat (CheckRateLimit "q" 0) 10 ++ [AddPremiumUser "q"] in
      exists outs s,
        run ops (newRateLimiter cfg ∅) = Some (outs, s)
        /\ quotas_nonneg cfg /\ clock_monotone ops
        /\ minuteLimitOf s "q" = 5
        /\ in_trailing 0 MINUTE (admitted "q" (combine ops outs)) = 10).
Proof.
  assert (Hq : quotas_nonneg defaultConfig) by (unfold quotas_nonneg; simpl; lia).
  split; [| split]; intros ops.
  - destruct (run ops (newRateLimiter defaultConfig ∅)) as [[outs s]|] eqn:E;
      [| vm_compute in E; discriminate E].
    exists outs, s. split; [reflexivity |]. split; [exact Hq |].
    split; [unfold clock_monotone; simpl; lia |].
    vm_compute in E. injection E as <- <-. split; reflexivity.
  - destruct (run ops (newRateLimiter defaultConfig {[ "p"%string ]})) as [[outs s]|] eqn:E;
      [| vm_compute in E; discriminate E].
    exists outs, s. split; [reflexivity |]. split; [exact Hq |].
    split; [unfold clock_monotone; simpl; lia |].
    vm_compute in E. injection E as <- <-. split; reflexivity.
  - intros ops'.
    destruct (run ops' (newRateLimiter ops ∅)) as [[outs s]|] eqn:E;
      [| vm_compute in E; discriminate E].
    exists outs, s. split; [reflexivity |].
    split; [unfold quotas_nonneg; simpl; lia |].
    split; [unfold clock_monotone; simpl; lia |].
    vm_compute in E. injection E as <- <-. split; reflexivity.
Qed.

(** ** The violation counter and the bans over a run *)

Lemma violations_of_nonneg s userId :
  violations_nonneg s -> nonneg (violations_of s userId).
Proof.
  intros H. unfold violations_of, userDataOf.
  destruct (userLimits s !! userId) as [d|] eqn:E; simpl.
  - apply (H _ _ E).
  - apply F.nonneg_zero.
Qed.

Lemma quota_outcome_violations_nonneg userId now s r s' :
  violations_nonneg s -> quota_outcome userId now s r s' -> violations_nonneg s'.
Proof.
  intros Hs Hq.
  pose proof (violations_of_nonneg s userId Hs) as Hv.
  assert (Hins : forall reqs v t,
            nonneg v ->
            userLimits t = <[userId := {| requests := reqs; violations := v |}]> (userLimits s) ->
            violations_nonneg t).
  { intros reqs v t Hn Ht u d. rewrite Ht.
    destruct (decide (userId = u)) as [-> | Hne].
    - rewrite lookup_insert_eq. intros [= <-]. exact Hn.
    - rewrite lookup_insert_ne by exact Hne. apply Hs. }
  destruct Hq; repeat match goal with x := _ |- _ => subst x end;
    (eapply Hins; [| reflexivity]);
    auto using F.nonneg_succ, F.or_zero_nonneg, F.nonneg_decay.
Qed.

Lemma step_violations_nonneg o s out s1 :
  violations_nonneg s -> step o s = Some (out, s1) -> violations_nonneg s1.
Proof.
  intros Hs Hstep.
  destruct o as [u now | now | u now | now | u | u | u]; simpl in Hstep.
  - destruct (checkRateLimit u now s) as [[r s']|] eqn:E; simpl in Hstep; [| discriminate].
    injection Hstep as <- <-. apply checkRateLimit_outcome in E.
    destruct E as [e He Hlt | e r s' He Hge Hq | r s' He Hq].
    + exact Hs.
    + eapply quota_outcome_violations_nonneg; [| exact Hq]. exact Hs.
    + eapply quota_outcome_violations_nonneg; [| exact Hq]. exact Hs.
  - injection Hstep as <- <-. intros u d. unfold cleanup. simpl.
    rewrite lookup_omap. destruct (userLimits s !! u) as [d0|] eqn:E; simpl; [| discriminate].
    unfold cleanupUser. destruct (_ && _); [discriminate |].
    intros [= <-]. simpl. apply (Hs _ _ E).
  - injection Hstep as <- <-. exact Hs.
  - injection Hstep as <- <-. exact Hs.
  - injection Hstep as <- <-. exact Hs.
  - injection Hstep as <- <-. exact Hs.
  - injection Hstep as <- <-. intros x d. simpl. rewrite lookup_delete_Some.
    intros [_ H]. apply (Hs _ _ H).
Qed.

Lemma new_violations_nonneg cfg premium : violations_nonneg (newRateLimiter cfg premium).
Proof. intros u d. simpl. rewrite lookup_empty. discriminate. Qed.

Lemma quota_outcome_bans userId now s r s' :
  bans_have_records s -> tempBans s !! userId = None ->
  quota_outcome userId now s r s' -> bans_have_records s'.
Proof.
  intros Hs Hn Hq.
  assert (Hkeep : forall d t,
            userLimits t = <[userId := d]> (userLimits s) ->
            tempBans t = tempBans s -> bans_have_records t).
  { intros d t Hu Hb x e. rewrite Hu, Hb.
    destruct (decide (userId = x)) as [<- | Hne].
    - rewrite Hn. discriminate.
    - rewrite lookup_insert_ne by exact Hne. apply Hs. }
  destruct Hq as [reqs v Hm Hv | | | | | ];
    try (eapply Hkeep; reflexivity).
  intros x e. simpl.
  destruct (decide (userId = x)) as [<- | Hne].
  - rewrite !lookup_insert_eq. intros _. eexists. split; [reflexivity | exact Hv].
  - rewrite !lookup_insert_ne by exact Hne. apply Hs.
Qed.

Lemma step_bans_have_records o s out s1 :
  bans_have_records s -> step o s = Some (out, s1) -> bans_have_records s1.
Proof.
  intros Hs Hstep.
  destruct o as [u now | now | u now | now | u | u | u]; simpl in Hstep.
  - destruct (checkRateLimit u now s) as [[r s']|] eqn:E; simpl in Hstep; [| discriminate].
    injection Hstep as <- <-. apply checkRateLimit_outcome in E.
    destruct E as [e He Hlt | e r s' He Hge Hq | r s' He Hq].
    + exact Hs.
    + eapply quota_outcome_bans; [| | exact Hq].
      * intros x e'. simpl. rewrite lookup_delete_Some. intros [_ H]. apply (Hs _ _ H).
      * simpl. apply lookup_delete_eq.
    + eapply quota_outcome_bans; [exact Hs | exact He | exact Hq].
  - injection Hstep as <- <-. intros x e. unfold cleanup. simpl.
    rewrite !lookup_omap.
    destruct (tempBans s !! x) as [e0|] eqn:E; simpl; [| discriminate].
    destruct (e0 <? now); [discriminate |]. intros _.
    destruct (Hs _ _ E) as (d & Hd & Hv). rewrite Hd. simpl.
    unfold cleanupUser. rewrite (F.leb_three_not_zero _ Hv), andb_false_r.
    eexists. split; [reflexivity | exact Hv].
  - injection Hstep as <- <-. exact Hs.
  - injection Hstep as <- <-. exact Hs.
  - injection Hstep as <- <-. exact Hs.
  - injection Hstep as <- <-. exact Hs.
  - injection Hstep as <- <-. intros x e. simpl. rewrite lookup_delete_Some.
    intros [Hne H]. destruct (Hs _ _ H) as (d & Hd & Hv).
    exists d. rewrite lookup_delete_ne by exact Hne. auto.
Qed.

Lemma new_bans_have_records cfg premium : bans_have_records (newRateLimiter cfg premium).
Proof. intros u e. simpl. rewrite lookup_empty. discriminate. Qed.

Lemma allowed_decays userId now s r s' :
  checkRateLimit userId now s = Some (r, s') ->
  allowed r = true ->
  violations_of s' userId = decay (violations_of s userId).
Proof.
  intros H Ha.
  destruct (check_outcome_cases _ _ _ _ _ H) as [(_ & Hf & _) | (s0 & Hq & Hu & Hg & Hc & Hp)];
    [congruence |].
  destruct (state_views_eq s0 s userId Hu Hg Hc Hp) as (_ & Ev & _).
  destruct Hq; try discriminate.
  erewrite violations_of_insert by reflexivity. simpl. rewrite Ev. reflexivity.
Qed.

Lemma admitted_run_decays userId times : forall s outs s',
  run (map (CheckRateLimit userId) times) s = Some (outs, s') ->
  Forall admitted_output outs ->
  violations_of s' userId = Nat.iter (length times) decay (violations_of s userId).
Proof.
  induction times as [|t times IH]; intros s outs s' Hrun Hall.
  - injection Hrun as _ <-. reflexivity.
  - simpl map in Hrun.
    destruct (run_cons _ _ _ _ _ Hrun) as (out & s1 & outs' & Ho & Hr & ->).
    inversion Hall as [|? ? (r & -> & Ha) Hall']; subst.
    simpl in Ho.
    destruct (checkRateLimit userId t s) as [[r0 s0]|] eqn:E; simpl in Ho; [| discriminate].
    injection Ho as -> ->.
    rewrite (IH _ _ _ Hr Hall'), (allowed_decays _ _ _ _ _ E Ha).
    simpl length. rewrite Nat.iter_succ_r. reflexivity.
Qed.

(** C7, as the code has it. In every state a run from a new limiter reaches,
    the violation counter of every record is [>= 0]. An admitted request
    takes the caller's counter [v] to [decay v], which is
    [Math.max(0, v - 0.1)] in binary64 arithmetic when [v > 0] and [v]
    otherwise, so [N] admitted requests of the caller in a row take it to
    the [N]-fold [decay] of [v], itself [>= 0]. For a counter that is the
    number [V], what is left is a number [V'] between [0] and [V], and the
    loss [V - V'] is at most [min(V, N * (1/10 + e))] and at least
    [min(V, N * (1/10 - e))], where the allowance [e = V * 2^-53 + 1/(5 *
    2^55)] covers the rounding of each subtraction and the distance of the
    double [0.1] from [1/10]. *)
Theorem violations_decay_never_negative cfg premium ops outs s :
  run ops (newRateLimiter cfg premium) = Some (outs, s) ->
  violations_nonneg s
  /\ forall userId times outs' s',
       run (map (CheckRateLimit userId) times) s = Some (outs', s') ->
       Forall admitted_output outs' ->
       violations_of s' userId = Nat.iter (length times) decay (violations_of s userId)
       /\ nonneg (violations_of s' userId)
       /\ forall V,
            float_value (violations_of s userId) = Some V ->
            let N := inject_Z (Z.of_nat (length times)) in
            exists V',
              float_value (violations_of s' userId) = Some V'
              /\ (0 <= V')%Q /\ (V' <= V)%Q
              /\ (V - V' <= Qmin V (N * ((1 # 10) + rounding_allowance V)))%Q
              /\ (Qmin V (N * ((1 # 10) - rounding_allowance V)) <= V - V')%Q.
Proof.
  intros Hrun.
  assert (Hs : violations_nonneg s).
  { eapply (run_invariant violations_nonneg); [| apply new_violations_nonneg | exact Hrun].
    intros o t out t1. apply step_violations_nonneg. }
  split; [exact Hs |].
  intros userId times outs' s' Hrun' Hall.
  pose proof (admitted_run_decays _ _ _ _ _ Hrun' Hall) as Hiter.
  split; [exact Hiter |]. split.
  - apply violations_of_nonneg.
    eapply (run_invariant violations_nonneg); [| exact Hs | exact Hrun'].
    intros o t out t1. apply step_violations_nonneg.
  - intros V HV N.
    destruct (Rounding.iter_decay_value (length times) _ V
                (violations_of_nonneg s userId Hs) HV)
      as (V' & HV' & H0 & H1 & Hlo & Hhi).
    fold N in Hlo, Hhi.
    assert (HN : (0 <= N)%Q).
    { unfold N. change 0%Q with (inject_Z 0). rewrite <- Zle_Qle. lia. }
    exists V'. rewrite Hiter. split; [exact HV' |]. split; [exact H0 |]. split; [exact H1 |].
    unfold rounding_allowance, tenth in *. split.
    + apply Q.min_glb; lra.
    + destruct Hhi as [Hz | Hhi].
      * eapply Qle_trans; [apply Q.le_min_l | lra].
      * eapply Qle_trans; [apply Q.le_min_r | lra].
Qed.

Lemma violations_decay_never_negative_witness :
  let ops := repeat (CheckRateLimit "u" 0) 11 in
  exists outs s outs' s' V V',
    run ops (newRateLimiter defaultConfig ∅) = Some (outs, s)
    /\ violations_of s "u" = 1%float
    /\ run (map (CheckRateLimit "u") [70000; 70001; 70002]) s = Some (outs', s')
    /\ violations_of s' "u" = 0.7000000000000001%float
    /\ nonneg (violations_of s' "u")
    /\ float_value (violations_of s "u") = Some V /\ (V == 1)%Q
    /\ float_value (violations_of s' "u") = Some V'
    /\ (V - V' <= Qmin V (3 * ((1 # 10) + rounding_allowance V)))%Q
    /\ (Qmin V (3 * ((1 # 10) - rounding_allowance V)) <= V - V')%Q.
Proof.
  intros ops.
  destruct (run ops (newRateLimiter defaultConfig ∅)) as [[outs s]|] eqn:E;
    [| vm_compute in E; discriminate E].
  destruct (run (map (CheckRateLimit "u") [70000; 70001; 70002]) s) as [[outs' s']|] eqn:E';
    [| vm_compute in E; injection E as <- <-; vm_compute in E'; discriminate E'].
  destruct (violations_decay_never_negative defaultConfig ∅ ops outs s E) as [_ H].
  assert (Hall : Forall admitted_output outs').
  { vm_compute in E. injection E as <- <-. vm_compute in E'. injection E' as <- _.
    repeat constructor; eexists; split; reflexivity. }
  destruct (H "u" [70000; 70001; 70002] outs' s' E' Hall) as (Hv & Hn & Hbound).
  assert (Hs : violations_of s "u" = 1%float).
  { vm_compute in E. injection E as <- <-. reflexivity. }
  assert (HV : float_value (violations_of s "u")
               = Some (inject_Z 4503599627370496 * Qpower 2 (-52))%Q).
  { rewrite Hs. reflexivity. }
  destruct (Hbound _ HV) as (V' & HV' & _ & _ & Hup & Hlow).
  exists outs, s, outs', s', (inject_Z 4503599627370496 * Qpower 2 (-52))%Q, V'.
  split; [reflexivity |]. split; [exact Hs |]. split; [exact E' |].
  split; [rewrite Hv, Hs; reflexivity |]. split; [exact Hn |].
  split; [exact HV |]. split; [reflexivity |]. split; [exact HV' |].
  split; [exact Hup | exact Hlow].
Defined.

(** C7 as the specification states it fails by the rounding of binary64
    subtraction. After three breaches the counter of ["u"] is [3]; the ban
    over, one admitted request takes it to [3 - 0.1], the double
    [2.899999999999999911...]: a loss of [0.10000000000000009], more than
    [min(3, 0.1 * 1)], compared as JavaScript does and as rational numbers. *)
Lemma decay_step_exceeds_one_tenth :
  let ops := repeat (CheckRateLimit "u" 0) 11 ++ repeat (CheckRateLimit "u" 1) 2 in
  exists outs s r s' V V',
    run ops (newRateLimiter defaultConfig ∅) = Some (outs, s)
    /\ violations_of s "u" = 3%float
    /\ checkRateLimit "u" 300001 s = Some (r, s')
    /\ allowed r = true
    /\ violations_of s' "u" = (3 - 0.1)%float
    /\ (3 - violations_of s' "u" <=? 0.1 * 1)%float = false
    /\ float_value (violations_of s "u") = Some V
    /\ float_value (violations_of s' "u") = Some V'
    /\ (V == 3)%Q
    /\ ((1 # 10) * 1 < V - V')%Q.
Proof.
  intros ops.
  destruct (run ops (newRateLimiter defaultConfig ∅)) as [[outs s]|] eqn:E;
    [| vm_compute in E; discriminate E].
  vm_compute in E. injection E as <- <-.
  eexists _, _, _, _, _, _. split; [reflexivity |]. split; [reflexivity |].
  split; [vm_compute; reflexivity |]. split; [reflexivity |]. split; [reflexivity |].
  split; [reflexivity |]. split; [vm_compute; reflexivity |].
  split; [vm_compute; reflexivity |]. split; vm_compute; reflexivity.
Qed.

(** C10. [getUserStats] returns the limiter it was given: records, global
    record, bans and premium set are unchanged. In every state a run from a
    new limiter reaches, a caller without a record is reported with zero
    requests used in the minute and in the hour, zero violations and no ban,
    and still has no record afterwards. *)
Theorem getUserStats_reads_only cfg premium ops outs s userId now :
  run ops (newRateLimiter cfg premium) = Some (outs, s) ->
  snd (getUserStats userId now s) = s
  /\ (userLimits s !! userId = None ->
      let st := fst (getUserStats userId now s) in
      used (usage_minute st) = 0 /\ used (usage_hour st) = 0
      /\ stat_violations st = 0%float /\ tempBanned st = false
      /\ userLimits (snd (getUserStats userId now s)) !! userId = None).
Proof.
  intros Hrun. split; [reflexivity |].
  intros Hn st. subst st. unfold getUserStats. simpl. rewrite Hn. simpl.
  split; [reflexivity |]. split; [reflexivity |]. split; [reflexivity |].
  split; [| reflexivity].
  assert (Hb : bans_have_records s).
  { eapply (run_invariant bans_have_records); [| apply new_bans_have_records | exact Hrun].
    intros o t out t1. apply step_bans_have_records. }
  apply bool_decide_eq_false_2. intros [e He].
  destruct (Hb _ _ He) as (d & Hd & _). congruence.
Qed.

Lemma getUserStats_reads_only_witness :
  let ops := repeat (CheckRateLimit "u" 0) 13 ++ [ClearUserLimits "u"] in
  exists outs s,
    run ops (newRateLimiter defaultConfig ∅) = Some (outs, s)
    /\ snd (getUserStats "u" 5 s) = s
    /\ fst (getUserStats "u" 5 s)
       = {| isPremium := false;
            usage_minute := {| used := 0; limit := 10 |};
            usage_hour := {| used := 0; limit := 50 |};
            stat_violations := 0;
            tempBanned := false |}.
Proof.
  intros ops.
  destruct (run ops (newRateLimiter defaultConfig ∅)) as [[outs s]|] eqn:E;
    [| vm_compute in E; discriminate E].
  destruct (getUserStats_reads_only defaultConfig ∅ ops outs s "u" 5 E) as [H1 H2].
  exists outs, s. split; [reflexivity |]. split; [exact H1 |].
  vm_compute in E. injection E as <- <-. reflexivity.
Defined.

(** * Further properties of the limiter *)

(** ** The order of the checks *)

(** Every way through [checkRateLimit], told from the state before the
    call. *)
Lemma check_cases userId now s r s' :
  checkRateLimit userId now s = Some (r, s') ->
  (exists banExpiry,
     tempBans s !! userId = Some banExpiry /\ now < banExpiry
     /\ reason r = Some temp_ban /\ allowed r = false)
  \/ (no_active_ban s userId now /\ quota_case s userId now r).
Proof.
  intros H. pose proof (checkRateLimit_outcome _ _ _ _ _ H) as Ho.
  assert (Hq : forall s0,
            quota_outcome userId now s0 r s' ->
            userLimits s0 = userLimits s -> globalLimits s0 = globalLimits s ->
            config s0 = config s -> premiumUsers s0 = premiumUsers s ->
            quota_case s userId now r).
  { intros s0 Hq Hu Hg Hc Hp.
    destruct (state_views_eq s0 s userId Hu Hg Hc Hp) as (Er & _ & Eg & Eml & Ehl).
    unfold quota_case, recentMinuteOf, recentHourOf, globalMinuteOf, globalHourOf.
    destruct Hq; repeat match goal with x := _ |- _ => subst x end;
      rewrite ?within_minute_hour, ?Er, ?Eg, ?Eml, ?Ehl, ?Hc in *; simpl.
    - left. auto.
    - left. auto.
    - right; left. auto.
    - right; right; left. auto.
    - right; right; right; left. auto 10.
    - right; right; right; right. auto 10. }
  destruct Ho as [e He Hlt | e r s' He Hge Hq' | r s' He Hq'].
  - left. exists e. auto.
  - right. split; [intros e' He'; congruence |].
    eapply Hq; [exact Hq' | reflexivity ..].
  - right. split; [intros e' He'; congruence |].
    eapply Hq; [exact Hq' | reflexivity ..].
Qed.

(** X1. [recordRequest] raises a [TypeError] on a caller that has no record
    and [recordGlobalRequest] on a limiter that has no global record, and
    append the instant otherwise; [checkRateLimit] never raises, whatever the
    state, because both checks store their record before anything is
    recorded. *)
Theorem checkRateLimit_never_throws userId now s :
  (exists r s', checkRateLimit userId now s = Some (r, s'))
  /\ (recordRequest userId now s = None <-> userLimits s !! userId = None)
  /\ (recordGlobalRequest now s = None <-> globalLimits s !! "global"%string = None)
  /\ (forall s', recordRequest userId now s = Some s' ->
        requests_of s' userId = requests_of s userId ++ [now])
  /\ (forall s', recordGlobalRequest now s = Some s' ->
        global_of s' = global_of s ++ [now]).
Proof.
  split; [apply checkRateLimit_total |].
  unfold recordRequest, recordGlobalRequest, requests_of, global_of, userDataOf, globalDataOf.
  destruct (userLimits s !! userId) as [d|] eqn:Eu;
    destruct (globalLimits s !! "global"%string) as [g|] eqn:Eg;
    (split; [split; congruence |]); (split; [split; congruence |]);
    (split; [try discriminate | try discriminate]);
    intros s' [= <-]; simpl; rewrite lookup_insert_eq; reflexivity.
Qed.

(** X2. The checks are taken in a fixed order and the first that fails
    decides: a call is denied [temp_ban] exactly when a ban record with a
    later expiry exists; otherwise it is answered for the caller's minute
    quota ([minute_limit] or [temp_ban_applied]) exactly when the trailing
    minute is full, [hour_limit] exactly when the minute passes and the hour
    is full, [global_minute_limit] and [global_hour_limit] likewise after the
    caller's checks pass, and it is admitted exactly when no ban is in force
    and all four counts are under their quotas. *)
Theorem first_failing_check_decides userId now s r s' :
  checkRateLimit userId now s = Some (r, s') ->
  let active := exists banExpiry, tempBans s !! userId = Some banExpiry /\ now < banExpiry in
  let rm := recentMinuteOf s userId now in
  let rh := recentHourOf s userId now in
  let gm := globalMinuteOf s now in
  let gh := globalHourOf s now in
  let ml := minuteLimitOf s userId in
  let hl := hourLimitOf s userId in
  let gml := globalRequestsPerMinute (config s) in
  let ghl := globalRequestsPerHour (config s) in
  (reason r = Some temp_ban <-> active)
  /\ (reason r = Some temp_ban_applied \/ reason r = Some minute_limit
      <-> ~ active /\ ml <= rm)
  /\ (reason r = Some hour_limit <-> ~ active /\ rm < ml /\ hl <= rh)
  /\ (reason r = Some global_minute_limit
      <-> ~ active /\ rm < ml /\ rh < hl /\ gml <= gm)
  /\ (reason r = Some global_hour_limit
      <-> ~ active /\ rm < ml /\ rh < hl /\ gm < gml /\ ghl <= gh)
  /\ (allowed r = true
      <-> ~ active /\ rm < ml /\ rh < hl /\ gm < gml /\ gh < ghl)
  /\ (allowed r = true <-> reason r = None).
Proof.
  intros H active rm rh gm gh ml hl gml ghl.
  destruct (check_cases _ _ _ _ _ H) as [(e & He & Hlt & Hr & Ha) | [Hn Hq]].
  - assert (Hact : active) by (exists e; auto).
    rewrite Hr, Ha.
    repeat split; intros; try discriminate; try tauto;
      try (destruct H0; discriminate).
  - assert (Hna : ~ active).
    { intros (e & He & Hlt). specialize (Hn e He). lia. }
    unfold quota_case in Hq. fold rm rh gm gh ml hl gml ghl in Hq.
    destruct Hq as [(H1 & Hr & Ha) | [(H1 & H2 & Hr & Ha) | [(H1 & H2 & H3 & Hr & Ha)
                   | [(H1 & H2 & H3 & H4 & Hr & Ha) | (H1 & H2 & H3 & H4 & Hr & Ha)]]]];
      rewrite Ha; try rewrite Hr;
      repeat split; intros; try discriminate; try tauto; try lia;
      try (destruct Hr as [Hr | Hr]; rewrite Hr in *; try discriminate; tauto);
      try (destruct H0; discriminate); try (destruct H0; tauto).
Qed.

Lemma first_failing_check_decides_witness :
  let s := with_userLimits
             {[ "u"%string := {| requests := [0; 0; 0; 0; 0; 0; 0; 0; 0; 2000];
                                 violations := 0 |} ]}
             (newRateLimiter defaultConfig ∅) in
  exists r s',
    checkRateLimit "u" 5000 s = Some (r, s')
    /\ reason r = Some minute_limit
    /\ minuteLimitOf s "u" <= recentMinuteOf s "u" 5000.
Proof.
  intros s.
  destruct (checkRateLimit "u" 5000 s) as [[r s']|] eqn:E;
    [| vm_compute in E; discriminate E].
  assert (Hr : reason r = Some minute_limit).
  { vm_compute in E. injection E as <- _. reflexivity. }
  destruct (first_failing_check_decides "u" 5000 s r s' E) as (_ & [Hm _] & _).
  exists r, s'. split; [reflexivity |]. split; [exact Hr |].
  exact (proj2 (Hm (or_intror Hr))).
Defined.

(** ** The retry hints *)

Lemma retry_millis_IntNum k : retry_millis (IntNum k) = Some (1000 * k).
Proof.
  unfold retry_millis, IntNum, inject_Z. simpl Qnum. simpl Qden.
  rewrite Z.div_1_r. f_equal. lia.
Qed.

Lemma retry_millis_quot d : retry_millis (Num (d # 1000)) = Some d.
Proof.
  unfold retry_millis. simpl Qnum. simpl Qden.
  replace (- (1000 * d)) with ((- d) * 1000) by lia.
  rewrite Z.div_mul by lia. f_equal. lia.
Qed.

Lemma within_later_narrow now later w l :
  now <= later -> w <= HOUR ->
  within later w (within now HOUR l) = within later w l.
Proof.
  intros Hle Hw. unfold within. induction l as [|t l IH]; simpl; [reflexivity |].
  destruct (Z.ltb_spec (now - t) HOUR); simpl; rewrite IH; [reflexivity |].
  destruct (Z.ltb_spec (later - t) w); [lia | reflexivity].
Qed.

Lemma within_nil_iff now w l :
  within now w l = [] <-> forall t, In t l -> w <= now - t.
Proof.
  unfold within. induction l as [|a l IH]; simpl.
  - split; [intros _ t [] | reflexivity].
  - destruct (Z.ltb_spec (now - a) w).
    + split; [discriminate |]. intros H'. specialize (H' a (or_introl eq_refl)). lia.
    + rewrite IH. split.
      * intros H' t [<- | Ht]; [lia | auto].
      * intros H' t Ht. apply H'. right. exact Ht.
Qed.

Lemma in_within now w l t : In t (within now w l) <-> In t l /\ now - t < w.
Proof.
  unfold within. rewrite List.filter_In, Z.ltb_lt. reflexivity.
Qed.

Lemma within_drops now w l t :
  In t l -> w <= now - t -> (length (within now w l) < length l)%nat.
Proof.
  unfold within. induction l as [|a l IH]; simpl; [intros [] |].
  pose proof (List.filter_length_le (fun time => now - time <? w) l) as Hl.
  intros [<- | Ht] Hw.
  - destruct (Z.ltb_spec (now - a) w); [lia | simpl; lia].
  - specialize (IH Ht Hw). destruct (now - a <? w); simpl; lia.
Qed.

(** What a call leaves of the caller's ban record, and the [retryAfter] it
    answers, by reason. *)
Lemma check_post userId now s r s' :
  checkRateLimit userId now s = Some (r, s') ->
  (reason r = Some temp_ban ->
   s' = s /\ exists banExpiry,
     tempBans s !! userId = Some banExpiry /\ now < banExpiry
     /\ retryAfter r = Some (IntNum (ceil_div_1000 (banExpiry - now))))
  /\ (reason r = Some temp_ban_applied ->
      tempBans s' !! userId = Some (now + tempBanDuration (config s))
      /\ retryAfter r = Some (Num (tempBanDuration (config s) # 1000)))
  /\ (reason r <> Some temp_ban -> reason r <> Some temp_ban_applied ->
      tempBans s' !! userId = None)
  /\ (reason r = Some minute_limit ->
      retryAfter r = Some (minuteRetryAfter now (within now MINUTE (requests_of s userId))))
  /\ (reason r = Some hour_limit ->
      retryAfter r = Some (hourRetryAfter now (within now HOUR (requests_of s userId))))
  /\ (reason r = Some global_minute_limit -> retryAfter r = Some (IntNum 60))
  /\ (reason r = Some global_hour_limit -> retryAfter r = Some (IntNum 3600)).
Proof.
  intros H. apply checkRateLimit_outcome in H.
  assert (Hq : forall s0,
            quota_outcome userId now s0 r s' ->
            userLimits s0 = userLimits s -> config s0 = config s ->
            tempBans s0 !! userId = None ->
            (reason r = Some temp_ban_applied ->
             tempBans s' !! userId = Some (now + tempBanDuration (config s))
             /\ retryAfter r = Some (Num (tempBanDuration (config s) # 1000)))
            /\ (reason r <> Some temp_ban -> reason r <> Some temp_ban_applied ->
                tempBans s' !! userId = None)
            /\ (reason r = Some minute_limit ->
                retryAfter r
                = Some (minuteRetryAfter now (within now MINUTE (requests_of s userId))))
            /\ (reason r = Some hour_limit ->
                retryAfter r = Some (hourRetryAfter now (within now HOUR (requests_of s userId))))
            /\ (reason r = Some global_minute_limit -> retryAfter r = Some (IntNum 60))
            /\ (reason r = Some global_hour_limit -> retryAfter r = Some (IntNum 3600))).
  { intros s0 Hq Hu Hc Hb.
    assert (Er : requests_of s0 userId = requests_of s userId).
    { unfold requests_of, userDataOf. rewrite Hu. reflexivity. }
    destruct Hq; repeat match goal with x := _ |- _ => subst x end;
      rewrite ?within_minute_hour, ?Er, ?Hc in *; simpl;
      repeat match goal with |- _ /\ _ => split end;
      intros; try discriminate; try congruence; try reflexivity.
    split; [apply lookup_insert_eq | reflexivity]. }
  destruct H as [e He Hlt | e r s' He Hge Hq' | r s' He Hq'].
  - simpl. split; [intros _; split; [reflexivity | eauto] |].
    repeat match goal with |- _ /\ _ => split end;
      intros; try discriminate; congruence.
  - destruct (Hq _ Hq' eq_refl eq_refl (lookup_delete_eq _ _)) as (? & ? & ? & ? & ? & ?).
    split; [intros Hr; exfalso; eapply quota_outcome_not_temp_ban; eassumption |].
    auto 10.
  - destruct (Hq _ Hq' eq_refl eq_refl He) as (? & ? & ? & ? & ? & ?).
    split; [intros Hr; exfalso; eapply quota_outcome_not_temp_ban; eassumption |].
    auto 10.
Qed.

Lemma reason_inv userId now s r s' :
  checkRateLimit userId now s = Some (r, s') ->
  (reason r = Some temp_ban ->
   exists banExpiry, tempBans s !! userId = Some banExpiry /\ now < banExpiry)
  /\ (reason r = Some temp_ban_applied \/ reason r = Some minute_limit ->
      minuteLimitOf s userId <= recentMinuteOf s userId now)
  /\ (reason r = Some hour_limit -> hourLimitOf s userId <= recentHourOf s userId now)
  /\ (reason r = Some global_minute_limit ->
      globalRequestsPerMinute (config s) <= globalMinuteOf s now)
  /\ (reason r = Some global_hour_limit ->
      globalRequestsPerHour (config s) <= globalHourOf s now).
Proof.
  intros H.
  destruct (check_cases _ _ _ _ _ H) as [(e & He & Hlt & Hr & Ha) | [Hn Hq]].
  - rewrite Hr. repeat match goal with |- _ /\ _ => split end;
      intros; try discriminate; eauto. destruct H0; discriminate.
  - destruct Hq as [(H1 & Hr & Ha) | [(H1 & H2 & Hr & Ha) | [(H1 & H2 & H3 & Hr & Ha)
                   | [(H1 & H2 & H3 & H4 & Hr & Ha) | (H1 & H2 & H3 & H4 & Hr & Ha)]]]];
      repeat match goal with |- _ /\ _ => split end; intros;
      try (destruct Hr as [Hr | Hr]); rewrite Hr in *;
      try discriminate; try assumption;
      try (match goal with H : _ \/ _ |- _ => destruct H; discriminate end).
Qed.

Lemma denied_requests_later userId now later w s r s' :
  checkRateLimit userId now s = Some (r, s') ->
  allowed r = false -> now <= later -> w <= HOUR ->
  within later w (requests_of s' userId) = within later w (requests_of s userId).
Proof.
  intros H Ha Hle Hw.
  destruct (checkRateLimit_effect _ _ _ _ _ H) as (_ & _ & _ & Heff).
  rewrite Ha in Heff. destruct Heff as [[-> | ->] _]; [reflexivity |].
  apply within_later_narrow; assumption.
Qed.

Lemma denied_global_later userId now later w s r s' :
  checkRateLimit userId now s = Some (r, s') ->
  allowed r = false -> now <= later -> w <= HOUR ->
  within later w (global_of s') = within later w (global_of s).
Proof.
  intros H Ha Hle Hw.
  destruct (checkRateLimit_effect _ _ _ _ _ H) as (_ & _ & _ & Heff).
  rewrite Ha in Heff. destruct Heff as [_ [-> | ->]]; [reflexivity |].
  apply within_later_narrow; assumption.
Qed.

Lemma IntNum_inj a b : IntNum a = IntNum b -> a = b.
Proof. unfold IntNum, inject_Z. intros [= H]. exact H. Qed.

(** X4. The retry hints of the global denials are long enough. When no
    instant of the global history is after [now] and the global quotas are
    positive, a call of any caller [retryAfter] seconds or more after a
    denial [global_minute_limit], with no call in between, is not denied
    [global_minute_limit]; after [global_hour_limit] it is denied for neither
    global quota. *)
Theorem global_retry_hint_suffices userId now s r s' other later r2 s2 ms :
  checkRateLimit userId now s = Some (r, s') ->
  checkRateLimit other later s' = Some (r2, s2) ->
  retryAfter r ≫= retry_millis = Some ms ->
  now + ms <= later ->
  (forall t, In t (global_of s) -> t <= now) ->
  0 < globalRequestsPerMinute (config s) ->
  0 < globalRequestsPerHour (config s) ->
  (reason r = Some global_minute_limit -> reason r2 <> Some global_minute_limit)
  /\ (reason r = Some global_hour_limit ->
      reason r2 <> Some global_minute_limit /\ reason r2 <> Some global_hour_limit).
Proof.
  intros H1 H2 Hms Hlater Hpast Hgm Hgh.
  destruct (check_post _ _ _ _ _ H1) as (_ & _ & _ & _ & _ & Pgm & Pgh).
  destruct (reason_inv _ _ _ _ _ H2) as (_ & _ & _ & Igm & Igh).
  destruct (checkRateLimit_effect _ _ _ _ _ H1) as (Hc & _ & _ & _).
  rewrite Hc in Igm, Igh.
  assert (Ha : reason r = Some global_minute_limit \/ reason r = Some global_hour_limit ->
               allowed r = false).
  { intros Hr.
    destruct (check_cases _ _ _ _ _ H1) as [(? & ? & ? & ? & ?) | [_ Hq]]; [assumption |].
    unfold quota_case in Hq.
    destruct Hq as [(_ & _ & ?) | [(_ & _ & _ & ?) | [(_ & _ & _ & _ & ?)
                   | [(_ & _ & _ & _ & _ & ?) | (_ & _ & _ & _ & E & _)]]]];
      try assumption. rewrite E in Hr. destruct Hr; discriminate. }
  assert (Hempty : forall w, 0 <= w <= HOUR -> w <= ms -> allowed r = false ->
                             within later w (global_of s') = []).
  { intros w Hw Hwm Hden.
    rewrite (denied_global_later _ _ _ _ _ _ _ H1 Hden) by lia.
    apply within_nil_iff. intros t Ht. specialize (Hpast t Ht). lia. }
  split.
  - intros Hr Hr2. rewrite (Pgm Hr) in Hms. cbn [mbind option_bind] in Hms.
    rewrite retry_millis_IntNum in Hms. injection Hms as <-.
    specialize (Igm Hr2). unfold globalMinuteOf in Igm.
    rewrite (Hempty MINUTE ltac:(unfold MINUTE, HOUR; lia) ltac:(unfold MINUTE; lia)
               (Ha (or_introl Hr))) in Igm.
    simpl in Igm. lia.
  - intros Hr. rewrite (Pgh Hr) in Hms. cbn [mbind option_bind] in Hms.
    rewrite retry_millis_IntNum in Hms. injection Hms as <-.
    split; intros Hr2.
    + specialize (Igm Hr2). unfold globalMinuteOf in Igm.
      rewrite (Hempty MINUTE ltac:(unfold MINUTE, HOUR; lia) ltac:(unfold MINUTE; lia)
                 (Ha (or_intror Hr))) in Igm.
      simpl in Igm. lia.
    + specialize (Igh Hr2). unfold globalHourOf in Igh.
      rewrite (Hempty HOUR ltac:(unfold HOUR; lia) ltac:(unfold HOUR; lia)
                 (Ha (or_intror Hr))) in Igh.
      simpl in Igh. lia.
Qed.

Lemma global_retry_hint_suffices_witness :
  let cfg := {| userRequestsPerMinute := 10; userRequestsPerHour := 50;
                globalRequestsPerMinute := 1; globalRequestsPerHour := 1000;
                premiumUserRequestsPerMinute := 30; premiumUserRequestsPerHour := 200;
                cooldownPeriod := 60000; tempBanDuration := 300000 |} in
  let s := with_globalLimits
             {[ "global"%string := {| global_requests := [70000] |} ]}
             (newRateLimiter cfg ∅) in
  exists r s' r2 s2,
    checkRateLimit "b" 70001 s = Some (r, s')
    /\ reason r = Some global_minute_limit
    /\ checkRateLimit "c" 130001 s' = Some (r2, s2)
    /\ reason r2 <> Some global_minute_limit.
Proof.
  intros cfg s.
  destruct (checkRateLimit "b" 70001 s) as [[r s']|] eqn:E;
    [| vm_compute in E; discriminate E].
  destruct (checkRateLimit "c" 130001 s') as [[r2 s2]|] eqn:E2;
    [| destruct (checkRateLimit_total "c" 130001 s') as (? & ? & ?); congruence].
  assert (Hr : reason r = Some global_minute_limit
               /\ retryAfter r ≫= retry_millis = Some 60000).
  { vm_compute in E. injection E as <- _. split; reflexivity. }
  destruct Hr as [Hr Hms].
  assert (Hpast : forall t, In t (global_of s) -> t <= 70001).
  { intros t [<- | []]. lia. }
  destruct (global_retry_hint_suffices "b" 70001 s r s' "c" 130001 r2 s2 60000
              E E2 Hms ltac:(lia) Hpast ltac:(simpl; lia) ltac:(simpl; lia)) as [Hgm _].
  exists r, s', r2, s2. split; [reflexivity |]. split; [exact Hr |].
  split; [exact E2 |]. exact (Hgm Hr).
Defined.

(** ** Bans *)

(** X5. While a ban is in force the caller can change nothing: any number
    of their calls before the expiry are each answered [temp_ban], with a
    [retryAfter] of at least one second, and leave the whole limiter as it
    was (no violation is added, the ban is not extended, nothing is
    recorded). *)
Theorem banned_calls_change_nothing userId banExpiry s times :
  tempBans s !! userId = Some banExpiry ->
  (forall t, In t times -> t < banExpiry) ->
  run (map (CheckRateLimit userId) times) s
  = Some (map (temp_ban_answer banExpiry) times, s)
  /\ forall t, In t times -> 1 <= ceil_div_1000 (banExpiry - t).
Proof.
  intros Hb Ht. split.
  - induction times as [|t times IH]; [reflexivity |].
    simpl. unfold checkRateLimit at 1. rewrite Hb.
    destruct (Z.ltb_spec t banExpiry) as [_ | Hge].
    + simpl. rewrite IH by (intros t' Ht'; apply Ht; right; exact Ht'). reflexivity.
    + specialize (Ht t (or_introl eq_refl)). lia.
  - intros t Hin. specialize (Ht t Hin).
    pose proof (ceil_div_1000_spec (banExpiry - t)). lia.
Qed.

Lemma banned_calls_change_nothing_witness :
  let s := with_tempBans {[ "u"%string := 300000 ]} (newRateLimiter defaultConfig ∅) in
  run (map (CheckRateLimit "u") [1000; 1500; 299999]) s
  = Some ([temp_ban_answer 300000 1000; temp_ban_answer 300000 1500;
           temp_ban_answer 300000 299999], s).
Proof.
  intros s.
  refine (proj1 (banned_calls_change_nothing "u" 300000 s [1000; 1500; 299999] _ _)).
  - reflexivity.
  - intros t Ht. simpl in Ht. lia.
Defined.

Lemma run_log_invariant (P : list (Op * Output) -> RateLimiter -> Prop) :
  (forall log o s out s1,
     P log s -> step o s = Some (out, s1) -> P (log ++ [(o, out)]) s1) ->
  forall ops log s outs s',
    P log s -> run ops s = Some (outs, s') -> P (log ++ combine ops outs) s'.
Proof.
  intros Hstep. induction ops as [|o ops IH]; intros log s outs s' HP Hrun.
  - injection Hrun as <- <-. simpl. rewrite app_nil_r. exact HP.
  - destruct (run_cons _ _ _ _ _ Hrun) as (out & s1 & outs' & Ho & Hr & ->).
    simpl combine.
    replace (log ++ (o, out) :: combine ops outs')
      with ((log ++ [(o, out)]) ++ combine ops outs')
      by (rewrite <- app_assoc; reflexivity).
    eapply IH; [eapply Hstep; eassumption | exact Hr].
Qed.

Lemma step_bans_logged cfg log o s out s1 :
  bans_logged cfg log s -> step o s = Some (out, s1) ->
  bans_logged cfg (log ++ [(o, out)]) s1.
Proof.
  intros [Hc Hb] Hstep.
  destruct (step_effect_global _ _ _ _ Hstep) as [Hc1 _].
  split; [congruence |].
  assert (Hold : forall x e, tempBans s !! x = Some e ->
            exists now r, In (CheckRateLimit x now, Checked r) (log ++ [(o, out)])
                          /\ reason r = Some temp_ban_applied
                          /\ e = now + tempBanDuration cfg).
  { intros x e He. destruct (Hb x e He) as (now & r & Hin & Hr & Ee).
    exists now, r. split; [apply in_or_app; left; exact Hin | auto]. }
  destruct o as [u now | now | u now | now | u | u | u]; simpl in Hstep.
  - destruct (checkRateLimit u now s) as [[r s']|] eqn:E; simpl in Hstep; [| discriminate].
    injection Hstep as <- <-.
    destruct (check_post _ _ _ _ _ E) as (Pban & Papp & Pnone & _).
    destruct (checkRateLimit_outcome _ _ _ _ _ E) as [e He Hlt | e r s' He Hge Hq | r s' He Hq].
    + exact Hold.
    + intros x e'. destruct (decide (u = x)) as [<- | Hne].
      * destruct (quota_outcome_ban_record _ _ _ _ _ Hq) as [Hsame | [Hr Hnew]].
        -- rewrite Hsame. simpl. rewrite lookup_delete_eq. discriminate.
        -- simpl in Hnew. rewrite Hnew, Hc. intros [= <-].
           exists now, r. split; [apply in_or_app; right; left; reflexivity | auto].
      * assert (Hx : tempBans s' !! x = tempBans s !! x).
        { destruct Hq; simpl; rewrite ?lookup_insert_ne by exact Hne;
            apply lookup_delete_ne; exact Hne. }
        rewrite Hx. apply Hold.
    + intros x e'. destruct (decide (u = x)) as [<- | Hne].
      * destruct (quota_outcome_ban_record _ _ _ _ _ Hq) as [Hsame | [Hr Hnew]].
        -- rewrite Hsame, He. discriminate.
        -- rewrite Hnew, Hc. intros [= <-].
           exists now, r. split; [apply in_or_app; right; left; reflexivity | auto].
      * assert (Hx : tempBans s' !! x = tempBans s !! x).
        { destruct Hq; simpl; rewrite ?lookup_insert_ne by exact Hne; reflexivity. }
        rewrite Hx. apply Hold.
  - injection Hstep as <- <-. intros x e. unfold cleanup. simpl. rewrite lookup_omap.
    destruct (tempBans s !! x) as [e0|] eqn:E; simpl; [| discriminate].
    destruct (e0 <? now); [discriminate |]. intros [= <-]. apply Hold, E.
  - injection Hstep as <- <-. exact Hold.
  - injection Hstep as <- <-. exact Hold.
  - injection Hstep as <- <-. exact Hold.
  - injection Hstep as <- <-. exact Hold.
  - injection Hstep as <- <-. intros x e. simpl. rewrite lookup_delete_Some.
    intros [_ H]. apply Hold, H.
Qed.

(** X6. In every state a run from a new limiter reaches, a ban record of a
    caller goes with a record of that caller whose violation counter is [>=
    3], and it was stored by a call of that caller in the run that answered
    [temp_ban_applied], with expiry that call's instant plus
    [tempBanDuration]: nothing else creates or extends a ban. *)
Theorem bans_come_from_breaches cfg premium ops outs s userId banExpiry :
  run ops (newRateLimiter cfg premium) = Some (outs, s) ->
  tempBans s !! userId = Some banExpiry ->
  (exists d, userLimits s !! userId = Some d /\ (3 <=? violations d)%float = true)
  /\ exists now r,
       In (CheckRateLimit userId now, Checked r) (combine ops outs)
       /\ reason r = Some temp_ban_applied
       /\ banExpiry = now + tempBanDuration cfg.
Proof.
  intros Hrun Hb. split.
  - eapply (run_invariant bans_have_records);
      [| apply new_bans_have_records | exact Hrun | exact Hb].
    intros o t out t1. apply step_bans_have_records.
  - assert (Hinit : bans_logged cfg [] (newRateLimiter cfg premium)).
    { split; [reflexivity |]. intros u e. simpl. rewrite lookup_empty. discriminate. }
    destruct (run_log_invariant (bans_logged cfg) (step_bans_logged cfg)
                ops [] _ outs s Hinit Hrun) as [_ H].
    apply H, Hb.
Qed.

Lemma bans_come_from_breaches_witness :
  let ops := repeat (CheckRateLimit "u" 0) 11 ++ repeat (CheckRateLimit "u" 7) 2 in
  exists outs s,
    run ops (newRateLimiter defaultConfig ∅) = Some (outs, s)
    /\ tempBans s !! "u"%string = Some 300007
    /\ exists now r,
         In (CheckRateLimit "u" now, Checked r) (combine ops outs)
         /\ reason r = Some temp_ban_applied
         /\ 300007 = now + 300000.
Proof.
  intros ops.
  destruct (run ops (newRateLimiter defaultConfig ∅)) as [[outs s]|] eqn:E;
    [| vm_compute in E; discriminate E].
  assert (Hb : tempBans s !! "u"%string = Some 300007).
  { vm_compute in E. injection E as _ <-. reflexivity. }
  destruct (bans_come_from_breaches defaultConfig ∅ ops outs s "u" 300007 E Hb) as [_ H].
  exists outs, s. split; [reflexivity |]. split; [exact Hb | exact H].
Defined.

(** ** Statistics and remaining figures over a run *)

Lemma in_trailing_eq_within now w l :
  (forall t, In t l -> t <= now) ->
  in_trailing now w l = Z.of_nat (length (within now w l)).
Proof.
  intros Hl. unfold in_trailing, within. do 2 f_equal.
  apply List.filter_ext_in. intros t Ht. specialize (Hl t Ht).
  destruct (Z.leb_spec t now); [reflexivity | lia].
Qed.

Lemma clock_from_app b ops1 ops2 :
  clock_from b (ops1 ++ ops2)
  <-> clock_from b ops1 /\ clock_from (clock_after b ops1) ops2.
Proof.
  revert b. induction ops1 as [|o ops1 IH]; intros b; simpl.
  - tauto.
  - rewrite IH. unfold clock_after. simpl. tauto.
Qed.

Lemma run_user_ledger_at userId ml hl ops : forall s outs s' adm b,
  user_ledger userId ml hl s adm b ->
  clock_from b ops ->
  undisturbed userId ops ->
  run ops s = Some (outs, s') ->
  user_ledger userId ml hl s' (adm ++ admitted userId (combine ops outs)) (clock_after b ops).
Proof.
  induction ops as [|o ops IH]; intros s outs s' adm b Hl Hclock Hund Hrun.
  - injection Hrun as <- <-. simpl. rewrite app_nil_r. exact Hl.
  - destruct (run_cons _ _ _ _ _ Hrun) as (out & s1 & outs' & Ho & Hr & ->).
    destruct Hclock as [Hb Hclock].
    assert (Halone : leaves_alone userId o) by (apply Hund; left; reflexivity).
    pose proof (step_user_ledger _ _ _ _ _ _ _ _ _ Hl Hb Halone Ho) as Hl1.
    pose proof (IH _ _ _ _ _ Hl1 Hclock (fun o' Ho' => Hund o' (or_intror Ho')) Hr) as Hl'.
    simpl combine. rewrite admitted_cons, app_assoc. exact Hl'.
Qed.

Lemma run_global_ledger_at cfg ops : forall s outs s' adm b,
  global_ledger cfg s adm b ->
  clock_from b ops ->
  run ops s = Some (outs, s') ->
  global_ledger cfg s' (adm ++ admitted_all (combine ops outs)) (clock_after b ops).
Proof.
  induction ops as [|o ops IH]; intros s outs s' adm b Hl Hclock Hrun.
  - injection Hrun as <- <-. simpl. rewrite app_nil_r. exact Hl.
  - destruct (run_cons _ _ _ _ _ Hrun) as (out & s1 & outs' & Ho & Hr & ->).
    destruct Hclock as [Hb Hclock].
    pose proof (step_global_ledger _ _ _ _ _ _ _ Hl Hb Ho) as Hl1.
    pose proof (IH _ _ _ _ _ Hl1 Hclock Hr) as Hl'.
    simpl combine. rewrite admitted_all_cons, app_assoc. exact Hl'.
Qed.

(** After a run whose clock does not run backwards, at an instant [now] not
    before its last call: the stored history of an undisturbed caller and
    the admitted instants count the same in every window up to an hour, and
    no window is over quota. *)
Lemma run_then_user_counts cfg premium ops outs s userId o now :
  quotas_nonneg cfg ->
  run ops (newRateLimiter cfg premium) = Some (outs, s) ->
  clock_monotone (ops ++ [o]) -> op_time o = Some now ->
  undisturbed userId ops ->
  let adm := admitted userId (combine ops outs) in
  (forall w, w <= HOUR ->
     Z.of_nat (length (within now w (requests_of s userId))) = in_trailing now w adm)
  /\ in_trailing now MINUTE adm <= minuteLimitOf s userId
  /\ in_trailing now HOUR adm <= hourLimitOf s userId.
Proof.
  intros Hq Hrun Hclock Ht Hund adm.
  destruct (clock_monotone_from _ Hclock) as [b Hb].
  apply clock_from_app in Hb. destruct Hb as [Hb [Hlast _]].
  unfold op_clock in Hlast. rewrite Ht in Hlast. simpl in Hlast.
  destruct (run_user_ledger_at _ _ _ _ _ _ _ _ _ (new_user_ledger cfg premium userId b Hq)
              Hb Hund Hrun) as (Hml & Hhl & [Hag Hpast] & Hbm & Hbh).
  simpl in Hag, Hpast, Hbm, Hbh. fold adm in Hag, Hpast, Hbm, Hbh.
  split; [| rewrite Hml, Hhl; split; [apply Hbm | apply Hbh]].
  intros w Hw.
  rewrite in_trailing_eq_within by (intros t Hin; specialize (Hpast t Hin); lia).
  rewrite <- (within_within now w HOUR (requests_of s userId)) by exact Hw.
  rewrite (Hag now Hlast), within_within by exact Hw. reflexivity.
Qed.

Lemma run_then_global_counts cfg premium ops outs s o now :
  quotas_nonneg cfg ->
  run ops (newRateLimiter cfg premium) = Some (outs, s) ->
  clock_monotone (ops ++ [o]) -> op_time o = Some now ->
  let adm := admitted_all (combine ops outs) in
  config s = cfg
  /\ (forall w, w <= HOUR ->
        Z.of_nat (length (within now w (global_of s))) = in_trailing now w adm)
  /\ in_trailing now MINUTE adm <= globalRequestsPerMinute cfg
  /\ in_trailing now HOUR adm <= globalRequestsPerHour cfg.
Proof.
  intros Hq Hrun Hclock Ht adm.
  destruct (clock_monotone_from _ Hclock) as [b Hb].
  apply clock_from_app in Hb. destruct Hb as [Hb [Hlast _]].
  unfold op_clock in Hlast. rewrite Ht in Hlast. simpl in Hlast.
  destruct (run_global_ledger_at _ _ _ _ _ _ _ (new_global_ledger cfg premium b Hq)
              Hb Hrun) as (Hc & [Hag Hpast] & Hbm & Hbh).
  simpl in Hag, Hpast, Hbm, Hbh. fold adm in Hag, Hpast, Hbm, Hbh.
  split; [exact Hc |]. split; [| split; [apply Hbm | apply Hbh]].
  intros w Hw.
  rewrite in_trailing_eq_within by (intros t Hin; specialize (Hpast t Hin); lia).
  rewrite <- (within_within now w HOUR (global_of s)) by exact Hw.
  rewrite (Hag now Hlast), within_within by exact Hw. reflexivity.
Qed.

(** X7. After a run from a new limiter (quotas that are counts, a clock
    that does not run backwards), [getUserStats] of a caller that no
    administrative call touched reports as used in the minute and in the
    hour exactly the numbers of that caller's admitted calls in the trailing
    60 and 3600 seconds, and never more than the limits it reports. *)
Theorem user_stats_count_admissions cfg premium ops outs s userId now :
  quotas_nonneg cfg ->
  run ops (newRateLimiter cfg premium) = Some (outs, s) ->
  clock_monotone (ops ++ [GetUserStats userId now]) ->
  undisturbed userId ops ->
  let st := fst (getUserStats userId now s) in
  let adm := admitted userId (combine ops outs) in
  used (usage_minute st) = in_trailing now MINUTE adm
  /\ used (usage_hour st) = in_trailing now HOUR adm
  /\ used (usage_minute st) <= limit (usage_minute st)
  /\ used (usage_hour st) <= limit (usage_hour st).
Proof.
  intros Hq Hrun Hclock Hund st adm.
  destruct (run_then_user_counts cfg premium ops outs s userId _ now Hq Hrun Hclock
              eq_refl Hund) as (Hcount & Hm & Hh).
  fold adm in Hcount, Hm, Hh.
  assert (Em : used (usage_minute st) = in_trailing now MINUTE adm).
  { apply (Hcount MINUTE). unfold MINUTE, HOUR. lia. }
  assert (Eh : used (usage_hour st) = in_trailing now HOUR adm).
  { apply (Hcount HOUR). lia. }
  split; [exact Em |]. split; [exact Eh |].
  rewrite Em, Eh. split; [exact Hm | exact Hh].
Qed.

Lemma user_stats_count_admissions_witness :
  let ops := repeat (CheckRateLimit "u" 0) 12 ++ [CheckRateLimit "u" 70000] in
  exists outs s,
    run ops (newRateLimiter defaultConfig ∅) = Some (outs, s)
    /\ used (usage_minute (fst (getUserStats "u" 80000 s))) = 1
    /\ used (usage_hour (fst (getUserStats "u" 80000 s))) = 11
    /\ in_trailing 80000 HOUR (admitted "u" (combine ops outs)) = 11.
Proof.
  intros ops.
  destruct (run ops (newRateLimiter defaultConfig ∅)) as [[outs s]|] eqn:E;
    [| vm_compute in E; discriminate E].
  assert (Hq : quotas_nonneg defaultConfig) by (unfold quotas_nonneg; simpl; lia).
  assert (Hc : clock_monotone (ops ++ [GetUserStats "u" 80000])).
  { unfold clock_monotone. simpl. lia. }
  assert (Hu : undisturbed "u" ops).
  { intros o Ho. simpl in Ho.
    repeat (destruct Ho as [<- | Ho]; [repeat split; discriminate |]). destruct Ho. }
  destruct (user_stats_count_admissions defaultConfig ∅ ops outs s "u" 80000 Hq E Hc Hu)
    as (Hm & Hh & _).
  exists outs, s. split; [reflexivity |].
  assert (Ea : in_trailing 80000 HOUR (admitted "u" (combine ops outs)) = 11
               /\ in_trailing 80000 MINUTE (admitted "u" (combine ops outs)) = 1).
  { vm_compute in E. injection E as <- _. split; reflexivity. }
  destruct Ea as [Ea1 Ea2].
  split; [rewrite Hm; exact Ea2 |]. split; [rewrite Hh; exact Ea1 | exact Ea1].
Defined.

(** X8. After any run from a new limiter under the same conditions,
    administrative calls included, [getGlobalStats] reports as used the
    numbers of admitted calls of all callers in the trailing 60 and 3600
    seconds, never more than the global quotas it reports as limits, and
    returns the limiter unchanged. *)
Theorem global_stats_count_admissions cfg premium ops outs s now :
  quotas_nonneg cfg ->
  run ops (newRateLimiter cfg premium) = Some (outs, s) ->
  clock_monotone (ops ++ [GetGlobalStats now]) ->
  let st := fst (getGlobalStats now s) in
  let adm := admitted_all (combine ops outs) in
  used (global_minute st) = in_trailing now MINUTE adm
  /\ used (global_hour st) = in_trailing now HOUR adm
  /\ used (global_minute st) <= limit (global_minute st)
  /\ used (global_hour st) <= limit (global_hour st)
  /\ snd (getGlobalStats now s) = s.
Proof.
  intros Hq Hrun Hclock st adm.
  destruct (run_then_global_counts cfg premium ops outs s _ now Hq Hrun Hclock eq_refl)
    as (Hc & Hcount & Hm & Hh).
  fold adm in Hcount, Hm, Hh.
  assert (Em : used (global_minute st) = in_trailing now MINUTE adm).
  { apply (Hcount MINUTE). unfold MINUTE, HOUR. lia. }
  assert (Eh : used (global_hour st) = in_trailing now HOUR adm).
  { apply (Hcount HOUR). lia. }
  split; [exact Em |]. split; [exact Eh |].
  rewrite Em, Eh. subst st. simpl. rewrite Hc. auto.
Qed.

Lemma global_stats_count_admissions_witness :
  let ops := repeat (CheckRateLimit "u" 0) 12
             ++ [ClearUserLimits "u"; CheckRateLimit "v" 70000] in
  exists outs s,
    run ops (newRateLimiter defaultConfig ∅) = Some (outs, s)
    /\ used (global_minute (fst (getGlobalStats 80000 s))) = 1
    /\ used (global_hour (fst (getGlobalStats 80000 s))) = 11.
Proof.
  intros ops.
  destruct (run ops (newRateLimiter defaultConfig ∅)) as [[outs s]|] eqn:E;
    [| vm_compute in E; discriminate E].
  assert (Hq : quotas_nonneg defaultConfig) by (unfold quotas_nonneg; simpl; lia).
  assert (Hc : clock_monotone (ops ++ [GetGlobalStats 80000])).
  { unfold clock_monotone. simpl. lia. }
  destruct (global_stats_count_admissions defaultConfig ∅ ops outs s 80000 Hq E Hc)
    as (Hm & Hh & _).
  exists outs, s. split; [reflexivity |].
  rewrite Hm, Hh. vm_compute in E. injection E as <- _. split; reflexivity.
Defined.

Lemma limits_nonneg s userId :
  quotas_nonneg (config s) ->
  0 <= minuteLimitOf s userId /\ 0 <= hourLimitOf s userId.
Proof.
  intros (H1 & H2 & H3 & H4 & _). unfold minuteLimitOf, hourLimitOf.
  destruct (bool_decide (userId ∈ premiumUsers s)); auto.
Qed.

(** X9. After a run from a new limiter (quotas that are counts, a clock
    that does not run backwards), the [remaining] figures of a denial of a
    caller that no administrative call touched lie between [0] and the
    tier's quotas: a [minute_limit] denial carries [minute: 0] and the hour
    quota minus the caller's admissions in the trailing hour, an
    [hour_limit] denial carries [hour: 0] and the minute quota minus the
    admissions in the trailing minute, and no other result carries any. *)
Theorem denial_remaining_in_range cfg premium ops outs s userId now r s' rem :
  quotas_nonneg cfg ->
  run ops (newRateLimiter cfg premium) = Some (outs, s) ->
  clock_monotone (ops ++ [CheckRateLimit userId now]) ->
  undisturbed userId ops ->
  checkRateLimit userId now s = Some (r, s') ->
  remaining r = Some rem ->
  let adm := admitted userId (combine ops outs) in
  0 <= minute rem <= minuteLimitOf s userId
  /\ 0 <= hour rem <= hourLimitOf s userId
  /\ ((reason r = Some minute_limit /\ minute rem = 0
       /\ hour rem = hourLimitOf s userId - in_trailing now HOUR adm)
      \/ (reason r = Some hour_limit /\ hour rem = 0
          /\ minute rem = minuteLimitOf s userId - in_trailing now MINUTE adm)).
Proof.
  intros Hq Hrun Hclock Hund Hcheck Hrem adm.
  destruct (run_then_user_counts cfg premium ops outs s userId _ now Hq Hrun Hclock
              eq_refl Hund) as (Hcount & Hm & Hh).
  destruct (run_then_global_counts cfg premium ops outs s _ now Hq Hrun Hclock eq_refl)
    as (Hc & _).
  fold adm in Hcount, Hm, Hh.
  pose proof (Hcount MINUTE ltac:(unfold MINUTE, HOUR; lia)) as Em.
  pose proof (Hcount HOUR ltac:(lia)) as Eh.
  destruct (limits_nonneg s userId ltac:(rewrite Hc; exact Hq)) as [Hml Hhl].
  pose proof (in_trailing_nonneg now MINUTE adm).
  pose proof (in_trailing_nonneg now HOUR adm).
  destruct (check_outcome_cases _ _ _ _ _ Hcheck)
    as [(Hr & _ & ->) | (s0 & Ho & Hu & Hg & Hc0 & Hp)].
  { apply checkRateLimit_outcome in Hcheck.
    destruct Hcheck as [e He Hlt | e r s' He Hge Hq' | r s' He Hq'];
      [discriminate Hrem | |]; exfalso; eapply quota_outcome_not_temp_ban; eassumption. }
  destruct (state_views_eq s0 s userId Hu Hg Hc0 Hp) as (Er & _ & _ & Eml & Ehl).
  destruct Ho as [reqs v Hm' Hv | reqs v Hm' Hv | reqs Hm' Hh' | | | ];
    try discriminate Hrem;
    subst reqs; rewrite ?within_minute_hour, ?Er, ?Eml, ?Ehl in *;
    simpl in Hrem; injection Hrem as <-; simpl; rewrite ?Em, ?Eh in *.
  - split; [lia |]. split; [lia |]. left. auto.
  - split; [lia |]. split; [lia |]. right. auto.
Qed.

Lemma denial_remaining_in_range_witness :
  let ops := repeat (CheckRateLimit "u" 0) 10 in
  exists outs s r s',
    run ops (newRateLimiter defaultConfig ∅) = Some (outs, s)
    /\ checkRateLimit "u" 5000 s = Some (r, s')
    /\ remaining r = Some {| minute := 0; hour := 40 |}
    /\ 0 <= 40 <= hourLimitOf s "u".
Proof.
  intros ops.
  destruct (run ops (newRateLimiter defaultConfig ∅)) as [[outs s]|] eqn:E;
    [| vm_compute in E; discriminate E].
  destruct (checkRateLimit "u" 5000 s) as [[r s']|] eqn:E2;
    [| destruct (checkRateLimit_total "u" 5000 s) as (? & ? & ?); congruence].
  assert (Hq : quotas_nonneg defaultConfig) by (unfold quotas_nonneg; simpl; lia).
  assert (Hc : clock_monotone (ops ++ [CheckRateLimit "u" 5000])).
  { unfold clock_monotone. simpl. lia. }
  assert (Hu : undisturbed "u" ops).
  { intros o Ho. simpl in Ho.
    repeat (destruct Ho as [<- | Ho]; [repeat split; discriminate |]). destruct Ho. }
  assert (Hrem : remaining r = Some {| minute := 0; hour := 40 |}).
  { vm_compute in E. injection E as <- <-. vm_compute in E2. injection E2 as <- _.
    reflexivity. }
  destruct (denial_remaining_in_range defaultConfig ∅ ops outs s "u" 5000 r s' _
              Hq E Hc Hu E2 Hrem) as (_ & Hhour & _).
  exists outs, s, r, s'. split; [reflexivity |]. split; [exact E2 |].
  split; [exact Hrem | exact Hhour].
Defined.

(** ** Administrative calls *)

(** X10. [clearUserLimits] makes the caller new and touches nobody else:
    afterwards [getUserStats] reports nothing used, no violation and no ban;
    the records and bans of the other callers and the global history are
    the ones before, so the caller's earlier admissions still count against
    the global quotas; a second clear changes nothing; and with positive
    tier quotas the caller's next call is admitted or denied for a global
    quota only, leaving a violation counter of [0]. *)
Theorem cleared_caller_is_new userId now s :
  let s0 := clearUserLimits userId s in
  (let st := fst (getUserStats userId now s0) in
   used (usage_minute st) = 0 /\ used (usage_hour st) = 0
   /\ stat_violations st = 0%float /\ tempBanned st = false)
  /\ (forall other, other <> userId ->
        userLimits s0 !! other = userLimits s !! other
        /\ tempBans s0 !! other = tempBans s !! other)
  /\ globalLimits s0 = globalLimits s
  /\ clearUserLimits userId s0 = s0
  /\ (0 < minuteLimitOf s userId -> 0 < hourLimitOf s userId ->
      exists r s',
        checkRateLimit userId now s0 = Some (r, s')
        /\ (allowed r = true \/ reason r = Some global_minute_limit
            \/ reason r = Some global_hour_limit)
        /\ violations_of s' userId = 0%float
        /\ requests_of s' userId = if allowed r then [now] else []).
Proof.
  intros s0.
  assert (Hu : userLimits s0 !! userId = None) by apply lookup_delete_eq.
  assert (Hb : tempBans s0 !! userId = None) by apply lookup_delete_eq.
  split; [| split; [| split; [| split]]].
  - subst s0. unfold getUserStats, clearUserLimits. simpl.
    rewrite !lookup_delete_eq. simpl. auto.
  - intros other Hne. subst s0. simpl.
    rewrite !lookup_delete_ne by congruence. auto.
  - reflexivity.
  - subst s0. unfold clearUserLimits, with_tempBans, with_userLimits. simpl.
    rewrite !delete_delete_eq. reflexivity.
  - intros Hml Hhl.
    destruct (checkRateLimit_total userId now s0) as (r & s' & H).
    exists r, s'. split; [exact H |].
    assert (Hr0 : requests_of s0 userId = []).
    { unfold requests_of, userDataOf. rewrite Hu. reflexivity. }
    assert (Hv0 : violations_of s0 userId = 0%float).
    { unfold violations_of, userDataOf. rewrite Hu. reflexivity. }
    pose proof (checkRateLimit_outcome _ _ _ _ _ H) as Ho.
    destruct Ho as [e He Hlt | e r s' He Hge Hq | r s' He Hq]; [congruence | congruence |].
    assert (Eml : minuteLimitOf s0 userId = minuteLimitOf s userId) by reflexivity.
    assert (Ehl : hourLimitOf s0 userId = hourLimitOf s userId) by reflexivity.
    destruct Hq; repeat match goal with x := _ |- _ => subst x end;
      rewrite ?Hr0, ?Hv0, ?Eml, ?Ehl in *; simpl in *; try lia;
      (split; [auto |]);
      (split; [erewrite violations_of_insert by reflexivity; reflexivity
              | erewrite requests_of_insert by reflexivity; reflexivity]).
Qed.

(** X11. The premium set is a set: after [addPremiumUser] the caller is on
    the premium quotas and after [removePremiumUser] on the standard ones,
    the tiers of the other callers and all histories, counters and bans
    unchanged; adding twice or removing twice is adding or removing once;
    removing a caller that was added to a set without them, or adding back a
    caller removed from a set with them, gives the limiter back. *)
Theorem premium_set_round_trips userId s :
  (minuteLimitOf (addPremiumUser userId s) userId = premiumUserRequestsPerMinute (config s)
   /\ hourLimitOf (addPremiumUser userId s) userId = premiumUserRequestsPerHour (config s))
  /\ (minuteLimitOf (removePremiumUser userId s) userId = userRequestsPerMinute (config s)
      /\ hourLimitOf (removePremiumUser userId s) userId = userRequestsPerHour (config s))
  /\ (forall other, other <> userId ->
        minuteLimitOf (addPremiumUser userId s) other = minuteLimitOf s other
        /\ hourLimitOf (addPremiumUser userId s) other = hourLimitOf s other
        /\ minuteLimitOf (removePremiumUser userId s) other = minuteLimitOf s other
        /\ hourLimitOf (removePremiumUser userId s) other = hourLimitOf s other)
  /\ (userLimits (addPremiumUser userId s) = userLimits s
      /\ tempBans (addPremiumUser userId s) = tempBans s
      /\ globalLimits (addPremiumUser userId s) = globalLimits s
      /\ userLimits (removePremiumUser userId s) = userLimits s
      /\ tempBans (removePremiumUser userId s) = tempBans s
      /\ globalLimits (removePremiumUser userId s) = globalLimits s)
  /\ addPremiumUser userId (addPremiumUser userId s) = addPremiumUser userId s
  /\ removePremiumUser userId (removePremiumUser userId s) = removePremiumUser userId s
  /\ (userId ∉ premiumUsers s -> removePremiumUser userId (addPremiumUser userId s) = s)
  /\ (userId ∈ premiumUsers s -> addPremiumUser userId (removePremiumUser userId s) = s).
Proof.
  assert (Hadd : userId ∈ premiumUsers (addPremiumUser userId s)).
  { simpl. apply elem_of_union. left. apply elem_of_singleton. reflexivity. }
  assert (Hrem : userId ∉ premiumUsers (removePremiumUser userId s)).
  { simpl. rewrite elem_of_difference, elem_of_singleton. tauto. }
  assert (Hset : forall p q : gset string, p = q ->
            forall t, with_premiumUsers p t = with_premiumUsers q t).
  { intros p q -> t. reflexivity. }
  split; [| split; [| split; [| split; [| split; [| split; [| split]]]]]].
  - unfold minuteLimitOf, hourLimitOf.
    rewrite (bool_decide_eq_true_2 _ Hadd). auto.
  - unfold minuteLimitOf, hourLimitOf.
    rewrite (bool_decide_eq_false_2 _ Hrem). auto.
  - intros other Hne.
    destruct (limits_of_eq (addPremiumUser userId s) s other eq_refl) as [-> ->].
    { simpl. rewrite elem_of_union, elem_of_singleton. tauto. }
    destruct (limits_of_eq (removePremiumUser userId s) s other eq_refl) as [-> ->].
    { simpl. rewrite elem_of_difference, elem_of_singleton. tauto. }
    auto.
  - simpl. auto 10.
  - unfold addPremiumUser. simpl. unfold with_premiumUsers. simpl. f_equal.
    apply set_eq. intros x. rewrite !elem_of_union. tauto.
  - unfold removePremiumUser. simpl. unfold with_premiumUsers. simpl. f_equal.
    apply set_eq. intros x. rewrite !elem_of_difference. tauto.
  - intros Hnot. destruct s as [ul gl cfg tb prem]. simpl in Hnot.
    unfold removePremiumUser, addPremiumUser, with_premiumUsers. simpl. f_equal.
    apply set_eq. intros x.
    rewrite elem_of_difference, elem_of_union, elem_of_singleton.
    split; [intros [[-> | Hx] Hne]; [congruence | exact Hx] |].
    intros Hx. split; [auto | intros ->; auto].
  - intros Hin. destruct s as [ul gl cfg tb prem]. simpl in Hin.
    unfold removePremiumUser, addPremiumUser, with_premiumUsers. simpl. f_equal.
    apply set_eq. intros x.
    rewrite elem_of_union, elem_of_difference, elem_of_singleton.
    split; [intros [-> | [Hx _]]; assumption |].
    intros Hx. destruct (decide (x = userId)); auto.
Qed.

Lemma cleared_caller_is_new_witness :
  let s := with_tempBans {[ "u"%string := 900000 ]}
             (with_userLimits
                {[ "u"%string := {| requests := [0; 0; 0]; violations := 3 |} ]}
                (newRateLimiter defaultConfig ∅)) in
  exists r s',
    checkRateLimit "u" 5 (clearUserLimits "u" s) = Some (r, s')
    /\ allowed r = true
    /\ violations_of s' "u" = 0%float
    /\ requests_of s' "u" = [5].
Proof.
  intros s.
  destruct (cleared_caller_is_new "u" 5 s) as (_ & _ & _ & _ & H).
  destruct (H ltac:(reflexivity) ltac:(reflexivity)) as (r & s' & Hc & Hr & Hv & Hq).
  assert (Ha : allowed r = true).
  { vm_compute in Hc. injection Hc as <- _. reflexivity. }
  exists r, s'. split; [exact Hc |]. split; [exact Ha |]. split; [exact Hv |].
  rewrite Hq, Ha. reflexivity.
Defined.

Lemma premium_set_round_trips_witness :
  let s := newRateLimiter defaultConfig {[ "p"%string ]} in
  removePremiumUser "u" (addPremiumUser "u" s) = s
  /\ addPremiumUser "p" (removePremiumUser "p" s) = s.
Proof.
  intros s.
  destruct (premium_set_round_trips "u" s) as (_ & _ & _ & _ & _ & _ & Hu & _).
  destruct (premium_set_round_trips "p" s) as (_ & _ & _ & _ & _ & _ & _ & Hp).
  split.
  - apply Hu. simpl. rewrite elem_of_singleton. discriminate.
  - apply Hp. simpl. rewrite elem_of_singleton. reflexivity.
Defined.

(** ** The size of the histories *)






(** ** The cleanup is transparent *)

Lemma checkQuotas_verdict userId now s r s' :
  checkQuotas userId now s = Some (r, s') ->
  r = quota_verdict (minuteLimitOf s userId) (hourLimitOf s userId) (config s) now
        (within now HOUR (requests_of s userId)) (or_zero (violations_of s userId))
        (within now HOUR (global_of s)).
Proof.
  intros H. apply checkQuotas_outcome in H. unfold quota_verdict.
  destruct H as [reqs v Hm Hv | reqs v Hm Hv | reqs Hm Hh | reqs greqs Hm Hh Hg
                | reqs greqs Hm Hh Hg Hg' | reqs greqs Hm Hh Hg Hg'];
    subst reqs; try subst v; try subst greqs;
    repeat match goal with
           | |- context [?a >=? ?b] => destruct (Z.geb_spec a b); try lia
           end;
    rewrite ?Hv; reflexivity.
Qed.

Lemma check_verdict userId now s r s' :
  checkRateLimit userId now s = Some (r, s') ->
  let quota := quota_verdict (minuteLimitOf s userId) (hourLimitOf s userId) (config s) now
                 (within now HOUR (requests_of s userId)) (or_zero (violations_of s userId))
                 (within now HOUR (global_of s)) in
  r = match tempBans s !! userId with
      | Some banExpiry =>
          if now <? banExpiry
          then denied temp_ban (IntNum (ceil_div_1000 (banExpiry - now))) None
          else quota
      | None => quota
      end.
Proof.
  intros H. cbv zeta. unfold checkRateLimit in H.
  destruct (tempBans s !! userId) as [e|].
  - destruct (now <? e); [injection H as <- _; reflexivity |].
    apply checkQuotas_verdict in H. exact H.
  - apply checkQuotas_verdict in H. exact H.
Qed.

(** What a call leaves of the counters and of the ban records, by the
    reason it answers. *)
Lemma check_effect_counters userId now s r s' :
  checkRateLimit userId now s = Some (r, s') ->
  (forall x, x <> userId ->
     violations_of s' x = violations_of s x /\ tempBans s' !! x = tempBans s !! x)
  /\ violations_of s' userId
     = match reason r with
       | Some temp_ban | Some hour_limit => violations_of s userId
       | Some temp_ban_applied | Some minute_limit =>
           (or_zero (violations_of s userId) + 1)%float
       | _ => decay (violations_of s userId)
       end
  /\ tempBans s' !! userId
     = match reason r with
       | Some temp_ban => tempBans s !! userId
       | Some temp_ban_applied => Some (now + tempBanDuration (config s))
       | _ => None
       end.
Proof.
  intros H. apply checkRateLimit_outcome in H.
  assert (Hq : forall s0,
            quota_outcome userId now s0 r s' ->
            userLimits s0 = userLimits s -> config s0 = config s ->
            tempBans s0 = delete userId (tempBans s) ->
            (forall x, x <> userId ->
               violations_of s' x = violations_of s x /\ tempBans s' !! x = tempBans s !! x)
            /\ violations_of s' userId
               = match reason r with
                 | Some temp_ban | Some hour_limit => violations_of s userId
                 | Some temp_ban_applied | Some minute_limit =>
                     (or_zero (violations_of s userId) + 1)%float
                 | _ => decay (violations_of s userId)
                 end
            /\ tempBans s' !! userId
               = match reason r with
                 | Some temp_ban => tempBans s !! userId
                 | Some temp_ban_applied => Some (now + tempBanDuration (config s))
                 | _ => None
                 end).
  { intros s0 Hq Hu Hc Hb.
    assert (Ev : violations_of s0 userId = violations_of s userId).
    { unfold violations_of, userDataOf. rewrite Hu. reflexivity. }
    assert (Hx : forall d t x, x <> userId ->
              userLimits t = <[userId := d]> (userLimits s0) ->
              violations_of t x = violations_of s x).
    { intros d t x Hne Ht. unfold violations_of, userDataOf.
      rewrite Ht, lookup_insert_ne, Hu by congruence. reflexivity. }
    destruct Hq; repeat match goal with x := _ |- _ => subst x end; simpl;
      (split; [intros x Hne; split; [eapply Hx; [exact Hne | reflexivity] |]; simpl;
               rewrite ?lookup_insert_ne by congruence; rewrite Hb;
               apply lookup_delete_ne; congruence |]);
      (split; [erewrite violations_of_insert by reflexivity; simpl; rewrite ?Ev; reflexivity |]);
      simpl; rewrite ?lookup_insert_eq, ?Hb, ?lookup_delete_eq, ?Hc; reflexivity. }
  destruct H as [e He Hlt | e r s' He Hge Hq' | r s' He Hq'].
  - simpl. auto.
  - apply (Hq _ Hq'); reflexivity.
  - apply (Hq _ Hq'); [reflexivity | reflexivity |]. symmetry. apply delete_id, He.
Qed.

Lemma allowed_requests_later userId now later s r s' :
  checkRateLimit userId now s = Some (r, s') ->
  allowed r = true -> now <= later ->
  within later HOUR (requests_of s' userId)
  = within later HOUR (requests_of s userId) ++ within later HOUR [now]
  /\ within later HOUR (global_of s')
     = within later HOUR (global_of s) ++ within later HOUR [now].
Proof.
  intros H Ha Hle.
  destruct (checkRateLimit_effect _ _ _ _ _ H) as (_ & _ & _ & Heff).
  rewrite Ha in Heff. destruct Heff as (-> & -> & _).
  rewrite !within_app, !within_later by exact Hle. auto.
Qed.

Lemma same_future_later b b' s1 s2 :
  same_future b s1 s2 -> b <= b' -> same_future b' s1 s2.
Proof.
  intros (Hc & Hp & Hr & Hv & Hb & Hg) Hle.
  split; [exact Hc |]. split; [exact Hp |]. split; [| split; [exact Hv |split]].
  - intros u T HT. apply Hr. lia.
  - intros u e He. apply Hb. lia.
  - intros T HT. apply Hg. lia.
Qed.

Lemma same_future_limits b s1 s2 userId :
  same_future b s1 s2 ->
  minuteLimitOf s1 userId = minuteLimitOf s2 userId
  /\ hourLimitOf s1 userId = hourLimitOf s2 userId.
Proof.
  intros (Hc & Hp & _). apply limits_of_eq; [exact Hc | rewrite Hp; tauto].
Qed.

(** Told apart by no later call, two limiters answer a call alike and are
    told apart by no call after it. *)
Lemma same_future_check b s1 s2 userId now r1 t1 r2 t2 :
  same_future b s1 s2 -> b <= now ->
  checkRateLimit userId now s1 = Some (r1, t1) ->
  checkRateLimit userId now s2 = Some (r2, t2) ->
  r1 = r2 /\ same_future now t1 t2.
Proof.
  intros Hsame Hle H1 H2.
  pose proof Hsame as (Hc & Hp & Hr & Hv & Hb & Hg).
  destruct (same_future_limits b s1 s2 userId Hsame) as [Eml Ehl].
  assert (Er : r1 = r2).
  { rewrite (check_verdict _ _ _ _ _ H1), (check_verdict _ _ _ _ _ H2).
    rewrite Eml, Ehl, Hc, (Hr userId now Hle), (Hv userId), (Hg now Hle).
    destruct (tempBans s1 !! userId) as [e1|] eqn:E1;
      destruct (tempBans s2 !! userId) as [e2|] eqn:E2.
    - destruct (Z.ltb_spec now e1) as [L1 | L1].
      + apply (Hb userId e1 ltac:(lia)) in E1. rewrite E1 in E2. injection E2 as <-.
        destruct (Z.ltb_spec now e1); [reflexivity | lia].
      + destruct (Z.ltb_spec now e2) as [L2 | L2]; [| reflexivity].
        apply (Hb userId e2 ltac:(lia)) in E2. rewrite E2 in E1. injection E1 as <-. lia.
    - destruct (Z.ltb_spec now e1) as [L1 | L1]; [| reflexivity].
      apply (Hb userId e1 ltac:(lia)) in E1. congruence.
    - destruct (Z.ltb_spec now e2) as [L2 | L2]; [| reflexivity].
      apply (Hb userId e2 ltac:(lia)) in E2. congruence.
    - reflexivity. }
  split; [exact Er |]. subst r2.
  destruct (checkRateLimit_effect _ _ _ _ _ H1) as (Hc1 & Hp1 & Ho1 & _).
  destruct (checkRateLimit_effect _ _ _ _ _ H2) as (Hc2 & Hp2 & Ho2 & _).
  destruct (check_effect_counters _ _ _ _ _ H1) as (Hx1 & Hv1 & Hb1).
  destruct (check_effect_counters _ _ _ _ _ H2) as (Hx2 & Hv2 & Hb2).
  split; [congruence |]. split; [congruence |].
  split; [| split; [| split]].
  - intros x T HT. destruct (decide (x = userId)) as [-> | Hne].
    + destruct (allowed r1) eqn:Ha.
      * rewrite (proj1 (allowed_requests_later _ _ _ _ _ _ H1 Ha HT)),
          (proj1 (allowed_requests_later _ _ _ _ _ _ H2 Ha HT)).
        rewrite (Hr userId T ltac:(lia)). reflexivity.
      * rewrite (denied_requests_later _ _ _ _ _ _ _ H1 Ha HT) by lia.
        rewrite (denied_requests_later _ _ _ _ _ _ _ H2 Ha HT) by lia.
        apply Hr. lia.
    + rewrite (requests_of_eq t1 s1 x (Ho1 x Hne)), (requests_of_eq t2 s2 x (Ho2 x Hne)).
      apply Hr. lia.
  - intros x. destruct (decide (x = userId)) as [-> | Hne].
    + rewrite Hv1, Hv2. pose proof (Hv userId) as Hvu.
      destruct (reason r1) as [[]|]; try exact Hvu;
        try (rewrite Hvu; reflexivity); apply F.or_zero_decay, Hvu.
    + rewrite (proj1 (Hx1 x Hne)), (proj1 (Hx2 x Hne)). apply Hv.
  - intros x e He. destruct (decide (x = userId)) as [-> | Hne].
    + rewrite Hb1, Hb2, Hc.
      destruct (reason r1) as [[]|]; try tauto. apply Hb. lia.
    + rewrite (proj2 (Hx1 x Hne)), (proj2 (Hx2 x Hne)). apply Hb. lia.
  - intros T HT. destruct (allowed r1) eqn:Ha.
    + rewrite (proj2 (allowed_requests_later _ _ _ _ _ _ H1 Ha HT)),
        (proj2 (allowed_requests_later _ _ _ _ _ _ H2 Ha HT)).
      rewrite (Hg T ltac:(lia)). reflexivity.
    + rewrite (denied_global_later _ _ _ _ _ _ _ H1 Ha HT) by lia.
      rewrite (denied_global_later _ _ _ _ _ _ _ H2 Ha HT) by lia.
      apply Hg. lia.
Qed.

Lemma same_future_sym b s1 s2 : same_future b s1 s2 -> same_future b s2 s1.
Proof.
  intros (Hc & Hp & Hr & Hv & Hb & Hg).
  split; [auto |]. split; [auto |]. split; [| split; [| split]].
  - intros u T HT. symmetry. auto.
  - intros u. symmetry. auto.
  - intros u e He. symmetry. auto.
  - intros T HT. symmetry. auto.
Qed.

Lemma same_future_trans b s1 s2 s3 :
  same_future b s1 s2 -> same_future b s2 s3 -> same_future b s1 s3.
Proof.
  intros (Hc & Hp & Hr & Hv & Hb & Hg) (Hc' & Hp' & Hr' & Hv' & Hb' & Hg').
  split; [congruence |]. split; [congruence |]. split; [| split; [| split]].
  - intros u T HT. rewrite Hr by exact HT. auto.
  - intros u. rewrite Hv. auto.
  - intros u e He. rewrite (Hb u e He). auto.
  - intros T HT. rewrite Hg by exact HT. auto.
Qed.

Lemma same_future_refl b s : same_future b s s.
Proof. unfold same_future. tauto. Qed.

(** The sweep removes only what no later call reads: instants out of the
    trailing hour, records that read as new ones, and bans that are over. *)
Lemma cleanup_same_future now s : same_future now (cleanup now s) s.
Proof.
  destruct (cleanup_effect now s) as (Hc & Hp & Hr & Hg).
  split; [exact Hc |]. split; [exact Hp |]. split; [| split; [| split]].
  - intros u T HT. rewrite Hr. apply within_later, HT.
  - intros u. unfold violations_of, userDataOf, cleanup. simpl.
    rewrite lookup_omap.
    destruct (userLimits s !! u) as [d|]; simpl; [| reflexivity].
    unfold cleanupUser.
    destruct (length _ =? 0)%nat; simpl; [| reflexivity].
    destruct (or_zero (violations d) =? 0)%float eqn:E; simpl; [| reflexivity].
    rewrite (F.or_zero_of_zero _ E). reflexivity.
  - intros u e He. unfold cleanup. simpl. rewrite lookup_omap.
    destruct (tempBans s !! u) as [e'|]; simpl; [| tauto].
    destruct (Z.ltb_spec e' now) as [L | L]; split; intros E; try discriminate E; try exact E.
    injection E as ->. lia.
  - intros T HT. rewrite Hg. apply within_later, HT.
Qed.

Lemma same_future_clear b s1 s2 userId :
  same_future b s1 s2 ->
  same_future b (clearUserLimits userId s1) (clearUserLimits userId s2).
Proof.
  intros (Hc & Hp & Hr & Hv & Hb & Hg).
  split; [exact Hc |]. split; [exact Hp |]. split; [| split; [| split]].
  - intros u T HT. specialize (Hr u T HT).
    unfold requests_of, userDataOf, clearUserLimits in *. simpl.
    destruct (decide (u = userId)) as [-> | Hne].
    + rewrite !lookup_delete_eq. reflexivity.
    + rewrite !lookup_delete_ne by congruence. exact Hr.
  - intros u. specialize (Hv u).
    unfold violations_of, userDataOf, clearUserLimits in *. simpl.
    destruct (decide (u = userId)) as [-> | Hne].
    + rewrite !lookup_delete_eq. reflexivity.
    + rewrite !lookup_delete_ne by congruence. exact Hv.
  - intros u e He. specialize (Hb u e He). unfold clearUserLimits. simpl.
    destruct (decide (u = userId)) as [-> | Hne].
    + rewrite !lookup_delete_eq. tauto.
    + rewrite !lookup_delete_ne by congruence. exact Hb.
  - exact Hg.
Qed.

Lemma same_future_premium b s1 s2 (f : gset string -> gset string) :
  same_future b s1 s2 ->
  same_future b (with_premiumUsers (f (premiumUsers s1)) s1)
    (with_premiumUsers (f (premiumUsers s2)) s2).
Proof.
  intros (Hc & Hp & Hr & Hv & Hb & Hg).
  split; [exact Hc |]. split; [simpl; rewrite Hp; reflexivity |].
  split; [exact Hr |]. split; [exact Hv |]. split; [exact Hb | exact Hg].
Qed.

Lemma step_total o s : exists out s', step o s = Some (out, s').
Proof.
  destruct o as [u t | t | u t | t | u | u | u]; simpl; eauto.
  destruct (checkRateLimit_total u t s) as (r & s' & ->). simpl. eauto.
Qed.

Lemma run_total ops s : exists outs s', run ops s = Some (outs, s').
Proof.
  revert s. induction ops as [|o ops IH]; intros s; simpl; [eauto |].
  destruct (step_total o s) as (out & s1 & ->). simpl.
  destruct (IH s1) as (outs & s2 & ->). simpl. eauto.
Qed.

Lemma same_future_step b o s1 s2 out1 t1 out2 t2 :
  same_future b s1 s2 -> b <= op_clock b o ->
  step o s1 = Some (out1, t1) -> step o s2 = Some (out2, t2) ->
  decision_of out1 = decision_of out2 /\ same_future (op_clock b o) t1 t2.
Proof.
  intros Hsame Hle H1 H2.
  destruct o as [u t | t | u t | t | u | u | u]; simpl in H1, H2;
    unfold op_clock in *; simpl in *.
  - destruct (checkRateLimit u t s1) as [[r1 t1']|] eqn:E1; simpl in H1; [| discriminate].
    destruct (checkRateLimit u t s2) as [[r2 t2']|] eqn:E2; simpl in H2; [| discriminate].
    injection H1 as <- <-. injection H2 as <- <-.
    destruct (same_future_check _ _ _ _ _ _ _ _ _ Hsame Hle E1 E2) as [-> Hs].
    split; [reflexivity | exact Hs].
  - injection H1 as <- <-. injection H2 as <- <-. split; [reflexivity |].
    apply same_future_trans with s1; [apply cleanup_same_future |].
    apply same_future_trans with s2; [eapply same_future_later; eassumption |].
    apply same_future_sym, cleanup_same_future.
  - injection H1 as <- <-. injection H2 as <- <-. split; [reflexivity |].
    eapply same_future_later; eassumption.
  - injection H1 as <- <-. injection H2 as <- <-. split; [reflexivity |].
    eapply same_future_later; eassumption.
  - injection H1 as <- <-. injection H2 as <- <-. split; [reflexivity |].
    apply (same_future_premium b s1 s2 (fun p => {[u]} ∪ p)), Hsame.
  - injection H1 as <- <-. injection H2 as <- <-. split; [reflexivity |].
    apply (same_future_premium b s1 s2 (fun p => p ∖ {[u]})), Hsame.
  - injection H1 as <- <-. injection H2 as <- <-. split; [reflexivity |].
    apply same_future_clear, Hsame.
Qed.

Lemma same_future_run ops : forall b s1 s2,
  same_future b s1 s2 -> clock_from b ops ->
  exists outs1 t1 outs2 t2,
    run ops s1 = Some (outs1, t1) /\ run ops s2 = Some (outs2, t2)
    /\ omap decision_of outs1 = omap decision_of outs2
    /\ same_future (clock_after b ops) t1 t2.
Proof.
  induction ops as [|o ops IH]; intros b s1 s2 Hsame Hclock.
  - exists [], s1, [], s2. simpl. auto.
  - destruct Hclock as [Hle Hclock].
    destruct (step_total o s1) as (out1 & u1 & E1).
    destruct (step_total o s2) as (out2 & u2 & E2).
    destruct (same_future_step _ _ _ _ _ _ _ _ Hsame Hle E1 E2) as [Hd Hs].
    destruct (IH _ _ _ Hs Hclock) as (outs1 & t1 & outs2 & t2 & R1 & R2 & Ho & Ht).
    exists (out1 :: outs1), t1, (out2 :: outs2), t2.
    split; [simpl; rewrite E1; simpl; rewrite R1; reflexivity |].
    split; [simpl; rewrite E2; simpl; rewrite R2; reflexivity |].
    split; [| exact Ht].
    change (omap decision_of (out1 :: outs1))
      with (match decision_of out1 with
            | Some r => r :: omap decision_of outs1
            | None => omap decision_of outs1
            end).
    change (omap decision_of (out2 :: outs2))
      with (match decision_of out2 with
            | Some r => r :: omap decision_of outs2
            | None => omap decision_of outs2
            end).
    rewrite Hd, Ho. reflexivity.
Qed.

(** X13. The sweep is transparent to the callers. Whatever the state, a
    [cleanup()] at an instant [now] changes no later decision: every
    sequence of calls at instants from [now] on gets from [checkRateLimit]
    the same results, one for one, with the sweep before it as without, and
    leaves limiters that no later call tells apart. What the sweep removes
    (instants out of the trailing hour, records with nothing left and a
    count of 0, bans that are over) is what the checks no longer read. *)
Theorem cleanup_is_transparent now s ops :
  clock_from now ops ->
  exists outs1 s1 outs2 s2,
    run (Cleanup now :: ops) s = Some (outs1, s1)
    /\ run ops s = Some (outs2, s2)
    /\ omap decision_of outs1 = omap decision_of outs2
    /\ same_future (clock_after now ops) s1 s2.
Proof.
  intros Hclock.
  destruct (same_future_run ops now (cleanup now s) s (cleanup_same_future now s) Hclock)
    as (outs1 & t1 & outs2 & t2 & R1 & R2 & Ho & Ht).
  exists (Done :: outs1), t1, outs2, t2.
  split; [simpl; rewrite R1; reflexivity |].
  split; [exact R2 |]. split; [exact Ho | exact Ht].
Qed.

Lemma cleanup_is_transparent_witness :
  let s := with_tempBans {[ "u"%string := 900000 ]}
             (with_userLimits
                {[ "u"%string := {| requests := [0; 0; 4000000]; violations := 0 |};
                   "v"%string := {| requests := [0]; violations := 0 |} ]}
                (newRateLimiter defaultConfig ∅)) in
  let ops := [CheckRateLimit "u" 5000000; GetUserStats "v" 5000001;
              CheckRateLimit "v" 5000002; ClearUserLimits "u"; CheckRateLimit "u" 5000002] in
  clock_from 5000000 ops
  /\ exists outs1 s1 outs2 s2,
       run (Cleanup 5000000 :: ops) s = Some (outs1, s1)
       /\ run ops s = Some (outs2, s2)
       /\ omap decision_of outs1 = omap decision_of outs2
       /\ same_future (clock_after 5000000 ops) s1 s2.
Proof.
  intros s ops.
  assert (Hclock : clock_from 5000000 ops).
  { unfold ops. cbn [clock_from]. unfold op_clock. simpl. lia. }
  split; [exact Hclock |].
  exact (cleanup_is_transparent 5000000 s ops Hclock).
Defined.

(** ** The ban flag of the statistics *)

(** X14. [getUserStats] reports [tempBanned] from the presence of a ban
    record, not from its expiry: for a caller whose ban is over but whose
    record is still stored, the statistics say [tempBanned: true] at an
    instant at which [checkRateLimit] no longer answers [temp_ban]. That call
    deletes the record, and after it the flag is set exactly when the call
    itself applied a new ban. *)
Theorem stats_ban_flag_outlives_ban userId now s banExpiry :
  tempBans s !! userId = Some banExpiry ->
  banExpiry <= now ->
  tempBanned (fst (getUserStats userId now s)) = true
  /\ exists r s',
       checkRateLimit userId now s = Some (r, s')
       /\ reason r <> Some temp_ban
       /\ (tempBanned (fst (getUserStats userId now s')) = true
           <-> reason r = Some temp_ban_applied).
Proof.
  intros Hb Hle. split.
  { unfold getUserStats. simpl. rewrite Hb. reflexivity. }
  destruct (checkRateLimit_total userId now s) as (r & s' & H).
  exists r, s'. split; [exact H |].
  assert (Hr : reason r <> Some temp_ban).
  { destruct (checkRateLimit_outcome _ _ _ _ _ H) as [e He Hlt | e r s' He Hge Hq | r s' He Hq].
    - rewrite Hb in He. injection He as <-. lia.
    - eapply quota_outcome_not_temp_ban, Hq.
    - congruence. }
  split; [exact Hr |].
  destruct (check_effect_counters _ _ _ _ _ H) as (_ & _ & Hb').
  unfold getUserStats. simpl. rewrite Hb'.
  destruct (reason r) as [[]|]; simpl; split; intros E;
    try discriminate E; try reflexivity; congruence.
Qed.

Lemma stats_ban_flag_outlives_ban_witness :
  let s := with_tempBans {[ "u"%string := 900000 ]}
             (with_userLimits
                {[ "u"%string := {| requests := [0; 0; 0]; violations := 3 |} ]}
                (newRateLimiter defaultConfig ∅)) in
  tempBanned (fst (getUserStats "u" 900000 s)) = true
  /\ exists r s',
       checkRateLimit "u" 900000 s = Some (r, s')
       /\ reason r <> Some temp_ban
       /\ (tempBanned (fst (getUserStats "u" 900000 s')) = true
           <-> reason r = Some temp_ban_applied).
Proof.
  intros s.
  exact (stats_ban_flag_outlives_ban "u" 900000 s 900000 ltac:(reflexivity) ltac:(lia)).
Defined.

(** ** The retry hints of the per-caller denials *)

Lemma same_caller_view_trans userId b b' s1 s2 s3 :
  same_caller_view userId b s1 s2 -> same_caller_view userId b' s2 s3 -> b <= b' ->
  same_caller_view userId b' s1 s3.
Proof.
  intros (Hm & Hh & Hr & Hb) (Hm' & Hh' & Hr' & Hb') Hle.
  split; [congruence |]. split; [congruence |]. split.
  - intros T HT. rewrite Hr by lia. apply Hr', HT.
  - intros e He. rewrite (Hb e) by lia. apply Hb', He.
Qed.

Lemma same_future_caller_view userId b s1 s2 :
  same_future b s1 s2 -> same_caller_view userId b s1 s2.
Proof.
  intros Hsame. destruct (same_future_limits b s1 s2 userId Hsame) as [Em Eh].
  destruct Hsame as (_ & _ & Hr & _ & Hb & _).
  split; [exact Em |]. split; [exact Eh |]. split; [apply Hr | apply Hb].
Qed.

(** A call that keeps away from [userId] leaves what the checks of
    [userId] read from the instant of the call on. *)
Lemma step_keeps_caller_view userId b o s out s1 :
  keeps_away userId o -> step o s = Some (out, s1) ->
  same_caller_view userId (op_clock b o) s s1.
Proof.
  intros [(Hclear & Hadd & Hrem) Hcheck] Hstep.
  assert (Hsame : forall t, userLimits t !! userId = userLimits s !! userId ->
                            tempBans t !! userId = tempBans s !! userId ->
                            config t = config s ->
                            (userId ∈ premiumUsers t <-> userId ∈ premiumUsers s) ->
                            same_caller_view userId (op_clock b o) s t).
  { intros t Hu Hb Hc Hp. destruct (limits_of_eq t s userId Hc Hp) as [Em Eh].
    split; [congruence |]. split; [congruence |]. split.
    - intros T _. rewrite (requests_of_eq t s userId Hu). reflexivity.
    - intros e _. rewrite Hb. tauto. }
  destruct o as [u t | t | u t | t | u | u | u]; simpl in Hstep.
  - destruct (checkRateLimit u t s) as [[r s']|] eqn:E; simpl in Hstep; [| discriminate].
    injection Hstep as <- <-.
    assert (Hne : userId <> u) by (intros <-; apply (Hcheck t); reflexivity).
    destruct (checkRateLimit_effect _ _ _ _ _ E) as (Hc & Hp & Ho & _).
    destruct (check_effect_counters _ _ _ _ _ E) as (Hx & _).
    apply Hsame; [apply Ho, Hne | apply (Hx userId Hne) | exact Hc | rewrite Hp; tauto].
  - injection Hstep as <- <-. unfold op_clock. simpl.
    apply same_future_caller_view, same_future_sym, cleanup_same_future.
  - injection Hstep as <- <-. apply Hsame; tauto.
  - injection Hstep as <- <-. apply Hsame; tauto.
  - injection Hstep as <- <-.
    assert (Hne : userId <> u) by congruence.
    apply Hsame; [reflexivity | reflexivity | reflexivity |].
    simpl. rewrite elem_of_union, elem_of_singleton. tauto.
  - injection Hstep as <- <-.
    assert (Hne : userId <> u) by congruence.
    apply Hsame; [reflexivity | reflexivity | reflexivity |].
    simpl. rewrite elem_of_difference, elem_of_singleton. tauto.
  - injection Hstep as <- <-.
    assert (Hne : userId <> u) by congruence.
    apply Hsame; [| | reflexivity | tauto]; simpl; apply lookup_delete_ne; congruence.
Qed.

Lemma run_keeps_caller_view userId ops : forall b s outs s1,
  run ops s = Some (outs, s1) ->
  clock_from b ops ->
  (forall o, In o ops -> keeps_away userId o) ->
  same_caller_view userId (clock_after b ops) s s1.
Proof.
  induction ops as [|o ops IH]; intros b s outs s1 Hrun Hclock Haway.
  - injection Hrun as _ <-. unfold clock_after. simpl.
    split; [reflexivity |]. split; [reflexivity |]. split; [reflexivity | tauto].
  - destruct (run_cons _ _ _ _ _ Hrun) as (out & s0 & outs' & Ho & Hr & ->).
    destruct Hclock as [Hb Hclock].
    pose proof (step_keeps_caller_view userId b o s out s0
                  (Haway o (or_introl eq_refl)) Ho) as H0.
    pose proof (IH _ _ _ _ Hr Hclock (fun o' Ho' => Haway o' (or_intror Ho'))) as H1.
    change (clock_after b (o :: ops)) with (clock_after (op_clock b o) ops).
    eapply same_caller_view_trans; [exact H0 | exact H1 |].
    clear -Hclock. revert Hclock. generalize (op_clock b o) as c.
    induction ops as [|o' ops IH']; intros c Hc; unfold clock_after; simpl; [lia |].
    destruct Hc as [Hle Hc]. specialize (IH' _ Hc). unfold clock_after in IH'. lia.
Qed.

(** What a check of [userId] at [later] reads from a limiter is what it
    reads from one with the same view. *)
Lemma caller_view_at_call userId b s1 s2 later :
  same_caller_view userId b s1 s2 -> b <= later ->
  (forall banExpiry, tempBans s2 !! userId = Some banExpiry -> later < banExpiry ->
                     tempBans s1 !! userId = Some banExpiry)
  /\ recentMinuteOf s2 userId later = recentMinuteOf s1 userId later
  /\ recentHourOf s2 userId later = recentHourOf s1 userId later
  /\ minuteLimitOf s2 userId = minuteLimitOf s1 userId
  /\ hourLimitOf s2 userId = hourLimitOf s1 userId.
Proof.
  intros (Hm & Hh & Hr & Hb) Hle.
  split; [intros e He Hlt; apply (Hb e); [lia | exact He] |].
  unfold recentMinuteOf, recentHourOf.
  rewrite <- (within_minute_hour later (requests_of s2 userId)),
    <- (within_minute_hour later (requests_of s1 userId)), (Hr later Hle).
  auto.
Qed.

(** X3. The retry hints of the per-caller denials are long enough. The
    caller is denied at [now] and calls again at [later], [retryAfter]
    seconds or more after the denial; in between there is no request of
    theirs and no administrative call on them, while the other callers, the
    cleanup and the statistics go on, on a clock that does not run
    backwards. Then: after [temp_ban] or [temp_ban_applied] the answer is
    not [temp_ban]; after [minute_limit], when the caller's minute quota is
    positive, it is none of [temp_ban], [temp_ban_applied], [minute_limit];
    after [hour_limit], when the caller's count of the trailing hour at the
    denial was not above the hour quota, it is neither [temp_ban] nor
    [hour_limit]. *)
Theorem caller_retry_hint_suffices userId now s r s' ops outs s'' later r2 s2 ms :
  checkRateLimit userId now s = Some (r, s') ->
  run ops s' = Some (outs, s'') ->
  (forall o, In o ops -> keeps_away userId o) ->
  clock_from now ops ->
  clock_after now ops <= later ->
  checkRateLimit userId later s'' = Some (r2, s2) ->
  retryAfter r ≫= retry_millis = Some ms ->
  now + ms <= later ->
  (reason r = Some temp_ban -> reason r2 <> Some temp_ban)
  /\ (reason r = Some temp_ban_applied -> reason r2 <> Some temp_ban)
  /\ (reason r = Some minute_limit -> 0 < minuteLimitOf s userId ->
      reason r2 <> Some temp_ban /\ reason r2 <> Some temp_ban_applied
      /\ reason r2 <> Some minute_limit)
  /\ (reason r = Some hour_limit ->
      recentHourOf s userId now <= hourLimitOf s userId ->
      reason r2 <> Some temp_ban /\ reason r2 <> Some hour_limit).
Proof.
  intros H1 Hrun Haway Hclock Hafter H2 Hms Hlater.
  pose proof (run_keeps_caller_view userId ops now s' outs s'' Hrun Hclock Haway) as Hview.
  destruct (caller_view_at_call _ _ _ _ _ Hview Hafter) as (Vban & Vmin & Vhour & Vml & Vhl).
  destruct (check_post _ _ _ _ _ H1) as (Pban & Papp & Pnone & Pmin & Phour & _).
  destruct (reason_inv _ _ _ _ _ H2) as (Iban0 & Imin0 & Ihour0 & _).
  assert (Iban : reason r2 = Some temp_ban ->
                 exists banExpiry, tempBans s' !! userId = Some banExpiry /\ later < banExpiry).
  { intros Hr2. destruct (Iban0 Hr2) as (e & He & Hlt). exists e. auto. }
  assert (Imin : reason r2 = Some temp_ban_applied \/ reason r2 = Some minute_limit ->
                 minuteLimitOf s' userId <= recentMinuteOf s' userId later).
  { intros Hr2. specialize (Imin0 Hr2). rewrite Vml, Vmin in Imin0. exact Imin0. }
  assert (Ihour : reason r2 = Some hour_limit ->
                  hourLimitOf s' userId <= recentHourOf s' userId later).
  { intros Hr2. specialize (Ihour0 Hr2). rewrite Vhl, Vhour in Ihour0. exact Ihour0. }
  clear Iban0 Imin0 Ihour0.
  destruct (checkRateLimit_effect _ _ _ _ _ H1) as (Hc & Hp & _ & _).
  destruct (limits_of_eq s' s userId Hc ltac:(rewrite Hp; tauto)) as [Eml Ehl].
  split; [| split; [| split]].
  - intros Hr Hr2. destruct (Pban Hr) as (-> & e & He & Hlt & Hra).
    rewrite Hra in Hms. cbn [mbind option_bind] in Hms. rewrite retry_millis_IntNum in Hms.
    injection Hms as <-.
    destruct (Iban Hr2) as (e' & He' & Hlt').
    pose proof (ceil_div_1000_spec (e - now)). assert (e' = e) by congruence. lia.
  - intros Hr Hr2. destruct (Papp Hr) as (Hb & Hra).
    rewrite Hra in Hms. cbn [mbind option_bind] in Hms. rewrite retry_millis_quot in Hms.
    injection Hms as <-.
    destruct (Iban Hr2) as (e' & He' & Hlt'). rewrite Hb in He'.
    injection He' as <-. lia.
  - intros Hr Hpos.
    assert (Ha : allowed r = false).
    { destruct (check_cases _ _ _ _ _ H1) as [(? & ? & ? & ? & ?) | [_ Hq]]; [assumption |].
      unfold quota_case in Hq. rewrite Hr in Hq.
      destruct Hq as [(_ & _ & ?) | [(_ & _ & ? & ?) | [(_ & _ & _ & ? & ?)
                     | [(_ & _ & _ & _ & ? & ?) | (_ & _ & _ & _ & ? & ?)]]]];
        try assumption; discriminate. }
    assert (Hb : tempBans s' !! userId = None).
    { apply Pnone; rewrite Hr; discriminate. }
    rewrite (Pmin Hr) in Hms. cbn [mbind option_bind] in Hms.
    assert (Hzero : recentMinuteOf s' userId later = 0).
    { unfold minuteRetryAfter in Hms.
      unfold recentMinuteOf.
      assert (Hnl : now <= later /\
                    forall t, In t (within now MINUTE (requests_of s userId)) ->
                              MINUTE <= later - t).
      { destruct (Math_max_list (within now MINUTE (requests_of s userId))) as [latest|] eqn:Em;
          rewrite retry_millis_IntNum in Hms; injection Hms as <-.
        - apply Math_max_list_most_recent in Em. destruct Em as [_ Hmax].
          pose proof (Z.mul_div_le (now - latest) 1000 ltac:(lia)).
          split; [lia |]. intros t Ht. specialize (Hmax t Ht). unfold MINUTE. lia.
        - split; [lia |]. destruct (within now MINUTE (requests_of s userId));
            [intros t [] | discriminate]. }
      destruct Hnl as [Hle Hwin].
      rewrite (denied_requests_later _ _ _ _ _ _ _ H1 Ha Hle) by (unfold MINUTE, HOUR; lia).
      replace (within later MINUTE (requests_of s userId)) with (@nil Z); [reflexivity |].
      symmetry. apply within_nil_iff. intros t Ht.
      destruct (Z.lt_ge_cases (now - t) MINUTE) as [Hin | Hout]; [| lia].
      apply Hwin. apply in_within. auto. }
    split; [| split].
    + intros Hr2. destruct (Iban Hr2) as (e' & He' & _). congruence.
    + intros Hr2. specialize (Imin (or_introl Hr2)). lia.
    + intros Hr2. specialize (Imin (or_intror Hr2)). lia.
  - intros Hr Hcount.
    assert (Ha : allowed r = false).
    { destruct (check_cases _ _ _ _ _ H1) as [(? & ? & ? & ? & ?) | [_ Hq]]; [assumption |].
      unfold quota_case in Hq. rewrite Hr in Hq.
      destruct Hq as [(_ & [?|?] & ?) | [(_ & _ & ? & ?) | [(_ & _ & _ & ? & ?)
                     | [(_ & _ & _ & _ & ? & ?) | (_ & _ & _ & _ & ? & ?)]]]];
        try assumption; discriminate. }
    assert (Hb : tempBans s' !! userId = None).
    { apply Pnone; rewrite Hr; discriminate. }
    rewrite (Phour Hr) in Hms. cbn [mbind option_bind] in Hms. unfold hourRetryAfter in Hms.
    destruct (Math_min_list (within now HOUR (requests_of s userId))) as [t0|] eqn:Em;
      [| discriminate].
    rewrite retry_millis_IntNum in Hms. injection Hms as <-.
    apply Math_min_list_oldest in Em. destruct Em as [Hin _].
    pose proof (Z.mul_div_le (now - t0) 1000 ltac:(lia)).
    assert (Hle : now <= later) by lia.
    assert (Hold : HOUR <= later - t0) by (unfold HOUR; lia).
    assert (Hless : recentHourOf s' userId later < hourLimitOf s' userId).
    { unfold recentHourOf in *.
      rewrite (denied_requests_later _ _ _ _ _ _ _ H1 Ha Hle) by lia.
      rewrite <- (within_later_narrow now later HOUR) by lia.
      pose proof (within_drops later HOUR _ t0 Hin Hold). lia. }
    split.
    + intros Hr2. destruct (Iban Hr2) as (e' & He' & _). congruence.
    + intros Hr2. specialize (Ihour Hr2). lia.
Qed.

Lemma caller_retry_hint_suffices_witness :
  let s := with_userLimits
             {[ "u"%string := {| requests := [0; 0; 0; 0; 0; 0; 0; 0; 0; 2000];
                                 violations := 0 |} ]}
             (newRateLimiter defaultConfig ∅) in
  let ops := [CheckRateLimit "v" 6000; Cleanup 7000; GetUserStats "u" 8000;
              ClearUserLimits "v"] in
  exists r s' outs s'' r2 s2,
    checkRateLimit "u" 5000 s = Some (r, s')
    /\ reason r = Some minute_limit
    /\ retryAfter r ≫= retry_millis = Some 57000
    /\ run ops s' = Some (outs, s'')
    /\ checkRateLimit "u" 62000 s'' = Some (r2, s2)
    /\ reason r2 <> Some minute_limit.
Proof.
  intros s ops.
  destruct (checkRateLimit "u" 5000 s) as [[r s']|] eqn:E;
    [| vm_compute in E; discriminate E].
  destruct (run_total ops s') as (outs & s'' & Er).
  destruct (checkRateLimit_total "u" 62000 s'') as (r2 & s2 & E2).
  assert (Hr : reason r = Some minute_limit /\ retryAfter r ≫= retry_millis = Some 57000).
  { vm_compute in E. injection E as <- _. split; reflexivity. }
  destruct Hr as [Hr Hms].
  assert (Haway : forall o, In o ops -> keeps_away "u" o).
  { intros o Ho. simpl in Ho.
    repeat (destruct Ho as [<- | Ho]; [repeat split; discriminate |]). destruct Ho. }
  assert (Hclock : clock_from 5000 ops).
  { unfold ops. cbn [clock_from]. unfold op_clock. simpl. lia. }
  assert (Hafter : clock_after 5000 ops <= 62000).
  { unfold ops, clock_after, op_clock. simpl. lia. }
  destruct (caller_retry_hint_suffices "u" 5000 s r s' ops outs s'' 62000 r2 s2 57000
              E Er Haway Hclock Hafter E2 Hms ltac:(lia)) as (_ & _ & Hmin & _).
  exists r, s', outs, s'', r2, s2.
  split; [reflexivity |]. split; [exact Hr |]. split; [exact Hms |].
  split; [exact Er |]. split; [exact E2 |]. apply (Hmin Hr). reflexivity.
Defined.

(** * The callers of the limiter *)

(** Handling a command is one [checkRateLimit] call, or none, and the
    command is turned away exactly when that call denies. *)
Lemma handle_event_step e s :
  exists h s',
    handle_event e s = Some (h, s')
    /\ match check_of e with
       | Some o =>
           exists r userId now,
             o = CheckRateLimit userId now
             /\ step o s = Some (Checked r, s')
             /\ (if allowed r
                 then h = UnknownCommand \/ exists c, h = Invoked c
                 else h = RateLimited r)
       | None => s' = s /\ (h = UnknownCommand \/ exists c, h = Invoked c)
       end.
Proof.
  destruct e as [c u t | c u t]; simpl.
  - unfold CommandHandler_handle.
    destruct (bool_decide (c ∈ commands)); simpl; [| eauto 10].
    destruct (bool_decide (c ∈ ["help"; "models"; "stats"; "limits"]%string)); simpl;
      [eauto 10 |].
    destruct (checkRateLimit_total u t s) as (r & s' & ->). simpl.
    destruct (allowed r) eqn:Ha; simpl.
    + exists (Invoked c), s'. split; [reflexivity |].
      exists r, u, t. rewrite Ha. eauto 10.
    + exists (RateLimited r), s'. split; [reflexivity |].
      exists r, u, t. rewrite Ha. auto.
  - unfold handleSlashCommand.
    destruct (checkRateLimit_total u t s) as (r & s' & ->). simpl.
    destruct (allowed r) eqn:Ha; simpl.
    + destruct (bool_decide _);
        eexists _, s'; (split; [reflexivity |]); exists r, u, t; rewrite Ha; eauto 10.
    + exists (RateLimited r), s'. split; [reflexivity |].
      exists r, u, t. rewrite Ha. auto.
Qed.

Lemma omap_cons_Some {A B} (f : A -> option B) x y l :
  f x = Some y -> omap f (x :: l) = y :: omap f l.
Proof. intros H. cbn. rewrite H. reflexivity. Qed.

Lemma omap_cons_None {A B} (f : A -> option B) x l :
  f x = None -> omap f (x :: l) = omap f l.
Proof. intros H. cbn. rewrite H. reflexivity. Qed.

(** The commands leave the limiter as their limiter calls alone do, and
    those let through are the admitted calls. *)
Lemma serve_run events : forall s,
  exists hs outs s',
    serve events s = Some (hs, s')
    /\ run (omap check_of events) s = Some (outs, s')
    /\ (forall userId,
          granted userId (combine events hs)
          = admitted userId (combine (omap check_of events) outs))
    /\ granted_all (combine events hs)
       = admitted_all (combine (omap check_of events) outs).
Proof.
  induction events as [|e events IH]; intros s.
  - exists [], [], s. simpl. auto.
  - destruct (handle_event_step e s) as (h & s1 & He & Hc).
    destruct (IH s1) as (hs & outs & s' & Hs & Hr & Hg & Hga).
    destruct (check_of e) as [o|] eqn:Eo.
    + destruct Hc as (r & u & t & -> & Hstep & Hh).
      exists (h :: hs), (Checked r :: outs), s'.
      rewrite (omap_cons_Some _ _ _ _ Eo).
      split; [simpl; rewrite He; simpl; rewrite Hs; reflexivity |].
      split; [cbn [run]; rewrite Hstep; simpl; rewrite Hr; reflexivity |].
      split.
      * intros userId. cbn [combine granted admitted]. rewrite Eo, Hg.
        destruct (allowed r).
        -- destruct Hh as [-> | [c ->]]; rewrite andb_true_r; reflexivity.
        -- subst h. rewrite andb_false_r. reflexivity.
      * cbn [combine granted_all admitted_all]. rewrite Eo, Hga.
        destruct (allowed r).
        -- destruct Hh as [-> | [c ->]]; reflexivity.
        -- subst h. reflexivity.
    + destruct Hc as [-> Hh].
      exists (h :: hs), outs, s'.
      rewrite (omap_cons_None _ _ _ Eo).
      split; [simpl; rewrite He; simpl; rewrite Hs; reflexivity |].
      split; [exact Hr |].
      split.
      * intros userId. cbn [combine granted]. rewrite Eo. apply Hg.
      * cbn [combine granted_all]. rewrite Eo. exact Hga.
Qed.

Lemma checks_undisturbed userId events : undisturbed userId (omap check_of events).
Proof.
  intros o Ho. apply list_elem_of_In, list_elem_of_omap in Ho.
  destruct Ho as (e & _ & He).
  assert (exists u t, o = CheckRateLimit u t) as (u & t & ->).
  { destruct e as [c u t | c u t]; simpl in He.
    - destruct (_ && _); [injection He as <-; eauto | discriminate].
    - injection He as <-. eauto. }
  repeat split; discriminate.
Qed.

(** X15. The quotas hold for the commands the bot runs. Over any sequence
    of commands that reach [CommandHandler.handle] or the bot's
    [handleSlashCommand] on one limiter, new at the start, with quotas that
    are counts and a clock that does not run backwards between the limiter
    calls: every command is handled; those of one caller that the limiter
    let through in the 60 seconds before any instant are no more than the
    caller's minute quota, those in the 3600 seconds before it no more than
    the hour quota, and those of all callers no more than the global quotas.
    The commands [help], [models], [stats] and [limits] of the command
    handler and names it does not know make no limiter call and are not
    counted; the bot's [handleSlashCommand] makes one for every command. *)
Theorem granted_within_quotas cfg premium events userId T :
  quotas_nonneg cfg ->
  clock_monotone (omap check_of events) ->
  exists hs s,
    serve events (newRateLimiter cfg premium) = Some (hs, s)
    /\ in_trailing T MINUTE (granted userId (combine events hs))
       <= minuteLimitOf (newRateLimiter cfg premium) userId
    /\ in_trailing T HOUR (granted userId (combine events hs))
       <= hourLimitOf (newRateLimiter cfg premium) userId
    /\ in_trailing T MINUTE (granted_all (combine events hs)) <= globalRequestsPerMinute cfg
    /\ in_trailing T HOUR (granted_all (combine events hs)) <= globalRequestsPerHour cfg.
Proof.
  intros Hq Hclock.
  destruct (serve_run events (newRateLimiter cfg premium))
    as (hs & outs & s & Hs & Hrun & Hg & Hga).
  destruct (clock_monotone_from _ Hclock) as [b Hb].
  exists hs, s. split; [exact Hs |].
  destruct (run_user_ledger _ _ _ _ _ _ _ _ _ (new_user_ledger cfg premium userId b Hq)
              Hb (checks_undisturbed userId events) Hrun) as (b1 & _ & _ & _ & Hbm & Hbh).
  destruct (run_global_ledger _ _ _ _ _ _ _ (new_global_ledger cfg premium b Hq)
              Hb Hrun) as (b2 & _ & _ & Hgm & Hgh).
  simpl in Hbm, Hbh, Hgm, Hgh. rewrite Hg, Hga.
  split; [apply Hbm |]. split; [apply Hbh |]. split; [apply Hgm | apply Hgh].
Qed.

Lemma granted_within_quotas_witness :
  let events := repeat (SlashCommand "help" "u" 0) 6
                ++ repeat (Interaction "stats" "u" 0) 3
                ++ repeat (Interaction "debug" "u" 1000) 6 in
  exists hs s,
    serve events (newRateLimiter defaultConfig ∅) = Some (hs, s)
    /\ in_trailing 1000 MINUTE (granted "u" (combine events hs)) = 10
    /\ in_trailing 1000 MINUTE (granted "u" (combine events hs)) <= 10.
Proof.
  intros events.
  assert (Hq : quotas_nonneg defaultConfig).
  { unfold quotas_nonneg. simpl. lia. }
  assert (Hc : clock_monotone (omap check_of events)).
  { vm_compute. repeat split; discriminate. }
  destruct (granted_within_quotas defaultConfig ∅ events "u" 1000 Hq Hc)
    as (hs & s & Hs & Hm & _).
  exists hs, s. split; [exact Hs |]. split; [| exact Hm].
  vm_compute in Hs. injection Hs as <- _. reflexivity.
Defined.

(** * Text helpers *)

Lemma substring_from_0 s n : substring s 0 n = take (Z.to_nat n) s.
Proof.
  unfold substring. change (Z.max 0 0) with 0.
  set (len := Z.of_nat (length s)).
  set (intEnd := Z.min (Z.max n 0) len).
  assert (Hlen : 0 <= len) by (unfold len; lia).
  assert (Hend : 0 <= intEnd) by (unfold intEnd; lia).
  rewrite (Z.min_l 0 len) by exact Hlen.
  rewrite (Z.min_l 0 intEnd), (Z.max_r 0 intEnd) by exact Hend.
  rewrite Z.sub_0_r. change (Z.to_nat 0) with 0%nat. rewrite drop_0.
  destruct (Z.le_gt_cases len n) as [Hl | Hl].
  - rewrite !take_ge by (unfold intEnd, len in *; lia). reflexivity.
  - f_equal. unfold intEnd, len in *. lia.
Qed.

Lemma lastIndexOf_spec s c :
  (lastIndexOf s c = -1 /\ forall j, s !! j <> Some c)
  \/ (0 <= lastIndexOf s c < Z.of_nat (length s)
      /\ s !! Z.to_nat (lastIndexOf s c) = Some c
      /\ forall j, (Z.to_nat (lastIndexOf s c) < j)%nat -> s !! j <> Some c).
Proof.
  induction s as [|x s IH]; simpl.
  - left. split; [reflexivity | intros j; discriminate].
  - destruct IH as [[E Hnone] | (Hr & Hat & Hafter)].
    + rewrite E. simpl. destruct (N.eqb_spec x c) as [-> | Hne].
      * right. split; [lia |]. split; [reflexivity |].
        intros [|j] Hj; [lia |]. simpl. apply Hnone.
      * left. split; [reflexivity |]. intros [|j]; simpl; [congruence | apply Hnone].
    + destruct (Z.leb_spec 0 (lastIndexOf s c)) as [_ | Hneg]; [| lia].
      right. split; [lia |].
      replace (Z.to_nat (lastIndexOf s c + 1)) with (S (Z.to_nat (lastIndexOf s c))) by lia.
      split; [exact Hat |].
      intros [|j] Hj; [lia |]. simpl. apply Hafter. lia.
Qed.

(** X16. [truncateText] keeps short texts as they are and cuts long ones to
    their first [maxLength - 3] code units followed by three dots. The
    result is never longer than [maxLength] when [maxLength] is at least 3,
    as it is at both uses ([4000] and [100]); for a smaller [maxLength] a
    long text becomes the three dots alone, which is longer than asked. *)
Theorem truncateText_fits text maxLength :
  let out := truncateText text maxLength in
  (3 <= maxLength -> Z.of_nat (length out) <= maxLength)
  /\ Z.of_nat (length out) <= Z.max maxLength 3
  /\ if Z.of_nat (length text) <=? maxLength
     then out = text
     else out = take (Z.to_nat (maxLength - 3)) text ++ units "..."
          /\ Z.of_nat (length out) = Z.max maxLength 3.
Proof.
  unfold truncateText.
  destruct (Z.leb_spec (Z.of_nat (length text)) maxLength) as [Hle | Hgt]; cbv zeta.
  - split; [lia |]. split; [lia | reflexivity].
  - rewrite substring_from_0.
    assert (El : Z.of_nat (length (take (Z.to_nat (maxLength - 3)) text ++ units "..."))
                 = Z.max maxLength 3).
    { rewrite length_app, length_take. change (length (units "...")) with 3%nat. lia. }
    split; [lia |]. split; [lia |]. split; [reflexivity | exact El].
Qed.

Lemma truncateText_fits_witness :
  let text := units "An explanation that is longer than it may be" in
  Z.of_nat (length (truncateText text 20)) <= 20
  /\ truncateText text 20 = units "An explanation th...".
Proof.
  intros text.
  destruct (truncateText_fits text 20) as (H & _ & _).
  split; [apply H; lia | reflexivity].
Defined.

(** X17. The description [createCompactEmbed] sets is never longer than 2000
    code units. A text of up to 2000 units is set as it is; a longer one is
    cut to a prefix of more than 1800 and at most 1950 units, followed by
    the 28 units of the truncation note, and a cut before the 1950th unit
    falls on the last line break among the first 1950 units. *)
Theorem compact_description_fits description :
  let out := createCompactEmbed_description description in
  Z.of_nat (length out) <= 2000
  /\ if 2000 <? Z.of_nat (length description)
     then exists k : nat,
            (1800 < k <= 1950)%nat
            /\ out = take k description
                     ++ [10%N; 10%N] ++ units "*...truncated for brevity*"
            /\ length out = (k + 28)%nat
            /\ ((k < 1950)%nat ->
                description !! k = Some 10%N
                /\ forall j, (k < j < 1950)%nat -> description !! j <> Some 10%N)
     else out = description.
Proof.
  unfold createCompactEmbed_description.
  destruct (Z.ltb_spec 2000 (Z.of_nat (length description))) as [Hlong | Hshort]; cbv zeta;
    [| split; [lia | reflexivity]].
  rewrite substring_from_0. change (Z.to_nat 1950) with 1950%nat.
  assert (Hk : exists k : nat,
            (1800 < k <= 1950)%nat
            /\ (if 1800 <? lastIndexOf (take 1950 description) 10%N
                then substring (take 1950 description) 0
                       (lastIndexOf (take 1950 description) 10%N)
                else take 1950 description) = take k description
            /\ ((k < 1950)%nat ->
                description !! k = Some 10%N
                /\ forall j, (k < j < 1950)%nat -> description !! j <> Some 10%N)).
  { destruct (Z.ltb_spec 1800 (lastIndexOf (take 1950 description) 10%N)) as [Hcut | Hno].
    - destruct (lastIndexOf_spec (take 1950 description) 10%N)
        as [[E _] | (Hr & Hat & Hafter)]; [lia |].
      rewrite length_take in Hr.
      exists (Z.to_nat (lastIndexOf (take 1950 description) 10%N)).
      split; [lia |]. split.
      + rewrite substring_from_0, take_take. f_equal. lia.
      + intros _. split.
        * rewrite lookup_take_lt in Hat by lia. exact Hat.
        * intros j Hj. specialize (Hafter j ltac:(lia)).
          rewrite lookup_take_lt in Hafter by lia. exact Hafter.
    - exists 1950%nat. split; [lia |]. split; [reflexivity | lia]. }
  destruct Hk as (k & Hrange & -> & Hcut).
  assert (El : length (take k description
                       ++ [10%N; 10%N] ++ units "*...truncated for brevity*")
               = (k + 28)%nat).
  { rewrite length_app, length_take.
    change (length ([10%N; 10%N] ++ units "*...truncated for brevity*")) with 28%nat. lia. }
  split; [lia |].
  exists k. split; [exact Hrange |]. split; [reflexivity |]. split; [exact El | exact Hcut].
Qed.

(** X18. [formatUptime] shows an uptime that is a safe integer and not
    negative rounded down to the minute: the days, hours and minutes it
    prints are not negative, the hours are under 24 and the minutes under
    60, the three add up to a duration that is not over the uptime and less
    than a minute short of it, and the days, and then the hours, are left
    out when they are nought. *)
Theorem formatUptime_rounds_down (uptime : SafeInteger) :
  0 <= integer uptime ->
  exists days hours minutes,
    0 <= days /\ 0 <= hours < 24 /\ 0 <= minutes < 60
    /\ days * 86400000 + hours * 3600000 + minutes * 60000 <= integer uptime
       < days * 86400000 + hours * 3600000 + minutes * 60000 + 60000
    /\ formatUptime uptime
       = if 0 <? days
         then pretty days +:+ "d " +:+ pretty hours +:+ "h " +:+ pretty minutes +:+ "m"
         else if 0 <? hours
              then pretty hours +:+ "h " +:+ pretty minutes +:+ "m"
              else pretty minutes +:+ "m".
Proof.
  destruct uptime as [uptime Hsafe]. simpl. intros Hpos.
  exists (uptime / 86400000), (Z.rem (uptime / 3600000) 24), (Z.rem (uptime / 60000) 60).
  assert (H0 : 0 <= uptime / 60000) by (apply Z.div_pos; lia).
  assert (H1 : uptime / 3600000 = uptime / 60000 / 60).
  { rewrite Z.div_div by lia. reflexivity. }
  assert (H2 : uptime / 86400000 = uptime / 60000 / 60 / 24).
  { rewrite !Z.div_div by lia. reflexivity. }
  assert (H3 : 0 <= uptime / 60000 / 60) by (apply Z.div_pos; lia).
  rewrite H1, H2, !Z.rem_mod_nonneg by lia.
  pose proof (Z.div_mod uptime 60000 ltac:(lia)) as D1.
  pose proof (Z.mod_pos_bound uptime 60000 ltac:(lia)) as B1.
  pose proof (Z.div_mod (uptime / 60000) 60 ltac:(lia)) as D2.
  pose proof (Z.mod_pos_bound (uptime / 60000) 60 ltac:(lia)) as B2.
  pose proof (Z.div_mod (uptime / 60000 / 60) 24 ltac:(lia)) as D3.
  pose proof (Z.mod_pos_bound (uptime / 60000 / 60) 24 ltac:(lia)) as B3.
  assert (H4 : 0 <= uptime / 60000 / 60 / 24) by (apply Z.div_pos; lia).
  split; [exact H4 |]. split; [lia |]. split; [lia |]. split; [lia |].
  unfold formatUptime. simpl integer. rewrite H1, H2, !Z.rem_mod_nonneg by lia. reflexivity.
Qed.

Lemma formatUptime_rounds_down_witness :
  let uptime := {| integer := 93784999; integer_safe := eq_refl |} in
  formatUptime uptime = "1d 2h 3m"%string
  /\ exists days hours minutes,
       0 <= days /\ 0 <= hours < 24 /\ 0 <= minutes < 60
       /\ days * 86400000 + hours * 3600000 + minutes * 60000 <= 93784999
          < days * 86400000 + hours * 3600000 + minutes * 60000 + 60000.
Proof.
  intros uptime. split; [reflexivity |].
  destruct (formatUptime_rounds_down uptime ltac:(simpl; lia))
    as (d & h & m & Hd & Hh & Hm & Hsum & _).
  exists d, h, m. auto.
Defined.

(** * The logger's level filter *)

Lemma levels_own key n :
  levels key = Own n ->
  (key = "error"%string /\ n = 0) \/ (key = "warn"%string /\ n = 1)
  \/ (key = "info"%string /\ n = 2) \/ (key = "debug"%string /\ n = 3).
Proof.
  unfold levels.
  destruct (decide (key = "error"%string)) as [-> | N1]; [intros [= <-]; auto |].
  destruct (decide (key = "warn"%string)) as [-> | N2]; [intros [= <-]; auto |].
  destruct (decide (key = "info"%string)) as [-> | N3]; [intros [= <-]; auto |].
  destruct (decide (key = "debug"%string)) as [-> | N4]; [intros [= <-]; auto 10 |].
  rewrite !(bool_decide_eq_false_2 (key = _)) by assumption.
  destruct (Object_prototype key); discriminate.
Qed.

(** X19. The logger writes by severity. For the four levels its methods
    pass ([error], [warn], [info], [debug]): a level is written exactly when
    [LOG_LEVEL] names one of the four and the level is not less severe than
    it, so with a [LOG_LEVEL] that names none of them (a name in capitals,
    an unknown name, the name of a member of [Object.prototype]) none of
    the four is written, errors included; with a [LOG_LEVEL] of the four,
    errors are always written and with a level every more severe one; with
    [LOG_LEVEL] unset or empty, [error], [warn] and [info] are written and
    [debug] is not. With a [LOG_LEVEL] that names nothing at all
    [shouldLog] is [false] on every string. *)
Theorem log_level_filter LOG_LEVEL level a :
  let logLevel := logLevelOf LOG_LEVEL in
  levels level = Own a ->
  (shouldLog logLevel level = true <-> exists b, levels logLevel = Own b /\ a <= b)
  /\ ((exists b, levels logLevel = Own b) -> shouldLog logLevel "error" = true)
  /\ (forall level' a',
        levels level' = Own a' -> a' <= a ->
        shouldLog logLevel level = true -> shouldLog logLevel level' = true)
  /\ (LOG_LEVEL = None \/ LOG_LEVEL = Some ""%string ->
      shouldLog logLevel level = negb (bool_decide (level = "debug"%string)))
  /\ (levels logLevel = Absent -> forall key, shouldLog logLevel key = false).
Proof.
  cbv zeta. intros Ha.
  assert (Hchar : forall key n,
            levels key = Own n ->
            (shouldLog (logLevelOf LOG_LEVEL) key = true
             <-> exists b, levels (logLevelOf LOG_LEVEL) = Own b /\ n <= b)).
  { intros key n Hk. unfold shouldLog. rewrite Hk.
    destruct (levels (logLevelOf LOG_LEVEL)) as [b | text |]; simpl.
    - rewrite Z.leb_le. split; [intros H; exists b; auto | intros (b' & [= <-] & H); exact H].
    - split; [discriminate | intros (b' & H & _); discriminate].
    - split; [discriminate | intros (b' & H & _); discriminate]. }
  split; [apply Hchar, Ha |]. split; [| split; [| split]].
  - intros [b Hb]. apply (Hchar "error"%string 0 eq_refl). exists b. split; [exact Hb |].
    destruct (levels_own _ _ Hb) as [[_ ->] | [[_ ->] | [[_ ->] | [_ ->]]]]; lia.
  - intros level' a' Ha' Hle H. apply (Hchar _ _ Ha) in H. destruct H as (b & Hb & Hab).
    apply (Hchar _ _ Ha'). exists b. split; [exact Hb | lia].
  - intros H.
    assert (E : logLevelOf LOG_LEVEL = "info"%string) by (destruct H as [-> | ->]; reflexivity).
    rewrite E.
    destruct (levels_own _ _ Ha) as [[-> _] | [[-> _] | [[-> _] | [-> _]]]]; reflexivity.
  - intros H key. unfold shouldLog. rewrite H. destruct (levels key); reflexivity.
Qed.

Lemma log_level_filter_witness :
  shouldLog (logLevelOf (Some "INFO"%string)) "error" = false
  /\ shouldLog (logLevelOf (Some "constructor"%string)) "error" = false
  /\ shouldLog (logLevelOf (Some "constructor"%string)) "constructor" = true
  /\ shouldLog (logLevelOf (Some "warn"%string)) "error" = true
  /\ shouldLog (logLevelOf None) "debug" = false.
Proof.
  destruct (log_level_filter (Some "INFO"%string) "error" 0 eq_refl) as (_ & _ & _ & _ & H1).
  destruct (log_level_filter (Some "warn"%string) "error" 0 eq_refl) as (_ & H2 & _).
  destruct (log_level_filter None "debug" 3 eq_refl) as (_ & _ & _ & H3 & _).
  split; [apply H1; reflexivity |].
  split; [reflexivity |]. split; [reflexivity |].
  split; [apply H2; exists 1; reflexivity |].
  rewrite H3 by (left; reflexivity). reflexivity.
Defined.
